(** * SegundoBackup: the SFTP folder synchroniser

    A shallow embedding of [src/main.py] and [src/module/files.py].

    The program walks a local directory tree, and for each terminal folder
    lists the mirrored remote folder, downloads the newest remote file when
    it is missing locally and deletes the other regular files of the folder.

    The definitions come first:
    - [PosixPath]: the string functions of [os.path] the program calls
      ([join], [normpath], [abspath], [relpath]), in their POSIX version;
    - [FS]: a local file system (a tree of named nodes with a working
      directory) and the system calls the program makes on it
      ([os.listdir], [os.path.isfile], [os.path.exists], [os.remove],
      [os.walk]);
    - [Efectos]: the monad of the stateful code (state, exceptions) and
      the trace of log lines and calls;
    - [Files]: [listar_subcarpetas], [eliminar_antiguos] and
      [fichero_mas_reciente] of [module/files.py];
    - [Main]: the per-folder loop of [main] in [main.py], over the two SFTP
      adapters of [module/ssh.py], which are taken as parameters;
    - [Propiedades] and [Ejemplos]: the vocabulary of the statements and a
      small world to evaluate the program on.

    The facts follow, one module per component: [PathFacts], [FSFacts],
    [DiscoveryFacts], [PruneFacts], [TreeFacts], [MainFacts],
    [IdempotenceFacts], [MapperFacts]; then what the code does at its
    edges: [NewestFacts], [PruneEdgeFacts], [DiscoveryEdgeFacts],
    [RunFacts], [MapperEdgeFacts]. *)

From Stdlib Require Import List String Ascii ZArith Lia Bool Arith.
Import ListNotations.
Local Open Scope string_scope.
Local Open Scope list_scope.

(* ================================================================= *)
(** ** [os.path] on a POSIX host *)

Module PosixPath.

Definition sep : ascii := "/"%char.
Definition curdir : string := ".".
Definition pardir : string := "..".

Definition is_sep (c : ascii) : bool := Ascii.eqb c sep.

(** [str.split('/')]: the pieces between separators; never empty. *)
Fixpoint split (s : string) : list string :=
  match s with
  | EmptyString => [EmptyString]
  | String c s' =>
      if is_sep c then EmptyString :: split s'
      else match split s' with
           | [] => [String c EmptyString]
           | x :: xs => String c x :: xs
           end
  end.

(** [s.startswith('/')] and [s.endswith('/')]. *)
Definition startswith_sep (s : string) : bool :=
  match s with
  | String c _ => is_sep c
  | EmptyString => false
  end.

Fixpoint endswith_sep (s : string) : bool :=
  match s with
  | EmptyString => false
  | String c EmptyString => is_sep c
  | String _ s' => endswith_sep s'
  end.

Definition isabs (s : string) : bool := startswith_sep s.

(** [posixpath.join(a, b)]: an absolute [b] replaces [a]; a separator is
    inserted unless [a] is empty or already ends with one. *)
Definition join (a b : string) : string :=
  if startswith_sep b then b
  else if (a =? "") || endswith_sep a then a ++ b
  else a ++ "/" ++ b.

(** [posixpath.join(a, *p)]. *)
Definition join_many (a : string) (p : list string) : string :=
  fold_left join p a.

(** The [initial_slashes] of [normpath]: POSIX keeps exactly two leading
    slashes, and treats three or more as one. *)
Definition initial_slashes (path : string) : nat :=
  match path with
  | String c1 rest =>
      if is_sep c1 then
        match rest with
        | String c2 rest' =>
            if is_sep c2 then
              match rest' with
              | String c3 _ => if is_sep c3 then 1 else 2
              | EmptyString => 2
              end
            else 1
        | EmptyString => 1
        end
      else 0
  | EmptyString => 0
  end.

Definition last_is_pardir (comps : list string) : bool :=
  match comps with
  | [] => false
  | _ => last comps "" =? pardir
  end.

Definition is_nil {A} (l : list A) : bool :=
  match l with [] => true | _ => false end.

(** One turn of the loop of [normpath] over the components. *)
Definition norm_step (initial : nat) (new_comps : list string) (comp : string)
  : list string :=
  if (comp =? "") || (comp =? curdir) then new_comps
  else if negb (comp =? pardir)
          || ((initial =? 0)%nat && is_nil new_comps)
          || last_is_pardir new_comps
  then new_comps ++ [comp]
  else removelast new_comps.

Definition norm_comps (initial : nat) (comps : list string) : list string :=
  fold_left (norm_step initial) comps [].

Fixpoint slashes (n : nat) : string :=
  match n with
  | O => ""
  | S n' => String sep (slashes n')
  end.

Definition or_dot (s : string) : string := if s =? "" then curdir else s.

Definition normpath (path : string) : string :=
  if path =? "" then curdir
  else
    let initial := initial_slashes path in
    let comps := norm_comps initial (split path) in
    or_dot (slashes initial ++ concat "/" comps).

(** [abspath], with the answer of [os.getcwd()] as [cwd]. *)
Definition abspath (cwd path : string) : string :=
  normpath (if startswith_sep path then path else join cwd path).

Definition nonempty (s : string) : bool := negb (s =? "").

Fixpoint commonprefix_len (l1 l2 : list string) : nat :=
  match l1, l2 with
  | x :: l1', y :: l2' => if x =? y then S (commonprefix_len l1' l2') else 0
  | _, _ => 0
  end.

(** [posixpath.relpath(path, start)]; [None] is the [ValueError] raised on
    an empty [path]. *)
Definition relpath (cwd path start : string) : option string :=
  if path =? "" then None
  else
    let start_list := filter nonempty (split (abspath cwd start)) in
    let path_list := filter nonempty (split (abspath cwd path)) in
    let i := commonprefix_len start_list path_list in
    let rel_list := repeat pardir (List.length start_list - i) ++ skipn i path_list in
    match rel_list with
    | [] => Some curdir
    | r :: rs => Some (join_many r rs)
    end.

(** [s.replace('\\', '/')]. *)
Definition backslash : ascii := ascii_of_nat 92.

Fixpoint replace_backslash (s : string) : string :=
  match s with
  | EmptyString => EmptyString
  | String c s' =>
      String (if Ascii.eqb c backslash then sep else c) (replace_backslash s')
  end.

End PosixPath.

(* ================================================================= *)
(** ** The local file system *)

Module FS.

(** A node of the tree, as [os.path.isfile] and [os.path.isdir] see it.
    [File size removable]: a regular file; [os.remove] succeeds on it
    exactly when [removable] holds (it raises [OSError] on a file that is
    locked or protected).  [Other]: an entry that is neither (a FIFO, a
    socket, a dangling link).  Symbolic links to directories are not
    modelled. *)
#[local] Unset Elimination Schemes.
Inductive node : Type :=
| File (size : Z) (removable : bool)
| Dir (entries : list (string * node))
| Other.
#[local] Set Elimination Schemes.

(** The order of [entries] is the order in which [os.listdir] and
    [os.scandir] report them. *)
Record filesystem : Type := {
  root : node;
  cwd : list string   (* the working directory, as names from the root *)
}.

Fixpoint assoc (name : string) (es : list (string * node)) : option node :=
  match es with
  | [] => None
  | (k, n) :: es' => if k =? name then Some n else assoc name es'
  end.

(** The node at a location (a list of names from [n] down). *)
Fixpoint lookup (n : node) (loc : list string) : option node :=
  match loc with
  | [] => Some n
  | c :: loc' =>
      match n with
      | Dir es =>
          match assoc c es with
          | Some n' => lookup n' loc'
          | None => None
          end
      | _ => None
      end
  end.

Definition is_dir (n : option node) : bool :=
  match n with Some (Dir _) => true | _ => false end.

Definition is_file (n : option node) : bool :=
  match n with Some (File _ _) => true | _ => false end.

(** Path resolution, one component at a time: every component, the empty
    one of a trailing slash included, is looked up in a directory
    ([ENOTDIR] and [ENOENT] otherwise). *)
Definition step_loc (r : node) (cur : option (list string)) (c : string)
  : option (list string) :=
  match cur with
  | None => None
  | Some l =>
      if is_dir (lookup r l) then
        if (c =? "") || (c =? PosixPath.curdir) then Some l
        else if c =? PosixPath.pardir then Some (removelast l)
        else Some (l ++ [c])
      else None
  end.

(** The location a path string names: relative paths start from the
    working directory; the empty path names nothing. *)
Definition locate (fs : filesystem) (path : string) : option (list string) :=
  if path =? "" then None
  else fold_left (step_loc (root fs)) (PosixPath.split path)
                 (Some (if PosixPath.isabs path then [] else cwd fs)).

(** [os.stat]. *)
Definition stat (fs : filesystem) (path : string) : option node :=
  match locate fs path with
  | Some l => lookup (root fs) l
  | None => None
  end.

Definition os_path_exists (fs : filesystem) (path : string) : bool :=
  match stat fs path with Some _ => true | None => false end.

Definition os_path_isfile (fs : filesystem) (path : string) : bool :=
  is_file (stat fs path).

Definition os_path_isdir (fs : filesystem) (path : string) : bool :=
  is_dir (stat fs path).

(** [os.listdir]; [None] is the [OSError] raised when the path is not a
    directory. *)
Definition os_listdir (fs : filesystem) (path : string) : option (list string) :=
  match stat fs path with
  | Some (Dir es) => Some (map fst es)
  | _ => None
  end.

(** [os.getcwd()]. *)
Definition getcwd (fs : filesystem) : string :=
  "/" ++ concat "/" (cwd fs).

Definition remove_entry (name : string) (es : list (string * node))
  : list (string * node) :=
  filter (fun e => negb (fst e =? name)) es.

(** Rewrites the node of the first entry called [name], the one [assoc]
    finds. *)
Fixpoint update_entry (name : string) (g : node -> node)
         (es : list (string * node)) : list (string * node) :=
  match es with
  | [] => []
  | (k, n) :: es' =>
      if k =? name then (k, g n) :: es'
      else (k, n) :: update_entry name g es'
  end.

(** Rewrites the entries of the directory at [loc]. *)
Fixpoint update_at (n : node) (loc : list string)
         (f : list (string * node) -> list (string * node)) : node :=
  match loc with
  | [] => match n with Dir es => Dir (f es) | _ => n end
  | c :: loc' =>
      match n with
      | Dir es => Dir (update_entry c (fun m => update_at m loc' f) es)
      | _ => n
      end
  end.

Definition unlink (fs : filesystem) (loc : list string) : filesystem :=
  {| root := update_at (root fs) (removelast loc) (remove_entry (last loc ""));
     cwd := cwd fs |}.

(** [os.remove]; [None] is the [OSError] it raises: on a missing path, on
    a directory, on a file that cannot be removed. *)
Definition os_remove (fs : filesystem) (path : string) : option filesystem :=
  match locate fs path with
  | Some loc =>
      match lookup (root fs) loc with
      | Some (File _ true) => Some (unlink fs loc)
      | Some Other => Some (unlink fs loc)
      | _ => None
      end
  | None => None
  end.

Definition dirnames (es : list (string * node)) : list string :=
  map fst (filter (fun e => is_dir (Some (snd e))) es).

Definition filenames (es : list (string * node)) : list string :=
  map fst (filter (fun e => negb (is_dir (Some (snd e)))) es).

(** [os.walk(top)], top-down: the triple of [top] first, then the walk of
    each child directory, under the path [join(top, name)]. *)
Fixpoint walk (top : string) (n : node)
  : list (string * list string * list string) :=
  match n with
  | Dir es =>
      (top, dirnames es, filenames es)
        :: (fix walk_children (l : list (string * node)) :=
              match l with
              | [] => []
              | (name, child) :: l' =>
                  walk (PosixPath.join top name) child ++ walk_children l'
              end) es
  | _ => []
  end.

(** A [top] that is not a directory yields nothing ([os.walk] ignores the
    error of [scandir]). *)
Definition os_walk (fs : filesystem) (top : string)
  : list (string * list string * list string) :=
  match stat fs top with
  | Some n => walk top n
  | None => []
  end.

(** *** Well-formed trees: names are real file names, unique per folder *)

Fixpoint has_sep (s : string) : bool :=
  match s with
  | EmptyString => false
  | String c s' => PosixPath.is_sep c || has_sep s'
  end.

Definition plain_name (s : string) : bool :=
  negb (s =? "") && negb (s =? PosixPath.curdir)
  && negb (s =? PosixPath.pardir) && negb (has_sep s).

Fixpoint mem (x : string) (l : list string) : bool :=
  match l with
  | [] => false
  | y :: l' => (y =? x) || mem x l'
  end.

Fixpoint nodupb (l : list string) : bool :=
  match l with
  | [] => true
  | x :: l' => negb (mem x l') && nodupb l'
  end.

Fixpoint wf_node (n : node) : bool :=
  match n with
  | Dir es =>
      forallb plain_name (map fst es) && nodupb (map fst es)
      && (fix wf_children (l : list (string * node)) :=
            match l with
            | [] => true
            | (_, child) :: l' => wf_node child && wf_children l'
            end) es
  | _ => true
  end.

Definition wf (fs : filesystem) : bool :=
  wf_node (root fs) && forallb plain_name (cwd fs).

End FS.

(* ================================================================= *)
(** ** Effects: state, exceptions, the log *)

Module Efectos.

Inductive excepcion : Type :=
| ValueError
| OSError
| ErrorExterno (texto : string).

Inductive resultado (A : Type) : Type :=
| Ok (a : A)
| Raise (e : excepcion).
Arguments Ok {A} a.
Arguments Raise {A} e.

(** A computation over a state [S] that returns or raises; the state
    reached when it raises is kept, as Python keeps the assignments made
    before an exception. *)
Definition M (S A : Type) : Type := S -> resultado A * S.

Definition ret {S A} (a : A) : M S A := fun s => (Ok a, s).

Definition bind {S A B} (m : M S A) (k : A -> M S B) : M S B :=
  fun s =>
    match m s with
    | (Ok a, s') => k a s'
    | (Raise e, s') => (Raise e, s')
    end.

Definition raise {S A} (e : excepcion) : M S A := fun s => (Raise e, s).

(** [try: m  except Exception as e: h e]. *)
Definition try_except {S A} (m : M S A) (h : excepcion -> M S A) : M S A :=
  fun s =>
    match m s with
    | (Ok a, s') => (Ok a, s')
    | (Raise e, s') => h e s'
    end.

Definition get {S} : M S S := fun s => (Ok s, s).
Definition modify {S} (f : S -> S) : M S unit := fun s => (Ok tt, f s).

Declare Scope efectos_scope.
Delimit Scope efectos_scope with efectos.
Notation "x <- m ;; k" := (bind m (fun x => k))
  (at level 100, m at next level, right associativity) : efectos_scope.
Notation "' p <- m ;; k" := (bind m (fun p => k))
  (at level 100, p pattern, m at next level, right associativity)
  : efectos_scope.
Notation "m ;; k" := (bind m (fun _ => k))
  (at level 100, right associativity) : efectos_scope.

Local Open Scope efectos_scope.

(** [for x in l: body x]. *)
Fixpoint for_each {S A} (l : list A) (body : A -> M S unit) : M S unit :=
  match l with
  | [] => ret tt
  | x :: l' => body x ;; for_each l' body
  end.

(** Runs [m] with local variables [L], initialised to [l0]. *)
Definition with_locals {W L A} (l0 : L) (m : M (W * L) A) : M W A :=
  fun w => let '(r, (w', _)) := m (w, l0) in (r, w').

(** Runs a computation on the world inside one that also has locals. *)
Definition on_world {W L A} (m : M W A) : M (W * L) A :=
  fun s => let '(r, w') := m (fst s) in (r, (w', snd s)).

Definition get_locals {W L} : M (W * L) L := fun s => (Ok (snd s), s).
Definition modify_locals {W L} (f : L -> L) : M (W * L) unit :=
  fun s => (Ok tt, (fst s, f (snd s))).

(** *** What the program logs and calls *)

Inductive nivel : Type := DEBUG | INFO | WARNING | ERROR.

(** One constructor per [logger] call of [main.py] (from line 96 on) and
    of [files.py], with the values the message interpolates. *)
Inductive mensaje : Type :=
| DirectorioBaseInvalido (base_dir : option string)          (* main.py:96 *)
| CarpetasEncontradas (n : nat)                               (* main.py:101 *)
| ProcesandoCarpeta (carpeta_local ruta_remota : string)      (* main.py:117 *)
| NoSePudoListar (ruta_remota : string)                       (* main.py:121 *)
| NoHayArchivosRemotos (ruta_remota : string)                 (* main.py:126 *)
| ArchivoMasReciente (nombre : string) (tamano : Z)           (* main.py:133 *)
| YaExisteLocalmente (nombre : string)                        (* main.py:138 *)
| DescargadoCorrectamente (nombre ruta_descargada : string)   (* main.py:146 *)
| NoSePudoDescargar (nombre : string)                         (* main.py:148 *)
| AntiguosEliminados (n : nat) (carpeta_local : string)       (* main.py:154 *)
| NoHabiaAntiguos (carpeta_local : string)                    (* main.py:156 *)
| ErrorProcesando (carpeta_local : string) (e : excepcion)    (* main.py:160 *)
| Resumen (carpetas descargados : nat) (bytes : Z)
          (eliminados errores : nat)                          (* main.py:165-172 *)
| EliminadoFicheroAntiguo (ruta : string)                     (* files.py:89 *)
| ErrorEliminando (carpeta : string) (e : excepcion).         (* files.py:91 *)

(** The trace records the log lines and, as ghost events, the calls of the
    two SFTP adapters and of the pruner. *)
Inductive evento : Type :=
| Log (n : nivel) (m : mensaje)
| LlamadaListar (ruta_remota : string)
| LlamadaDescargar (nombre ruta_remota destino_local : string)
| LlamadaEliminarAntiguos (carpeta ultimo_fichero : string).

Record mundo : Type := {
  fs : FS.filesystem;
  traza : list evento   (* oldest first *)
}.

Definition emitir (e : evento) : M mundo unit :=
  modify (fun w => {| fs := fs w; traza := traza w ++ [e] |}).

Definition log (n : nivel) (m : mensaje) : M mundo unit := emitir (Log n m).

(** A read of the file system. *)
Definition leer {A} (f : FS.filesystem -> A) : M mundo A :=
  fun w => (Ok (f (fs w)), w).

(** A system call that may raise [OSError]. *)
Definition llamar {A} (f : FS.filesystem -> option A) : M mundo A :=
  fun w => match f (fs w) with
           | Some a => (Ok a, w)
           | None => (Raise OSError, w)
           end.

Definition os_remove (ruta : string) : M mundo unit :=
  fun w => match FS.os_remove (fs w) ruta with
           | Some fs' => (Ok tt, {| fs := fs'; traza := traza w |})
           | None => (Raise OSError, w)
           end.

End Efectos.

(* ================================================================= *)
(** ** [module/files.py] *)

Module Files.
Import Efectos.
Local Open Scope efectos_scope.

(** [listar_subcarpetas(base_path)]: the [root] of every triple of
    [os.walk] whose [dirs] is empty. *)
Definition listar_subcarpetas (fs : FS.filesystem) (base_path : string)
  : list string :=
  map (fun t => fst (fst t))
      (filter (fun t => PosixPath.is_nil (snd (fst t)))
              (FS.os_walk fs base_path)).

(** The body of the [for] of [eliminar_antiguos]; the local variable
    [eliminados] is the local state. *)
Definition eliminar_antiguos_paso (carpeta ultimo_fichero fichero : string)
  : M (mundo * nat) unit :=
  let ruta := PosixPath.join carpeta fichero in
  es_fichero <- on_world (leer (fun fs => FS.os_path_isfile fs ruta)) ;;
  if es_fichero && negb (fichero =? ultimo_fichero) then
    on_world (os_remove ruta) ;;
    modify_locals S ;;
    on_world (log INFO (EliminadoFicheroAntiguo ruta))
  else ret tt.

(** [eliminar_antiguos(carpeta, ultimo_fichero)]: one [try] around the
    whole loop; the count reached is returned either way. *)
Definition eliminar_antiguos (carpeta ultimo_fichero : string) : M mundo nat :=
  with_locals 0
    (try_except
       (ficheros <- on_world (llamar (fun fs => FS.os_listdir fs carpeta)) ;;
        for_each ficheros (eliminar_antiguos_paso carpeta ultimo_fichero))
       (fun e => on_world (log ERROR (ErrorEliminando carpeta e))) ;;
     get_locals).

(** What [fichero_mas_reciente] reads of an entry of [sftp.listdir_attr]:
    the [SFTPAttributes] of [paramiko], with the modification time the
    server reports. *)
Record SFTPAttributes : Type := {
  filename : string;
  st_size : Z;
  st_mtime : Z
}.

(** The line [fichero_mas_reciente] logs, at level [ERROR] (files.py:67). *)
Inductive aviso_busqueda : Type :=
| ErrorBuscando (remote_dir : string) (e : excepcion).

(** [max(files, key=lambda f: f.st_mtime)] from the second element on:
    [mejor] is the best so far, and a later element takes its place only
    when its key is greater. *)
Fixpoint max_st_mtime (mejor : SFTPAttributes) (files : list SFTPAttributes)
  : SFTPAttributes :=
  match files with
  | [] => mejor
  | f :: files' =>
      if (st_mtime mejor <? st_mtime f)%Z then max_st_mtime f files'
      else max_st_mtime mejor files'
  end.

Section ClienteSFTP.

(** The connection of [paramiko] and its [listdir_attr], which answers the
    entries of a remote directory or raises. *)
Variable SFTPClient : Type.
Variable listdir_attr :
  SFTPClient -> string -> resultado (list SFTPAttributes).

(** [fichero_mas_reciente(sftp, remote_dir)]; the state is the lines the
    module's logger has received. *)
Definition fichero_mas_reciente (sftp : SFTPClient) (remote_dir : string)
  : M (list aviso_busqueda) (option SFTPAttributes) :=
  try_except
    (files <- (fun s => (listdir_attr sftp remote_dir, s)) ;;
     match files with
     | [] => ret None
     | f :: files' => ret (Some (max_st_mtime f files'))
     end)
    (fun e =>
       modify (fun l => l ++ [ErrorBuscando remote_dir e]) ;;
       ret None).

End ClienteSFTP.

End Files.

(* ================================================================= *)
(** ** [main.py] *)

Module Main.
Import Efectos.
Local Open Scope efectos_scope.

(** The keys of [config.json] that [main] reads. *)
Record config : Type := {
  directorio_local : option string;
  directorio_remoto : option string
}.

(** A remote file as the listing adapter describes it; [main] reads the
    keys [nombre] and [size]. *)
Record descriptor : Type := {
  nombre : string;
  size : Z;
  modified_time : Z
}.

(** The local variables of [main] that the loop updates. *)
Record contadores : Type := {
  total_descargados : nat;
  total_bytes_descargados : Z;
  total_eliminados : nat;
  carpetas_con_error : nat
}.

Definition contadores_iniciales : contadores :=
  {| total_descargados := 0; total_bytes_descargados := 0;
     total_eliminados := 0; carpetas_con_error := 0 |}.

Definition sumar_descarga (tamano_bytes : Z) (c : contadores) : contadores :=
  {| total_descargados := total_descargados c + 1;
     total_bytes_descargados := total_bytes_descargados c + tamano_bytes;
     total_eliminados := total_eliminados c;
     carpetas_con_error := carpetas_con_error c |}.

Definition sumar_eliminados (eliminados : nat) (c : contadores) : contadores :=
  {| total_descargados := total_descargados c;
     total_bytes_descargados := total_bytes_descargados c;
     total_eliminados := total_eliminados c + eliminados;
     carpetas_con_error := carpetas_con_error c |}.

Definition sumar_error (c : contadores) : contadores :=
  {| total_descargados := total_descargados c;
     total_bytes_descargados := total_bytes_descargados c;
     total_eliminados := total_eliminados c;
     carpetas_con_error := carpetas_con_error c + 1 |}.

(** [config.get("directorio_remoto", "/")]. *)
Definition raiz_remota (cfg : config) : string :=
  match directorio_remoto cfg with
  | Some r => r
  | None => "/"
  end.

(** Lines 113-115: the remote path that mirrors [carpeta_local]; [None]
    is the [ValueError] of [relpath]. *)
Definition ruta_remota_de (cwd : string) (cfg : config)
           (base_dir carpeta_local : string) : option string :=
  let base_dir_normalizado := PosixPath.normpath base_dir in
  match PosixPath.relpath cwd carpeta_local base_dir_normalizado with
  | Some relativa =>
      Some (PosixPath.replace_backslash
              (PosixPath.join (raiz_remota cfg) relativa))
  | None => None
  end.

(** Lines 125-130: the newest remote file is the first of the listing,
    which the adapter sorts by date, newest first. *)
Definition archivo_mas_reciente (archivos_remotos : list descriptor)
  : option descriptor :=
  match archivos_remotos with
  | [] => None
  | archivo_reciente :: _ => Some archivo_reciente
  end.

Section Orquestador.

(** The two adapters of [module/ssh.py].  The listing answers
    [(ok, archivos)] or raises; the download answers
    [(descargado, ruta_descargada)] or raises, and writes to the local
    file system. *)
Variable Credenciales : Type.
Variable ListarArchivosSFTPconAtributos :
  Credenciales -> string -> resultado (bool * list descriptor).
Variable DescargarArchivoSFTP :
  Credenciales -> string -> string -> string ->
  FS.filesystem -> resultado (bool * string) * FS.filesystem.

Variable credenciales : Credenciales.
Variable cfg : config.

Definition Estado : Type := (mundo * contadores)%type.

Definition registrar (n : nivel) (m : mensaje) : M Estado unit :=
  on_world (log n m).

Definition listar (ruta_remota : string) : M Estado (bool * list descriptor) :=
  on_world (emitir (LlamadaListar ruta_remota)) ;;
  fun s => (ListarArchivosSFTPconAtributos credenciales ruta_remota, s).

Definition descargar (nombre_fichero ruta_remota destino_local : string)
  : M Estado (bool * string) :=
  on_world (emitir (LlamadaDescargar nombre_fichero ruta_remota destino_local)) ;;
  on_world (fun w =>
    let '(r, fs') := DescargarArchivoSFTP credenciales nombre_fichero
                       ruta_remota destino_local (fs w) in
    (r, {| fs := fs'; traza := traza w |})).

Definition eliminar (carpeta_local nombre_fichero : string) : M Estado nat :=
  on_world (emitir (LlamadaEliminarAntiguos carpeta_local nombre_fichero)) ;;
  on_world (Files.eliminar_antiguos carpeta_local nombre_fichero).

Definition construir_ruta_remota (base_dir carpeta_local : string)
  : M Estado string :=
  cwd <- on_world (leer FS.getcwd) ;;
  match ruta_remota_de cwd cfg base_dir carpeta_local with
  | Some ruta_remota => ret ruta_remota
  | None => raise ValueError
  end.

(** Lines 111-160: one turn of the loop over the folders.  A [continue]
    is the end of the turn. *)
Definition procesar_carpeta (base_dir carpeta_local : string) : M Estado unit :=
  try_except
    (ruta_remota <- construir_ruta_remota base_dir carpeta_local ;;
     registrar INFO (ProcesandoCarpeta carpeta_local ruta_remota) ;;
     '(ok, archivos_remotos) <- listar ruta_remota ;;
     if negb ok then
       registrar WARNING (NoSePudoListar ruta_remota) ;;
       modify_locals sumar_error
     else
       match archivo_mas_reciente archivos_remotos with
       | None => registrar INFO (NoHayArchivosRemotos ruta_remota)
       | Some archivo_reciente =>
           let nombre_fichero := nombre archivo_reciente in
           let tamano_bytes := size archivo_reciente in
           registrar INFO (ArchivoMasReciente nombre_fichero tamano_bytes) ;;
           let destino_local := PosixPath.join carpeta_local nombre_fichero in
           existe <- on_world (leer (fun fs => FS.os_path_exists fs destino_local)) ;;
           (if existe : bool then
              registrar INFO (YaExisteLocalmente nombre_fichero)
            else
              '(descargado, ruta_descargada) <-
                 descargar nombre_fichero ruta_remota destino_local ;;
              if descargado : bool then
                modify_locals (sumar_descarga tamano_bytes) ;;
                registrar INFO (DescargadoCorrectamente nombre_fichero ruta_descargada)
              else
                registrar WARNING (NoSePudoDescargar nombre_fichero)) ;;
           eliminados <- eliminar carpeta_local nombre_fichero ;;
           modify_locals (sumar_eliminados eliminados) ;;
           if (0 <? eliminados)%nat then
             registrar INFO (AntiguosEliminados eliminados carpeta_local)
           else
             registrar DEBUG (NoHabiaAntiguos carpeta_local)
       end)
    (fun e =>
       modify_locals sumar_error ;;
       registrar ERROR (ErrorProcesando carpeta_local e)).

(** Lines 110-160: the loop. *)
Definition procesar_carpetas (base_dir : string) (carpetas : list string)
  : M Estado unit :=
  for_each carpetas (procesar_carpeta base_dir).

(** [main], from line 93 on (the configuration is loaded and the logger
    set up).  It answers the counters it logs in its summary, or [None]
    when it returns at line 97.  The duration it logs is left out. *)
Definition main : M mundo (option contadores) :=
  let base_dir := directorio_local cfg in
  match base_dir with
  | None => log ERROR (DirectorioBaseInvalido base_dir) ;; ret None
  | Some base =>
      es_directorio <- leer (fun fs => FS.os_path_isdir fs base) ;;
      if (base =? "") || negb es_directorio then
        log ERROR (DirectorioBaseInvalido base_dir) ;; ret None
      else
        carpetas <- leer (fun fs => Files.listar_subcarpetas fs base) ;;
        log INFO (CarpetasEncontradas (List.length carpetas)) ;;
        with_locals contadores_iniciales
          (procesar_carpetas base carpetas ;;
           c <- get_locals ;;
           on_world
             (log INFO (Resumen (List.length carpetas) (total_descargados c)
                                (total_bytes_descargados c)
                                (total_eliminados c) (carpetas_con_error c))) ;;
           ret (Some c))
  end.

End Orquestador.

End Main.

(* ================================================================= *)
(** ** The vocabulary of the properties *)

Module Propiedades.
Import FS Efectos.

(** A folder qualifies when none of its entries is a directory. *)
Definition sin_subcarpetas (es : list (string * node)) : Prop :=
  forall name child, In (name, child) es -> is_dir (Some child) = false.

(** A stale entry: a regular file whose name is not the one to keep. *)
Definition obsoleto (ultimo_fichero : string) (e : string * node) : bool :=
  is_file (Some (snd e)) && negb (fst e =? ultimo_fichero).

Definition conservado (ultimo_fichero : string) (e : string * node) : bool :=
  negb (obsoleto ultimo_fichero e).

(** The file system with the entries of the folder at [loc] replaced. *)
Definition con_entradas (fs : filesystem) (loc : list string)
           (es : list (string * node)) : filesystem :=
  {| root := update_at (root fs) loc (fun _ => es); cwd := cwd fs |}.

(** The lines the pruner logs for the files it deletes. *)
Definition avisos_eliminados (carpeta : string) (es : list (string * node))
  : list evento :=
  map (fun e => Log INFO (EliminadoFicheroAntiguo (PosixPath.join carpeta (fst e)))) es.

(** The state the loop reaches after a run [seg] of entries, between
    the entries [pre] it has kept and the entries [rest] to come. *)
Definition tras_segmento (carpeta ultimo : string) (loc : list string)
           (w : mundo) (pre seg rest : list (string * node)) : mundo :=
  {| fs := con_entradas (fs w) loc
             (pre ++ filter (conservado ultimo) seg ++ rest);
     traza := traza w
              ++ avisos_eliminados carpeta (filter (obsoleto ultimo) seg) |}.

(** C2 as the specification states it: after a removal fails, the stale
    files that come later in the folder are deleted all the same. *)
Definition poda_continua_tras_fallo : Prop :=
  forall (w : mundo) (carpeta ultimo_fichero : string) (loc : list string)
         (pre post : list (string * node)) (k : string) (sz : Z)
         (k' : string) (sz' : Z),
    wf (fs w) = true ->
    locate (fs w) carpeta = Some loc ->
    lookup (root (fs w)) loc = Some (Dir (pre ++ (k, File sz false) :: post)) ->
    k <> ultimo_fichero ->
    In (k', File sz' true) post ->
    k' <> ultimo_fichero ->
    os_path_exists (fs (snd (Files.eliminar_antiguos carpeta ultimo_fichero w)))
                   (PosixPath.join carpeta k') = false.

(** The events that are log lines; the calls of the adapters and of the
    pruner are the others. *)
Definition es_log (e : evento) : Prop :=
  match e with
  | Log _ _ => True
  | _ => False
  end.


(** The line the pruner logs for a file it has deleted (files.py:89). *)
Definition es_aviso_eliminado (e : evento) : Prop :=
  match e with
  | Log INFO (EliminadoFicheroAntiguo _) => True
  | _ => False
  end.

(** The events of a run that are counted: the calls of the two adapters
    and the lines of the files deleted. *)
Definition es_listado (e : evento) : bool :=
  match e with
  | LlamadaListar _ => true
  | _ => false
  end.

Definition es_llamada_descarga (e : evento) : bool :=
  match e with
  | LlamadaDescargar _ _ _ => true
  | _ => false
  end.

Definition es_llamada_poda (e : evento) : bool :=
  match e with
  | LlamadaEliminarAntiguos _ _ => true
  | _ => false
  end.

Definition es_eliminado (e : evento) : bool :=
  match e with
  | Log INFO (EliminadoFicheroAntiguo _) => true
  | _ => false
  end.

Definition cuenta (p : evento -> bool) (evs : list evento) : nat :=
  List.length (filter p evs).

(** What [k] turns of the loop of [main] make of the counters [c], with
    the events [evs] they add to the trace: one listing call per turn, at
    most one download call per turn, a file counted as downloaded only
    after a download call, a turn counted at most once (as a download or
    as an error), and the deletions counted those the pruner logged. *)
Definition balance (k : nat) (c c' : Main.contadores) (evs : list evento)
  : Prop :=
  cuenta es_listado evs = k
  /\ cuenta es_llamada_descarga evs <= k
  /\ Main.total_descargados c <= Main.total_descargados c'
  /\ Main.total_descargados c'
     <= Main.total_descargados c + cuenta es_llamada_descarga evs
  /\ Main.carpetas_con_error c <= Main.carpetas_con_error c'
  /\ Main.total_descargados c' + Main.carpetas_con_error c'
     <= Main.total_descargados c + Main.carpetas_con_error c + k
  /\ Main.total_eliminados c'
     = Main.total_eliminados c + cuenta es_eliminado evs.

(** The world after [l] is added to the trace. *)
Definition anotado (w : mundo) (l : list evento) : mundo :=
  {| fs := fs w; traza := traza w ++ l |}.

(** A folder in which the pruner has nothing to delete: its first stale
    file, if it has one, cannot be removed. *)
Definition estable (ultimo_fichero : string) (es : list (string * node))
  : Prop :=
  match find (obsoleto ultimo_fichero) es with
  | Some (_, File _ r) => r = false
  | _ => True
  end.


(** The trace of a pass up to the test of line 137. *)
Definition cabecera (carpeta_local ruta_remota : string)
           (archivo_reciente : Main.descriptor) : list evento :=
  [Log INFO (ProcesandoCarpeta carpeta_local ruta_remota);
   LlamadaListar ruta_remota;
   Log INFO (ArchivoMasReciente (Main.nombre archivo_reciente)
                                (Main.size archivo_reciente))].


(** Two file systems with the same directories and working directory. *)
Definition misma_estructura (f f' : filesystem) : Prop :=
  cwd f' = cwd f
  /\ forall l, is_dir (lookup (root f') l) = is_dir (lookup (root f) l).

(** Two folders with the same names and the same regular files. *)
Definition mismas_entradas (x x' : list (string * node)) : Prop :=
  map fst x' = map fst x
  /\ forall k sz r, In (k, File sz r) x' <-> In (k, File sz r) x.

(** Two lists of entries with the same directories under the same names. *)
Definition mismas_carpetas (es es' : list (string * node)) : Prop :=
  forall c,
    is_dir (assoc c es') = is_dir (assoc c es)
    /\ (is_dir (assoc c es) = true -> assoc c es' = assoc c es).

(** What a download that succeeds does to the disk: it adds the regular
    file [destino], of some size, to its folder. *)
Definition escribir (f : filesystem) (destino : string) (tamano : Z)
  : filesystem :=
  match locate f destino with
  | Some loc =>
      match lookup (root f) (removelast loc) with
      | Some (Dir es) =>
          con_entradas f (removelast loc)
                       (es ++ [(last loc "", File tamano true)])
      | _ => f
      end
  | None => f
  end.

(** What the loop needs of the download adapter: called for a path where
    nothing exists, it writes that file or leaves the disk as it is, and
    leaves it as it is when it raises. *)
Definition descarga_bien_portada (Credenciales : Type)
           (Descargar : Credenciales -> string -> string -> string ->
                        filesystem -> resultado (bool * string) * filesystem)
  : Prop :=
  forall cred nombre ruta destino f r f',
    Descargar cred nombre ruta destino f = (r, f') ->
    os_path_exists f destino = false ->
    (f' = f \/ exists tamano, f' = escribir f destino tamano)
    /\ (forall e, r = Raise e -> f' = f).

(** The names the listing adapter reports are file names. *)
Definition nombres_simples (Credenciales : Type)
           (Listar : Credenciales -> string ->
                     resultado (bool * list Main.descriptor)) : Prop :=
  forall cred ruta ok archivos,
    Listar cred ruta = Ok (ok, archivos) ->
    Forall (fun a => plain_name (Main.nombre a) = true) archivos.

(** A folder in which, if it holds the newest remote file, the pruner has
    nothing to delete: what a pass leaves behind. *)
Definition casi_al_dia (Credenciales : Type)
           (Listar : Credenciales -> string ->
                     resultado (bool * list Main.descriptor))
           (credenciales : Credenciales) (cfg : Main.config)
           (base_dir carpeta_local : string) (f : filesystem) : Prop :=
  forall ruta_remota archivo_reciente resto,
    Main.ruta_remota_de (getcwd f) cfg base_dir carpeta_local = Some ruta_remota ->
    Listar credenciales ruta_remota = Ok (true, archivo_reciente :: resto) ->
    exists loc es,
      locate f carpeta_local = Some loc
      /\ lookup (root f) loc = Some (Dir es)
      /\ (In (Main.nombre archivo_reciente) (map fst es) ->
          estable (Main.nombre archivo_reciente) es).

(** What a run keeps of the disk [f0] it started from. *)
Definition conserva (f0 f : filesystem) : Prop :=
  wf f = true /\ misma_estructura f0 f.

(** The line [main] logs after the pruner (lines 153-156). *)
Definition aviso_eliminados (eliminados : nat) (carpeta_local : string) : evento :=
  if (0 <? eliminados)%nat
  then Log INFO (AntiguosEliminados eliminados carpeta_local)
  else Log DEBUG (NoHabiaAntiguos carpeta_local).

(** A component that [normpath] keeps: neither empty, nor [.], nor [..]. *)
Definition propio (c : string) : Prop := c <> "" /\ c <> PosixPath.curdir /\ c <> PosixPath.pardir.

(** What [relpath] makes of a path: the names of its absolute form. *)
Definition abs_comps (cwd path : string) : list string :=
  filter PosixPath.nonempty (PosixPath.split (PosixPath.abspath cwd path)).

(** What [join] puts before a relative path: the first path, with a
    separator unless it is empty or ends with one. *)
Definition prefijo (a : string) : string :=
  if (a =? "") || PosixPath.endswith_sep a then a else (a ++ "/")%string.

(** A component that the loop of [normpath] never stacks. *)
Definition no_skip (c : string) : Prop := c <> "" /\ c <> PosixPath.curdir.

(** The string holds a backslash. *)
Fixpoint has_backslash (s : string) : bool :=
  match s with
  | EmptyString => false
  | String c s' => Ascii.eqb c PosixPath.backslash || has_backslash s'
  end.

End Propiedades.

(* ================================================================= *)
(** ** A small world to run the program on *)

Module Ejemplos.
Import FS Efectos Main Propiedades.

Definition fichero : node := File 10 true.

(** [/local] holds four terminal folders ([c1], [c2], [c3/sub], [c4]);
    [x] of [c4] cannot be removed.  [/home/datos] is an empty folder under
    the working directory [/home]. *)
Definition fs_ejemplo : filesystem :=
  {| root :=
       Dir [("local",
             Dir [("c1", Dir []);
                  ("c2", Dir [("old.csv", fichero)]);
                  ("c3", Dir [("a.csv", fichero); ("b.csv", fichero);
                              ("sub", Dir [])]);
                  ("c4", Dir [("x", File 1 false); ("y", fichero)])]);
            ("home", Dir [("datos", Dir [])])];
     cwd := ["home"] |}.

Definition mundo_ejemplo : mundo := {| fs := fs_ejemplo; traza := [] |}.

(** A disk before a first run: [c1] lacks its newest remote file; [c2]
    holds it among stale ones, of which [fijo.csv] cannot be removed. *)
Definition fs_inicial : filesystem :=
  {| root :=
       Dir [("local",
             Dir [("c1", Dir [("viejo.csv", fichero)]);
                  ("c2", Dir [("older.csv", fichero); ("old.csv", fichero);
                              ("fijo.csv", File 3 false);
                              ("z.csv", fichero)]);
                  ("c3", Dir [("sub", Dir [("z.csv", fichero)])])]);
            ("home", Dir [])];
     cwd := ["home"] |}.

Definition mundo_inicial : mundo := {| fs := fs_inicial; traza := [] |}.

Definition cfg_ejemplo : config :=
  {| directorio_local := Some "/local"; directorio_remoto := Some "/remote" |}.

Definition remoto (n : string) (s t : Z) : descriptor :=
  {| nombre := n; size := s; modified_time := t |}.

(** A remote side: [c1] lists two files, [c2] the file the folder has,
    [c3/sub] nothing, and the listing of [c4] fails. *)
Definition listar_ejemplo (_ : unit) (ruta : string)
  : resultado (bool * list descriptor) :=
  if ruta =? "/remote/c1" then
    Ok (true, [remoto "b.csv" 100 100; remoto "a.csv" 5 50])
  else if ruta =? "/remote/c2" then Ok (true, [remoto "old.csv" 7 1])
  else if ruta =? "/remote/c3/sub" then Ok (true, [])
  else Ok (false, []).

(** A download that always fails, and leaves the disk as it is. *)
Definition descarga_fallida (_ : unit) (nombre ruta destino : string)
           (f : filesystem) : resultado (bool * string) * filesystem :=
  (Ok (false, destino), f).

(** A download that writes the file at [destino_local]. *)
Definition descarga_correcta (_ : unit) (nombre ruta destino : string)
           (f : filesystem) : resultado (bool * string) * filesystem :=
  (Ok (true, destino), escribir f destino 100).



(** A remote directory as [listdir_attr] reports it: [b.csv] and [c.csv]
    share the latest date; [caido] cannot be listed. *)
Definition listdir_attr_ejemplo (_ : unit) (remote_dir : string)
  : resultado (list Files.SFTPAttributes) :=
  if remote_dir =? "/remote/c1" then
    Ok [{| Files.filename := "a.csv"; Files.st_size := 5; Files.st_mtime := 50 |};
        {| Files.filename := "b.csv"; Files.st_size := 100; Files.st_mtime := 100 |};
        {| Files.filename := "c.csv"; Files.st_size := 7; Files.st_mtime := 100 |}]
  else if remote_dir =? "/remote/c2" then
    Ok [{| Files.filename := "old.csv"; Files.st_size := 7; Files.st_mtime := 9 |};
        {| Files.filename := "older.csv"; Files.st_size := 7; Files.st_mtime := 1 |}]
  else if remote_dir =? "/remote/caido" then Raise (ErrorExterno "timeout")
  else Ok [].

(** What a first run with [listar_ejemplo] and [descarga_correcta] leaves
    of [mundo_inicial]. *)
Definition mundo_tras_primera : mundo :=
  Eval vm_compute in
    snd (main unit listar_ejemplo descarga_correcta tt cfg_ejemplo mundo_inicial).

End Ejemplos.

(* ================================================================= *)
(** ** Facts about paths *)

Module PathFacts.
Import PosixPath.

Lemma append_assoc (a b c : string) :
  ((a ++ b) ++ c)%string = (a ++ (b ++ c))%string.
Proof. induction a as [|x a IH]; simpl; [reflexivity|now rewrite IH]. Qed.

Lemma append_empty_r (a : string) : (a ++ "")%string = a.
Proof. induction a as [|x a IH]; simpl; [reflexivity|now rewrite IH]. Qed.

Lemma split_not_nil (s : string) : split s <> [].
Proof.
  destruct s as [|c s]; simpl; [discriminate|].
  destruct (is_sep c); [discriminate|].
  destruct (split s); discriminate.
Qed.

(** Splitting distributes over a separator. *)
Lemma split_app_sep (a b : string) :
  split (a ++ String sep b)%string = split a ++ split b.
Proof.
  induction a as [|c a IH]; simpl.
  - reflexivity.
  - destruct (is_sep c).
    + now rewrite IH.
    + rewrite IH. destruct (split a) as [|x xs] eqn:E.
      * now apply split_not_nil in E.
      * reflexivity.
Qed.

Lemma split_app_last (a b : string) :
  FS.has_sep b = false ->
  split (a ++ b)%string = removelast (split a) ++ [(last (split a) "" ++ b)%string].
Proof.
  intros Hb. induction a as [|c a IH]; simpl.
  - induction b as [|d b IHb]; simpl in *; [reflexivity|].
    apply orb_false_iff in Hb as [Hd Hb].
    rewrite Hd, (IHb Hb). reflexivity.
  - destruct (is_sep c).
    + rewrite IH. destruct (split a) as [|x xs] eqn:E.
      * now apply split_not_nil in E.
      * reflexivity.
    + rewrite IH. destruct (split a) as [|x xs] eqn:E.
      * now apply split_not_nil in E.
      * destruct xs; reflexivity.
Qed.

Lemma split_plain (c : string) : FS.has_sep c = false -> split c = [c].
Proof. intros H. exact (split_app_last "" c H). Qed.

Lemma endswith_sep_inv (a : string) :
  endswith_sep a = true -> exists a0, a = (a0 ++ String sep "")%string.
Proof.
  induction a as [|c a IH]; simpl; [discriminate|].
  destruct a as [|d a'].
  - intros H. apply Ascii.eqb_eq in H. subst c. now exists "".
  - intros H. destruct (IH H) as [a0 E]. exists (String c a0).
    simpl. now rewrite <- E.
Qed.

Lemma startswith_sep_app (a b : string) :
  a <> "" -> startswith_sep (a ++ b)%string = startswith_sep a.
Proof. destruct a; [congruence|reflexivity]. Qed.

Lemma plain_name_inv (c : string) :
  FS.plain_name c = true ->
  c <> "" /\ c <> curdir /\ c <> pardir /\ FS.has_sep c = false.
Proof.
  unfold FS.plain_name. intros H.
  repeat (apply andb_true_iff in H as [H ?]).
  repeat split; try (apply String.eqb_neq, negb_true_iff; assumption).
  now apply negb_true_iff.
Qed.

Lemma plain_not_abs (c : string) :
  FS.plain_name c = true -> startswith_sep c = false.
Proof.
  intros H. apply plain_name_inv in H as (_ & _ & _ & H).
  destruct c; simpl in *; [reflexivity|].
  now apply orb_false_iff in H as [H _].
Qed.

(** The components of [join a c], for a file name [c]. *)
Lemma split_join (a c : string) :
  a <> "" -> FS.plain_name c = true ->
  exists pre, split (join a c) = pre ++ [c]
              /\ (split a = pre ++ [""] \/ split a = pre).
Proof.
  intros Ha Hc. unfold join. rewrite (plain_not_abs c Hc).
  apply plain_name_inv in Hc as (_ & _ & _ & Hs).
  apply String.eqb_neq in Ha. rewrite Ha. simpl.
  destruct (endswith_sep a) eqn:E.
  - apply endswith_sep_inv in E as [a0 ->].
    exists (split a0). split.
    + rewrite append_assoc. simpl.
      rewrite split_app_sep, (split_plain c Hs). reflexivity.
    + left. now rewrite split_app_sep.
  - exists (split a). split; [|now right].
    change (a ++ "/" ++ c)%string with (a ++ String sep c)%string.
    now rewrite split_app_sep, (split_plain c Hs).
Qed.

Lemma isabs_join (a c : string) :
  a <> "" -> FS.plain_name c = true -> isabs (join a c) = isabs a.
Proof.
  intros Ha Hc. unfold isabs, join. rewrite (plain_not_abs c Hc).
  destruct ((a =? "") || endswith_sep a); now apply startswith_sep_app.
Qed.

Lemma join_not_empty (a c : string) : a <> "" -> join a c <> "" \/ startswith_sep c = true.
Proof.
  intros Ha. unfold join. destruct (startswith_sep c); [now right|left].
  destruct ((a =? "") || endswith_sep a); destruct a; simpl; congruence.
Qed.

Lemma join_many_not_empty (a : string) (cs : list string) :
  a <> "" -> Forall (fun c => FS.plain_name c = true) cs ->
  join_many a cs <> "" /\ startswith_sep (join_many a cs) = startswith_sep a.
Proof.
  revert a. induction cs as [|c cs IH]; intros a Ha Hcs; [now split|].
  inversion Hcs as [|? ? Hc Hcs']; subst. cbn [join_many fold_left].
  destruct (join_not_empty a c Ha) as [Hj|Hj];
    [|now rewrite (plain_not_abs c Hc) in Hj].
  destruct (IH (join a c) Hj Hcs') as [H1 H2]. split; [exact H1|].
  unfold join_many in H2. rewrite H2. apply (isabs_join a c Ha Hc).
Qed.

Lemma split_concat (cs : list string) :
  cs <> [] -> Forall (fun c => FS.has_sep c = false) cs ->
  split (concat "/" cs) = cs.
Proof.
  induction cs as [|c cs IH]; [congruence|]. intros _ H.
  inversion H as [|? ? Hc Hcs]; subst.
  destruct cs as [|c' cs].
  - simpl. now apply split_plain.
  - change (concat "/" (c :: c' :: cs))
      with (c ++ String sep (concat "/" (c' :: cs)))%string.
    rewrite split_app_sep, (split_plain c Hc), IH by (assumption || discriminate).
    reflexivity.
Qed.

Lemma endswith_sep_app (a b : string) :
  b <> "" -> endswith_sep (a ++ b)%string = endswith_sep b.
Proof.
  intros Hb. induction a as [|c a IH]; [reflexivity|].
  simpl. destruct (a ++ b)%string eqn:E; [|exact IH].
  destruct a; simpl in E; [congruence|discriminate].
Qed.

Lemma endswith_sep_no_sep (c : string) :
  FS.has_sep c = false -> endswith_sep c = false.
Proof.
  induction c as [|a c IH]; [reflexivity|]. simpl.
  intros H. apply orb_false_iff in H as [Ha Hc].
  destruct c; [exact Ha|now apply IH].
Qed.

Lemma join_many_concat (cs : list string) :
  forall a,
    a <> "" -> endswith_sep a = false ->
    Forall (fun c => FS.plain_name c = true) cs ->
    join_many a cs = concat "/" (a :: cs).
Proof.
  induction cs as [|c cs IH]; intros a Ha He Hcs; [reflexivity|].
  inversion Hcs as [|? ? Hc Hcs']; subst.
  pose proof (plain_name_inv c Hc) as (Hc1 & _ & _ & Hc4).
  cbn [join_many fold_left]. fold (join_many (join a c) cs).
  assert (Hj : join a c = (a ++ "/" ++ c)%string).
  { unfold join. rewrite (plain_not_abs c Hc), He.
    apply String.eqb_neq in Ha. now rewrite Ha. }
  rewrite Hj, IH; try assumption.
  - destruct cs as [|c' cs]; [reflexivity|].
    cbn [concat]. now rewrite !append_assoc.
  - destruct a; [congruence|discriminate].
  - rewrite endswith_sep_app; [|destruct c; [congruence|discriminate]].
    change ("/" ++ c)%string with (String sep c).
    destruct c as [|x c]; [congruence|].
    change (endswith_sep (String sep (String x c)))
      with (endswith_sep (String x c)).
    now apply endswith_sep_no_sep.
Qed.


Lemma append_inj_l (a x y : string) : (a ++ x)%string = (a ++ y)%string -> x = y.
Proof. induction a as [|c a IH]; simpl; [easy|]. intros [= H]. now apply IH. Qed.

(** The path [os.walk] gives to the folder reached by the names [cs]: the
    root, a slash unless the root ends with one, the names joined by
    slashes. *)
Lemma join_many_string (base : string) (cs : list string) :
  base <> "" -> Forall (fun c => FS.plain_name c = true) cs -> cs <> [] ->
  join_many base cs
  = (base ++ (if endswith_sep base then "" else "/") ++ concat "/" cs)%string.
Proof.
  intros Hb Hcs Hne. destruct (endswith_sep base) eqn:E.
  - destruct cs as [|c cs]; [congruence|].
    inversion Hcs as [|? ? Hc Hcs']; subst.
    pose proof (plain_name_inv c Hc) as (Hc1 & _ & _ & Hc4).
    cbn [join_many fold_left]. fold (join_many (join base c) cs).
    assert (Hj : join base c = (base ++ c)%string).
    { unfold join. rewrite (plain_not_abs c Hc), E. now rewrite orb_true_r. }
    rewrite Hj, join_many_concat; try assumption.
    + destruct cs as [|c' cs]; [reflexivity|].
      change (concat "/" ((base ++ c)%string :: c' :: cs))
        with ((base ++ c) ++ "/" ++ concat "/" (c' :: cs))%string.
      change (concat "/" (c :: c' :: cs))
        with (c ++ "/" ++ concat "/" (c' :: cs))%string.
      now rewrite append_assoc.
    + destruct base; [congruence|discriminate].
    + rewrite endswith_sep_app by assumption. now apply endswith_sep_no_sep.
  - rewrite join_many_concat by assumption.
    destruct cs as [|c cs]; [congruence|]. reflexivity.
Qed.

Lemma concat_not_empty (cs : list string) :
  Forall (fun c => FS.plain_name c = true) cs -> cs <> [] ->
  concat "/" cs <> "".
Proof.
  intros Hcs Hne. destruct cs as [|c cs]; [congruence|].
  inversion Hcs as [|? ? Hc _]; subst.
  apply plain_name_inv in Hc as (Hc & _).
  destruct c; [congruence|]. destruct cs; discriminate.
Qed.

(** Different folders get different paths. *)
Lemma join_many_inj (base : string) (cs cs' : list string) :
  base <> "" ->
  Forall (fun c => FS.plain_name c = true) cs ->
  Forall (fun c => FS.plain_name c = true) cs' ->
  join_many base cs = join_many base cs' -> cs = cs'.
Proof.
  intros Hb Hcs Hcs' E.
  assert (Hsep : forall l, Forall (fun c => FS.plain_name c = true) l ->
                           Forall (fun c => FS.has_sep c = false) l).
  { intros l Hl. eapply Forall_impl; [|exact Hl].
    intros c Hc. now apply plain_name_inv in Hc. }
  assert (Hgrow : forall l, Forall (fun c => FS.plain_name c = true) l ->
                            l <> [] -> join_many base l <> base).
  { intros l Hl Hne. rewrite (join_many_string base l Hb Hl Hne).
    intros H.
    assert (H' : (base ++ (if endswith_sep base then "" else "/")
                       ++ concat "/" l)%string = (base ++ "")%string)
      by now rewrite append_empty_r.
    apply append_inj_l in H'. clear H. rename H' into H.
    pose proof (concat_not_empty l Hl Hne) as Hc.
    destruct (endswith_sep base); [now apply Hc|discriminate]. }
  destruct cs as [|c cs], cs' as [|c' cs']; try reflexivity.
  - exfalso. apply (Hgrow (c' :: cs') Hcs'); [discriminate|]. now rewrite <- E.
  - exfalso. apply (Hgrow (c :: cs) Hcs); [discriminate|]. exact E.
  - rewrite !join_many_string in E by (assumption || discriminate).
    do 2 apply append_inj_l in E.
    rewrite <- (split_concat (c :: cs)), <- (split_concat (c' :: cs'))
      by (discriminate || now apply Hsep).
    now rewrite E.
Qed.

End PathFacts.

(* ================================================================= *)
(** ** Facts about the file system *)

Module FSFacts.
Import FS.

Section NodeInduction.
Variable P : node -> Prop.
Hypothesis HFile : forall s r, P (File s r).
Hypothesis HOther : P Other.
Hypothesis HDir : forall es, Forall (fun e => P (snd e)) es -> P (Dir es).

Fixpoint node_ind (n : node) : P n :=
  match n with
  | File s r => HFile s r
  | Other => HOther
  | Dir es =>
      HDir es
        ((fix children (l : list (string * node))
            : Forall (fun e => P (snd e)) l :=
            match l with
            | [] => Forall_nil _
            | (k, c) :: l' =>
                @Forall_cons _ (fun e => P (snd e)) (k, c) l'
                             (node_ind c) (children l')
            end) es)
  end.
End NodeInduction.

Lemma lookup_app (n : node) (l1 l2 : list string) :
  lookup n (l1 ++ l2) =
  match lookup n l1 with
  | Some n' => lookup n' l2
  | None => None
  end.
Proof.
  revert n. induction l1 as [|c l1 IH]; intros n; simpl; [reflexivity|].
  destruct n; try reflexivity.
  destruct (assoc c entries); [apply IH|reflexivity].
Qed.

Lemma assoc_In (name : string) (es : list (string * node)) (n : node) :
  assoc name es = Some n -> In (name, n) es.
Proof.
  induction es as [|[k m] es IH]; simpl; [discriminate|].
  destruct (k =? name) eqn:E.
  - apply String.eqb_eq in E. intros [= ->]. left. now subst.
  - intros H. right. now apply IH.
Qed.

Lemma mem_In (x : string) (l : list string) : mem x l = true <-> In x l.
Proof.
  induction l as [|y l IH]; simpl; [split; [discriminate|tauto]|].
  rewrite orb_true_iff, IH, String.eqb_eq. tauto.
Qed.

Lemma nodupb_NoDup (l : list string) : nodupb l = true <-> NoDup l.
Proof.
  induction l as [|x l IH]; simpl.
  - split; [constructor|reflexivity].
  - rewrite andb_true_iff, negb_true_iff, IH. split.
    + intros [H1 H2]. constructor; [|assumption].
      intros HIn. apply mem_In in HIn. congruence.
    + intros H. inversion H; subst. split; [|assumption].
      destruct (mem x l) eqn:E; [|reflexivity].
      apply mem_In in E. contradiction.
Qed.

Lemma In_assoc (name : string) (es : list (string * node)) (n : node) :
  NoDup (map fst es) -> In (name, n) es -> assoc name es = Some n.
Proof.
  induction es as [|[k m] es IH]; simpl; [tauto|].
  intros HN [H|H]; inversion HN; subst.
  - injection H as -> ->. now rewrite String.eqb_refl.
  - destruct (k =? name) eqn:E.
    + apply String.eqb_eq in E. subst k.
      exfalso. apply H2. now apply (in_map fst) in H.
    + now apply IH.
Qed.

Lemma In_fst_assoc (k : string) (es : list (string * node)) :
  In k (map fst es) -> exists nd, assoc k es = Some nd.
Proof.
  induction es as [|[k' m] es IH]; simpl; [tauto|].
  intros [->|H].
  - rewrite String.eqb_refl. now exists m.
  - destruct (k' =? k); [now exists m|now apply IH].
Qed.

(** What [wf_node] says of a directory. *)
Lemma wf_node_Dir (es : list (string * node)) :
  wf_node (Dir es) = true <->
  Forall (fun k => plain_name k = true) (map fst es)
  /\ NoDup (map fst es)
  /\ Forall (fun e => wf_node (snd e) = true) es.
Proof.
  simpl. rewrite !andb_true_iff, forallb_forall, <- Forall_forall, nodupb_NoDup.
  assert (E : (fix wf_children (l : list (string * node)) : bool :=
                 match l with
                 | [] => true
                 | (_, child) :: l' => wf_node child && wf_children l'
                 end) es = true
              <-> Forall (fun e => wf_node (snd e) = true) es).
  { induction es as [|[k c] es IH].
    - split; [constructor|reflexivity].
    - rewrite andb_true_iff, IH. split.
      + intros [H1 H2]. now constructor.
      + intros H. inversion H; subst. now split. }
  rewrite E. tauto.
Qed.

Lemma wf_node_child (es : list (string * node)) (name : string) (n : node) :
  wf_node (Dir es) = true -> assoc name es = Some n ->
  wf_node n = true /\ plain_name name = true.
Proof.
  intros Hwf Ha. apply wf_node_Dir in Hwf as (Hp & _ & Hc).
  apply assoc_In in Ha. split.
  - rewrite Forall_forall in Hc. apply (Hc _ Ha).
  - rewrite Forall_forall in Hp. apply Hp. now apply (in_map fst) in Ha.
Qed.

Lemma wf_node_lookup (n n' : node) (l : list string) :
  wf_node n = true -> lookup n l = Some n' -> wf_node n' = true.
Proof.
  revert n. induction l as [|c l IH]; intros n Hwf; simpl.
  - now intros [= <-].
  - destruct n as [| es |]; try discriminate.
    destruct (assoc c es) as [m|] eqn:E; [|discriminate].
    apply IH. now apply (wf_node_child es c m).
Qed.

(** *** Resolving [join path name] *)

Lemma fold_step_loc_None (r : node) (cs : list string) :
  fold_left (step_loc r) cs None = None.
Proof. induction cs; simpl; auto. Qed.

Lemma step_loc_empty (r : node) (cur : option (list string)) :
  step_loc r cur "" =
  match cur with
  | Some l => if is_dir (lookup r l) then Some l else None
  | None => None
  end.
Proof. destruct cur; reflexivity. Qed.

Lemma step_loc_plain (r : node) (cur : option (list string)) (c : string) :
  plain_name c = true ->
  step_loc r cur c =
  match cur with
  | Some l => if is_dir (lookup r l) then Some (l ++ [c]) else None
  | None => None
  end.
Proof.
  intros Hc. apply PathFacts.plain_name_inv in Hc as (H1 & H2 & H3 & _).
  apply String.eqb_neq in H1, H2, H3.
  destruct cur as [l|]; simpl; [|reflexivity].
  now rewrite H1, H2, H3.
Qed.

Lemma locate_join (fs : filesystem) (path c : string) :
  path <> "" -> plain_name c = true ->
  locate fs (PosixPath.join path c) =
  match locate fs path with
  | Some l => if is_dir (lookup (root fs) l) then Some (l ++ [c]) else None
  | None => None
  end.
Proof.
  intros Hp Hc. unfold locate.
  destruct (PathFacts.join_not_empty path c Hp) as [Hj|Hj];
    [|now rewrite (PathFacts.plain_not_abs c Hc) in Hj].
  apply String.eqb_neq in Hj. rewrite Hj.
  pose proof Hp as Hp'. apply String.eqb_neq in Hp'. rewrite Hp'.
  rewrite (PathFacts.isabs_join path c Hp Hc).
  destruct (PathFacts.split_join path c Hp Hc) as (pre & -> & [-> | ->]).
  - rewrite !fold_left_app. simpl.
    rewrite step_loc_empty, (step_loc_plain _ _ _ Hc).
    destruct (fold_left _ pre _) as [l|]; [|reflexivity].
    destruct (is_dir (lookup (root fs) l)) eqn:E; [now rewrite E|reflexivity].
  - rewrite fold_left_app. simpl. now rewrite (step_loc_plain _ _ _ Hc).
Qed.

Lemma lookup_snoc (n : node) (l : list string) (c : string) :
  lookup n (l ++ [c]) =
  match lookup n l with
  | Some (Dir es) => assoc c es
  | _ => None
  end.
Proof.
  rewrite lookup_app. destruct (lookup n l) as [[| es |]|]; simpl; try reflexivity.
  destruct (assoc c es); reflexivity.
Qed.

(** [stat] of a name inside a folder reads the folder's entry. *)
Lemma stat_join (fs : filesystem) (path c : string) :
  path <> "" -> plain_name c = true ->
  stat fs (PosixPath.join path c) =
  match stat fs path with
  | Some (Dir es) => assoc c es
  | _ => None
  end.
Proof.
  intros Hp Hc. unfold stat. rewrite (locate_join fs path c Hp Hc).
  destruct (locate fs path) as [l|]; [|reflexivity].
  destruct (lookup (root fs) l) as [[| es |]|] eqn:E; simpl; try reflexivity.
  now rewrite lookup_snoc, E.
Qed.

End FSFacts.

(* ================================================================= *)
(** ** Folder discovery *)

Module DiscoveryFacts.
Import FS FSFacts Propiedades.

Lemma dirnames_nil (es : list (string * node)) :
  dirnames es = [] <-> sin_subcarpetas es.
Proof.
  unfold dirnames, sin_subcarpetas.
  induction es as [|[k c] es IH].
  - split; [intros _ ? ? []|reflexivity].
  - cbn [filter snd]. destruct (is_dir (Some c)) eqn:E.
    + split; [intros H; discriminate H|].
      intros H. specialize (H k c (or_introl eq_refl)). congruence.
    + rewrite IH. split.
      * intros H name child [[= <- <-]|HIn]; [assumption|eauto].
      * intros H name child HIn. apply (H name child). now right.
Qed.

Lemma walk_Dir (top : string) (es : list (string * node)) :
  walk top (Dir es) =
  (top, dirnames es, filenames es)
    :: flat_map (fun e => walk (PosixPath.join top (fst e)) (snd e)) es.
Proof.
  simpl. f_equal.
  induction es as [|[k c] es IH]; simpl; [reflexivity|].
  now rewrite IH.
Qed.

(** The triples of [os.walk] are those of the directories of the tree,
    each under the path that joins the names leading to it. *)
Lemma In_walk (n : node) :
  forall top t,
    wf_node n = true ->
    In t (walk top n) <->
    exists cs es,
      lookup n cs = Some (Dir es)
      /\ t = (PosixPath.join_many top cs, dirnames es, filenames es).
Proof.
  induction n as [sz r | | es IH] using node_ind; intros top t Hwf.
  - simpl. split; [tauto|].
    intros (cs & es & H & _). destruct cs; discriminate.
  - simpl. split; [tauto|].
    intros (cs & es & H & _). destruct cs; discriminate.
  - rewrite walk_Dir. simpl In. rewrite in_flat_map.
    pose proof Hwf as Hwf'.
    apply wf_node_Dir in Hwf' as (_ & Hnd & Hch).
    rewrite Forall_forall in IH, Hch. split.
    + intros [<- | ([k c] & HIn & Ht)].
      * now exists [], es.
      * simpl in Ht. apply (IH _ HIn) in Ht; [|apply (Hch _ HIn)].
        destruct Ht as (cs & es' & Hl & ->).
        exists (k :: cs), es'. simpl.
        now rewrite (In_assoc k es c Hnd HIn).
    + intros (cs & es' & Hl & ->). destruct cs as [|k cs]; simpl in Hl.
      * injection Hl as <-. now left.
      * right. destruct (assoc k es) as [c|] eqn:E; [|discriminate].
        apply assoc_In in E. exists (k, c). split; [assumption|].
        simpl. apply (IH _ E); [apply (Hch _ E)|]. now exists cs, es'.
Qed.

Lemma wf_stat (fs : filesystem) (path : string) (n : node) :
  wf fs = true -> stat fs path = Some n -> wf_node n = true.
Proof.
  unfold wf, stat. intros H Hs. apply andb_true_iff in H as [H _].
  destruct (locate fs path); [|discriminate].
  now apply (wf_node_lookup (root fs) n l).
Qed.

Lemma lookup_plain (n m : node) (cs : list string) :
  wf_node n = true -> lookup n cs = Some m ->
  Forall (fun c => plain_name c = true) cs.
Proof.
  revert n. induction cs as [|c cs IH]; intros n Hwf Hl; [constructor|].
  simpl in Hl. destruct n as [| es |]; try discriminate.
  destruct (assoc c es) as [n'|] eqn:E; [|discriminate].
  destruct (wf_node_child es c n' Hwf E) as [Hwf' Hc].
  constructor; [exact Hc|]. now apply (IH n').
Qed.

Lemma In_listar_subcarpetas (fs : filesystem) (base_path p : string) :
  wf fs = true ->
  In p (Files.listar_subcarpetas fs base_path) <->
  exists n cs es,
    stat fs base_path = Some n
    /\ lookup n cs = Some (Dir es)
    /\ sin_subcarpetas es
    /\ p = PosixPath.join_many base_path cs.
Proof.
  intros Hwf. unfold Files.listar_subcarpetas, os_walk.
  rewrite in_map_iff. split.
  - intros ([[top ds] fls] & <- & HIn). apply filter_In in HIn as [HIn Hd].
    simpl in Hd. destruct (stat fs base_path) as [n|] eqn:E; [|destruct HIn].
    apply In_walk in HIn; [|now apply (wf_stat fs base_path)].
    destruct HIn as (cs & es & Hl & [= -> -> ->]).
    exists n, cs, es. repeat split; try assumption.
    apply dirnames_nil. now destruct (dirnames es).
  - intros (n & cs & es & Hst & Hl & Hs & ->). rewrite Hst.
    exists (PosixPath.join_many base_path cs, dirnames es, filenames es).
    split; [reflexivity|]. apply filter_In. split.
    + apply In_walk; [now apply (wf_stat fs base_path)|]. now exists cs, es.
    + simpl. apply dirnames_nil in Hs. now rewrite Hs.
Qed.

(** C8.  Folder discovery returns exactly the directories of the tree
    under [base_path] that have no child directory: a path is in the result
    if and only if it is the path [os.walk] gives to a directory of the
    subtree ([base_path] itself for the empty list of names) none of whose
    entries is a directory, be it empty or holding only files; and the path
    of a directory that has a child directory is not in the result. *)
Theorem listar_subcarpetas_terminales
        (fs : filesystem) (base_path : string) :
  wf fs = true ->
  (forall p,
      In p (Files.listar_subcarpetas fs base_path) <->
      exists n cs es,
        stat fs base_path = Some n
        /\ lookup n cs = Some (Dir es)
        /\ sin_subcarpetas es
        /\ p = PosixPath.join_many base_path cs)
  /\ (forall n cs es,
         stat fs base_path = Some n ->
         lookup n cs = Some (Dir es) ->
         ~ sin_subcarpetas es ->
         ~ In (PosixPath.join_many base_path cs)
              (Files.listar_subcarpetas fs base_path)).
Proof.
  intros Hwf. split.
  - intros p. now apply In_listar_subcarpetas.
  - intros n cs es Hst Hl Hno HIn.
    apply (In_listar_subcarpetas fs base_path _ Hwf) in HIn
      as (n' & cs' & es' & Hst' & Hl' & Hs' & E).
    rewrite Hst in Hst'. injection Hst' as <-.
    pose proof (wf_stat fs base_path n Hwf Hst) as Hn.
    assert (Hb : base_path <> "").
    { intros ->. unfold stat, locate in Hst. discriminate. }
    apply PathFacts.join_many_inj in E;
      [|assumption|now apply (lookup_plain n (Dir es))
                  |now apply (lookup_plain n (Dir es'))].
    subst cs'. rewrite Hl in Hl'. injection Hl' as <-. now apply Hno.
Qed.

(** Under an absolute root every path of the result is absolute: the paths
    are those of [os.walk], which start with the root it was given. *)
Lemma listar_subcarpetas_raiz_absoluta (fs : filesystem) (base_path p : string) :
  wf fs = true -> PosixPath.isabs base_path = true ->
  In p (Files.listar_subcarpetas fs base_path) -> PosixPath.isabs p = true.
Proof.
  intros Hwf Habs HIn.
  apply (In_listar_subcarpetas fs base_path p Hwf) in HIn
    as (n & cs & es & Hst & Hl & _ & ->).
  assert (Hne : base_path <> "") by (intros ->; discriminate).
  pose proof (lookup_plain n _ cs (wf_stat fs base_path n Hwf Hst) Hl) as Hcs.
  destruct (PathFacts.join_many_not_empty base_path cs Hne Hcs) as [_ H].
  unfold PosixPath.isabs. now rewrite H.
Qed.

Lemma listar_subcarpetas_terminales_witness :
  In "/local/c3/sub" (Files.listar_subcarpetas Ejemplos.fs_ejemplo "/local")
  /\ ~ In "/local/c3" (Files.listar_subcarpetas Ejemplos.fs_ejemplo "/local").
Proof.
  destruct (listar_subcarpetas_terminales Ejemplos.fs_ejemplo "/local" eq_refl)
    as [Hsi Hno].
  split.
  - apply Hsi.
    exists (Dir [("c1", Dir []);
                 ("c2", Dir [("old.csv", Ejemplos.fichero)]);
                 ("c3", Dir [("a.csv", Ejemplos.fichero);
                             ("b.csv", Ejemplos.fichero); ("sub", Dir [])]);
                 ("c4", Dir [("x", File 1 false); ("y", Ejemplos.fichero)])]),
           ["c3"; "sub"], [].
    repeat split. intros name child [].
  - apply (Hno _ ["c3"] _ eq_refl eq_refl).
    intros H. specialize (H "sub" (Dir []) (or_intror (or_intror (or_introl eq_refl)))).
    discriminate H.
Defined.

(** C9 on a relative root: the code hands back the paths of [os.walk] as
    they are, so under the root [datos] it answers the relative path
    [datos], although its docstring promises absolute paths. *)
Theorem listar_subcarpetas_ruta_relativa :
  Files.listar_subcarpetas Ejemplos.fs_ejemplo "datos" = ["datos"]
  /\ forallb PosixPath.isabs
             (Files.listar_subcarpetas Ejemplos.fs_ejemplo "datos") = false.
Proof. split; reflexivity. Qed.

End DiscoveryFacts.

(* ================================================================= *)
(** ** Deleting the old files *)

Module PruneFacts.
Import FS FSFacts Efectos Propiedades.

(** *** Updating the tree *)

Lemma assoc_update_entry (c k : string) (g : node -> node)
      (es : list (string * node)) :
  assoc k (update_entry c g es) =
  if k =? c then option_map g (assoc k es) else assoc k es.
Proof.
  induction es as [|[k' m] es IH]; simpl.
  - now destruct (k =? c).
  - destruct (k' =? c) eqn:E1; simpl; destruct (k' =? k) eqn:E2.
    + apply String.eqb_eq in E1, E2. subst.
      now rewrite String.eqb_refl.
    + apply String.eqb_eq in E1. subst k'.
      rewrite String.eqb_sym, E2. reflexivity.
    + apply String.eqb_eq in E2. subst k'. now rewrite E1.
    + apply IH.
Qed.

Lemma update_entry_twice (c : string) (g1 g2 : node -> node)
      (es : list (string * node)) :
  update_entry c g2 (update_entry c g1 es) =
  update_entry c (fun m => g2 (g1 m)) es.
Proof.
  induction es as [|[k m] es IH]; simpl; [reflexivity|].
  destruct (k =? c) eqn:E; simpl; rewrite E; [reflexivity|now rewrite IH].
Qed.

Lemma update_entry_ext (c : string) (g1 g2 : node -> node)
      (es : list (string * node)) :
  (forall m, assoc c es = Some m -> g1 m = g2 m) ->
  update_entry c g1 es = update_entry c g2 es.
Proof.
  induction es as [|[k m] es IH]; simpl; [reflexivity|].
  destruct (k =? c) eqn:E; intros H.
  - now rewrite (H m eq_refl).
  - now rewrite (IH H).
Qed.

Lemma update_entry_id (c : string) (g : node -> node)
      (es : list (string * node)) :
  (forall m, assoc c es = Some m -> g m = m) ->
  update_entry c g es = es.
Proof.
  induction es as [|[k m] es IH]; simpl; [reflexivity|].
  destruct (k =? c) eqn:E; intros H.
  - now rewrite (H m eq_refl).
  - now rewrite (IH H).
Qed.

Lemma update_at_cons (es : list (string * node)) (c : string)
      (loc : list string) (f : list (string * node) -> list (string * node)) :
  update_at (Dir es) (c :: loc) f =
  Dir (update_entry c (fun m => update_at m loc f) es).
Proof. reflexivity. Qed.

Lemma lookup_update_at (r : node) (loc : list string)
      (f : list (string * node) -> list (string * node))
      (es : list (string * node)) :
  lookup r loc = Some (Dir es) ->
  lookup (update_at r loc f) loc = Some (Dir (f es)).
Proof.
  revert r. induction loc as [|c loc IH]; intros r; simpl.
  - now intros [= ->].
  - destruct r as [| es0 |]; try discriminate.
    rewrite update_at_cons. simpl.
    rewrite assoc_update_entry, String.eqb_refl.
    destruct (assoc c es0) as [m|]; [|discriminate]. simpl. apply IH.
Qed.

Lemma update_at_update_at (r : node) (loc : list string)
      (f g : list (string * node) -> list (string * node)) :
  update_at (update_at r loc f) loc g = update_at r loc (fun es => g (f es)).
Proof.
  revert r. induction loc as [|c loc IH]; intros r; simpl.
  - now destruct r.
  - destruct r as [| es |]; try reflexivity.
    rewrite !update_at_cons, update_entry_twice.
    f_equal. apply update_entry_ext. intros m _. apply IH.
Qed.

(** Writing back the entries a folder already has changes nothing. *)
Lemma update_at_same (r : node) (loc : list string)
      (es : list (string * node)) :
  lookup r loc = Some (Dir es) -> update_at r loc (fun _ => es) = r.
Proof.
  revert r. induction loc as [|c loc IH]; intros r; simpl.
  - now intros [= ->].
  - destruct r as [| es0 |]; try discriminate.
    rewrite update_at_cons. intros H. f_equal.
    apply update_entry_id. intros m Hm. rewrite Hm in H. now apply IH.
Qed.

Lemma assoc_remove_entry (k c : string) (es : list (string * node)) :
  assoc c (remove_entry k es) = if c =? k then None else assoc c es.
Proof.
  unfold remove_entry. induction es as [|[k' m] es IH]; simpl.
  - now destruct (c =? k).
  - destruct (k' =? k) eqn:E1; simpl.
    + rewrite IH. apply String.eqb_eq in E1. subst k'.
      rewrite (String.eqb_sym k c). now destruct (c =? k).
    + destruct (k' =? c) eqn:E2; [|apply IH].
      apply String.eqb_eq in E2. subst k'. now rewrite E1.
Qed.

(** Unlinking a file changes no directory of the tree. *)
Lemma is_dir_unlink (loc : list string) (k : string) :
  forall r l,
    is_file (lookup r (loc ++ [k])) = true ->
    is_dir (lookup (update_at r loc (remove_entry k)) l) = is_dir (lookup r l).
Proof.
  induction loc as [|c loc IH]; intros r l Hf.
  - simpl in *. destruct r as [| es |]; try discriminate.
    destruct l as [|c' l]; [reflexivity|]. simpl.
    rewrite assoc_remove_entry. destruct (c' =? k) eqn:E; [|reflexivity].
    apply String.eqb_eq in E. subst c'.
    destruct (assoc k es) as [[| |]|]; try discriminate.
    now destruct l.
  - simpl in *. destruct r as [| es |]; try discriminate.
    destruct l as [|c' l]; [reflexivity|]. rewrite update_at_cons. simpl.
    rewrite assoc_update_entry.
    destruct (c' =? c) eqn:E; [|reflexivity].
    apply String.eqb_eq in E. subst c'.
    destruct (assoc c es) as [m|]; [|reflexivity]. simpl. now apply IH.
Qed.

Lemma fold_step_loc_ext (r1 r2 : node) :
  (forall l, is_dir (lookup r1 l) = is_dir (lookup r2 l)) ->
  forall cs cur,
    fold_left (step_loc r1) cs cur = fold_left (step_loc r2) cs cur.
Proof.
  intros H. induction cs as [|c cs IH]; intros cur; simpl; [reflexivity|].
  rewrite IH. f_equal. destruct cur as [l|]; simpl; [|reflexivity].
  now rewrite H.
Qed.

Lemma locate_unlink (fs : filesystem) (loc : list string) (k path : string) :
  is_file (lookup (root fs) (loc ++ [k])) = true ->
  locate (unlink fs (loc ++ [k])) path = locate fs path.
Proof.
  intros Hf. unfold locate, unlink. simpl.
  destruct (path =? ""); [reflexivity|].
  rewrite removelast_last, last_last.
  apply fold_step_loc_ext. intros l. now apply is_dir_unlink.
Qed.

Lemma remove_entry_middle (pre suf : list (string * node)) (k : string) (n : node) :
  NoDup (map fst (pre ++ (k, n) :: suf)) ->
  remove_entry k (pre ++ (k, n) :: suf) = pre ++ suf.
Proof.
  intros Hnd. unfold remove_entry. rewrite filter_app. simpl.
  rewrite String.eqb_refl. simpl.
  rewrite map_app in Hnd. simpl in Hnd.
  apply NoDup_remove_2 in Hnd.
  assert (Hkeep : forall l : list (string * node),
             ~ In k (map fst l) ->
             filter (fun e => negb (fst e =? k)) l = l).
  { induction l as [|[k' m] l IHl]; simpl; [reflexivity|].
    intros Hn. destruct (k' =? k) eqn:E.
    - apply String.eqb_eq in E. subst k'. exfalso. apply Hn. now left.
    - simpl. f_equal. apply IHl. tauto. }
  rewrite !Hkeep; [reflexivity| |]; intros HIn; apply Hnd, in_or_app; tauto.
Qed.

Lemma assoc_app_notin (k : string) (a b : list (string * node)) :
  ~ In k (map fst a) -> assoc k (a ++ b) = assoc k b.
Proof.
  induction a as [|[k' m] a IH]; simpl; [reflexivity|].
  intros Hn. destruct (k' =? k) eqn:E.
  - apply String.eqb_eq in E. tauto.
  - apply IH. tauto.
Qed.

Lemma assoc_middle (pre suf : list (string * node)) (k : string) (n : node) :
  NoDup (map fst (pre ++ (k, n) :: suf)) ->
  assoc k (pre ++ (k, n) :: suf) = Some n.
Proof.
  intros Hnd. apply In_assoc; [assumption|].
  apply in_or_app. right. now left.
Qed.

(** *** One turn of the loop *)

Lemma paso_conserva (carpeta ultimo fichero : string) (w : mundo) (n : nat) :
  os_path_isfile (fs w) (PosixPath.join carpeta fichero)
    && negb (fichero =? ultimo) = false ->
  Files.eliminar_antiguos_paso carpeta ultimo fichero (w, n) = (Ok tt, (w, n)).
Proof.
  intros H. unfold Files.eliminar_antiguos_paso, bind, on_world, leer. simpl.
  now rewrite H.
Qed.

Lemma paso_elimina (carpeta ultimo fichero : string) (w : mundo) (n : nat)
      (fs' : filesystem) :
  os_path_isfile (fs w) (PosixPath.join carpeta fichero)
    && negb (fichero =? ultimo) = true ->
  FS.os_remove (fs w) (PosixPath.join carpeta fichero) = Some fs' ->
  Files.eliminar_antiguos_paso carpeta ultimo fichero (w, n) =
  (Ok tt,
   ({| fs := fs';
       traza := traza w ++ [Log INFO (EliminadoFicheroAntiguo
                                        (PosixPath.join carpeta fichero))] |},
    S n)).
Proof.
  intros H Hr.
  unfold Files.eliminar_antiguos_paso, bind, on_world, leer, os_remove. simpl.
  rewrite H. simpl. now rewrite Hr.
Qed.

Lemma paso_falla (carpeta ultimo fichero : string) (w : mundo) (n : nat) :
  os_path_isfile (fs w) (PosixPath.join carpeta fichero)
    && negb (fichero =? ultimo) = true ->
  FS.os_remove (fs w) (PosixPath.join carpeta fichero) = None ->
  Files.eliminar_antiguos_paso carpeta ultimo fichero (w, n) =
  (Raise OSError, (w, n)).
Proof.
  intros H Hr.
  unfold Files.eliminar_antiguos_paso, bind, on_world, leer, os_remove. simpl.
  rewrite H. simpl. now rewrite Hr.
Qed.

(** *** The entries of a located folder *)

Lemma locate_not_empty (fs : filesystem) (path : string) (loc : list string) :
  locate fs path = Some loc -> path <> "".
Proof. unfold locate. intros H ->. discriminate. Qed.

Lemma stat_in_folder (fs : filesystem) (carpeta k : string)
      (loc : list string) (es : list (string * node)) :
  locate fs carpeta = Some loc ->
  lookup (root fs) loc = Some (Dir es) ->
  plain_name k = true ->
  stat fs (PosixPath.join carpeta k) = assoc k es.
Proof.
  intros Hl Hd Hk.
  rewrite (stat_join fs carpeta k (locate_not_empty _ _ _ Hl) Hk).
  unfold stat. now rewrite Hl, Hd.
Qed.

Lemma locate_in_folder (fs : filesystem) (carpeta k : string)
      (loc : list string) (es : list (string * node)) :
  locate fs carpeta = Some loc ->
  lookup (root fs) loc = Some (Dir es) ->
  plain_name k = true ->
  locate fs (PosixPath.join carpeta k) = Some (loc ++ [k]).
Proof.
  intros Hl Hd Hk.
  rewrite (locate_join fs carpeta k (locate_not_empty _ _ _ Hl) Hk).
  now rewrite Hl, Hd.
Qed.

Lemma unlink_in_folder (fs : filesystem) (loc : list string) (k : string) :
  unlink fs (loc ++ [k]) =
  {| root := update_at (root fs) loc (remove_entry k); cwd := cwd fs |}.
Proof. unfold unlink. now rewrite removelast_last, last_last. Qed.

Lemma os_remove_in_folder (fs : filesystem) (carpeta k : string)
      (loc : list string) (es : list (string * node)) (sz : Z) (r : bool) :
  locate fs carpeta = Some loc ->
  lookup (root fs) loc = Some (Dir es) ->
  plain_name k = true ->
  assoc k es = Some (File sz r) ->
  FS.os_remove fs (PosixPath.join carpeta k) =
  if r then Some (unlink fs (loc ++ [k])) else None.
Proof.
  intros Hl Hd Hk Ha. unfold FS.os_remove.
  rewrite (locate_in_folder fs carpeta k loc es Hl Hd Hk).
  now rewrite lookup_snoc, Hd, Ha.
Qed.

(** *** The loop over a run of entries none of which fails *)

Section Bucle.
Variables (carpeta ultimo : string) (loc : list string).

Let paso := Files.eliminar_antiguos_paso carpeta ultimo.

Lemma tras_segmento_nil (w : mundo) (pre rest : list (string * node)) :
  lookup (root (fs w)) loc = Some (Dir (pre ++ rest)) ->
  tras_segmento carpeta ultimo loc w pre [] rest = w.
Proof.
  intros Hd. unfold tras_segmento, con_entradas. simpl.
  rewrite (update_at_same _ _ _ Hd), app_nil_r.
  now destruct w as [[r c] t].
Qed.

Lemma tras_segmento_elimina (w : mundo) (pre seg rest : list (string * node))
      (k : string) (nd : node) :
  obsoleto ultimo (k, nd) = true ->
  tras_segmento carpeta ultimo loc
    {| fs := unlink (fs w) (loc ++ [k]);
       traza := traza w ++ [Log INFO (EliminadoFicheroAntiguo
                                        (PosixPath.join carpeta k))] |}
    pre seg rest
  = tras_segmento carpeta ultimo loc w pre ((k, nd) :: seg) rest.
Proof.
  intros Eo. unfold tras_segmento. cbn [filter fs traza].
  unfold conservado at 2. rewrite Eo. cbn [negb]. f_equal.
  - unfold con_entradas. rewrite unlink_in_folder. cbn [root cwd].
    now rewrite update_at_update_at.
  - cbn [avisos_eliminados map fst]. now rewrite <- app_assoc.
Qed.

Lemma tras_segmento_conserva (w : mundo) (pre seg rest : list (string * node))
      (k : string) (nd : node) :
  obsoleto ultimo (k, nd) = false ->
  tras_segmento carpeta ultimo loc w (pre ++ [(k, nd)]) seg rest
  = tras_segmento carpeta ultimo loc w pre ((k, nd) :: seg) rest.
Proof.
  intros Eo. unfold tras_segmento. cbn [filter].
  unfold conservado at 2. rewrite Eo. cbn [negb].
  now rewrite <- !app_assoc.
Qed.

Lemma bucle_segmento (seg : list (string * node)) :
  forall (pre rest : list (string * node)) (ns : list string)
         (w : mundo) (n : nat),
    locate (fs w) carpeta = Some loc ->
    lookup (root (fs w)) loc = Some (Dir (pre ++ seg ++ rest)) ->
    NoDup (map fst (pre ++ seg ++ rest)) ->
    Forall (fun e => plain_name (fst e) = true) seg ->
    (forall k sz r, In (k, File sz r) seg -> k <> ultimo -> r = true) ->
    for_each (map fst seg ++ ns) paso (w, n) =
    for_each ns paso
      (tras_segmento carpeta ultimo loc w pre seg rest,
       n + List.length (filter (obsoleto ultimo) seg))
    /\ locate (fs (tras_segmento carpeta ultimo loc w pre seg rest)) carpeta = Some loc.
Proof.
  induction seg as [|[k nd] seg IH]; intros pre rest ns w n Hl Hd Hnd Hpl Hrm.
  - rewrite (tras_segmento_nil w pre rest Hd). simpl.
    now rewrite Nat.add_0_r.
  - inversion Hpl as [|? ? Hk Hpl']; subst. simpl in Hk.
    assert (Ha : assoc k (pre ++ ((k, nd) :: seg) ++ rest) = Some nd)
      by (apply assoc_middle; exact Hnd).
    assert (Hst : os_path_isfile (fs w) (PosixPath.join carpeta k)
                  = is_file (Some nd)).
    { unfold os_path_isfile.
      now rewrite (stat_in_folder _ _ _ _ _ Hl Hd Hk), Ha. }
    assert (Hrm' : forall k' sz' r',
               In (k', File sz' r') seg -> k' <> ultimo -> r' = true).
    { intros k' sz' r' HIn. apply (Hrm k' sz' r'). now right. }
    cbn [map fst app for_each]. unfold bind at 1.
    destruct (obsoleto ultimo (k, nd)) eqn:Eo.
    + (* the entry is stale: it is removed *)
      pose proof Eo as Eo'. unfold obsoleto in Eo'. simpl in Eo'.
      destruct nd as [sz r| |]; try discriminate.
      assert (r = true) as ->.
      { apply (Hrm k sz r); [now left|].
        apply andb_true_iff in Eo' as [_ Hne].
        now apply String.eqb_neq, negb_true_iff. }
      unfold paso at 1.
      rewrite (paso_elimina carpeta ultimo k w n (unlink (fs w) (loc ++ [k]))).
      2:{ rewrite Hst. exact Eo'. }
      2:{ now rewrite (os_remove_in_folder _ _ _ _ _ sz true Hl Hd Hk Ha). }
      fold paso.
      rewrite <- (tras_segmento_elimina w pre seg rest k _ Eo).
      replace (n + List.length (filter (obsoleto ultimo) ((k, File sz true) :: seg)))
        with (S n + List.length (filter (obsoleto ultimo) seg))
        by (cbn [filter]; rewrite Eo; cbn [List.length]; lia).
      apply IH.
      * cbn [fs]. rewrite locate_unlink; [exact Hl|].
        now rewrite lookup_snoc, Hd, Ha.
      * cbn [fs]. rewrite unlink_in_folder. cbn [root].
        rewrite (lookup_update_at _ _ _ _ Hd).
        do 2 f_equal. exact (remove_entry_middle pre (seg ++ rest) k _ Hnd).
      * rewrite map_app in Hnd |- *. simpl in Hnd.
        now apply NoDup_remove_1 in Hnd.
      * exact Hpl'.
      * exact Hrm'.
    + (* the entry is kept *)
      unfold paso at 1.
      rewrite (paso_conserva carpeta ultimo k w n).
      2:{ rewrite Hst. exact Eo. }
      fold paso.
      rewrite <- (tras_segmento_conserva w pre seg rest k _ Eo).
      replace (n + List.length (filter (obsoleto ultimo) ((k, nd) :: seg)))
        with (n + List.length (filter (obsoleto ultimo) seg))
        by (cbn [filter]; now rewrite Eo).
      apply IH.
      * exact Hl.
      * now rewrite <- app_assoc.
      * now rewrite <- app_assoc.
      * exact Hpl'.
      * exact Hrm'.
Qed.

Lemma lookup_tras_segmento (w : mundo) (pre seg rest es : list (string * node)) :
  lookup (root (fs w)) loc = Some (Dir es) ->
  lookup (root (fs (tras_segmento carpeta ultimo loc w pre seg rest))) loc
  = Some (Dir (pre ++ filter (conservado ultimo) seg ++ rest)).
Proof.
  intros Hd. unfold tras_segmento, con_entradas. cbn [fs root].
  now rewrite (lookup_update_at _ _ _ _ Hd).
Qed.
End Bucle.

(** *** The whole call *)

Lemma wf_folder (f : filesystem) (loc : list string) (es : list (string * node)) :
  wf f = true ->
  lookup (root f) loc = Some (Dir es) ->
  NoDup (map fst es) /\ Forall (fun e => plain_name (fst e) = true) es.
Proof.
  intros Hwf Hd. unfold wf in Hwf. apply andb_true_iff in Hwf as [Hwf _].
  apply (wf_node_lookup _ _ _ Hwf) in Hd.
  apply wf_node_Dir in Hd as (Hp & Hn & _). split; [assumption|].
  rewrite Forall_forall in *. intros e He. apply Hp. now apply in_map.
Qed.

Lemma os_listdir_folder (f : filesystem) (carpeta : string)
      (loc : list string) (es : list (string * node)) :
  locate f carpeta = Some loc ->
  lookup (root f) loc = Some (Dir es) ->
  os_listdir f carpeta = Some (map fst es).
Proof. intros Hl Hd. unfold os_listdir, stat. now rewrite Hl, Hd. Qed.

Lemma eliminar_antiguos_sin_fallo
      (w : mundo) (carpeta ultimo_fichero : string)
      (loc : list string) (es : list (string * node)) :
  wf (fs w) = true ->
  locate (fs w) carpeta = Some loc ->
  lookup (root (fs w)) loc = Some (Dir es) ->
  (forall k sz r, In (k, File sz r) es -> k <> ultimo_fichero -> r = true) ->
  Files.eliminar_antiguos carpeta ultimo_fichero w =
  (Ok (List.length (filter (obsoleto ultimo_fichero) es)),
   {| fs := con_entradas (fs w) loc (filter (conservado ultimo_fichero) es);
      traza := traza w
               ++ avisos_eliminados carpeta
                    (filter (obsoleto ultimo_fichero) es) |}).
Proof.
  intros Hwf Hl Hd Hrm.
  destruct (wf_folder _ _ _ Hwf Hd) as [Hnd Hpl].
  destruct (bucle_segmento carpeta ultimo_fichero loc es [] [] [] w 0)
    as [Hfor _]; try assumption; try (now rewrite app_nil_r).
  unfold Files.eliminar_antiguos, with_locals, bind, try_except.
  unfold on_world at 1. unfold llamar. cbn [fst snd].
  rewrite (os_listdir_folder _ _ _ _ Hl Hd).
  rewrite app_nil_r in Hfor. rewrite Hfor. cbn [for_each ret get_locals].
  unfold tras_segmento. cbn [app]. now rewrite app_nil_r.
Qed.

(** After such a call the folder is still where it was, and holds no
    regular file of another name than the kept one. *)
Lemma carpeta_tras_poda
      (w : mundo) (carpeta ultimo_fichero : string)
      (loc : list string) (es : list (string * node)) :
  wf (fs w) = true ->
  locate (fs w) carpeta = Some loc ->
  lookup (root (fs w)) loc = Some (Dir es) ->
  (forall k sz r, In (k, File sz r) es -> k <> ultimo_fichero -> r = true) ->
  let f' := con_entradas (fs w) loc (filter (conservado ultimo_fichero) es) in
  locate f' carpeta = Some loc
  /\ lookup (root f') loc = Some (Dir (filter (conservado ultimo_fichero) es))
  /\ (forall k sz r,
         In (k, File sz r) (filter (conservado ultimo_fichero) es) ->
         k = ultimo_fichero)
  /\ (In ultimo_fichero (map fst es) ->
      In ultimo_fichero (map fst (filter (conservado ultimo_fichero) es))).
Proof.
  intros Hwf Hl Hd Hrm f'.
  destruct (wf_folder _ _ _ Hwf Hd) as [Hnd Hpl].
  destruct (bucle_segmento carpeta ultimo_fichero loc es [] [] [] w 0)
    as [_ Hloc]; try assumption; try (now rewrite app_nil_r).
  unfold tras_segmento in Hloc. cbn [fs app] in Hloc.
  rewrite app_nil_r in Hloc.
  split; [exact Hloc|]. split; [|split].
  - unfold f', con_entradas. cbn [root].
    now rewrite (lookup_update_at _ _ _ _ Hd).
  - intros k sz r HIn. apply filter_In in HIn as [_ Hc].
    unfold conservado, obsoleto in Hc. cbn [fst snd is_file andb] in Hc.
    apply negb_true_iff, negb_false_iff in Hc. now apply String.eqb_eq.
  - intros HIn. apply in_map_iff in HIn as ([k nd] & Hk & HIn).
    cbn [fst] in Hk. subst k. apply in_map_iff.
    exists (ultimo_fichero, nd). split; [reflexivity|].
    apply filter_In. split; [exact HIn|].
    unfold conservado, obsoleto. cbn [fst snd].
    rewrite String.eqb_refl. cbn [negb]. now rewrite andb_false_r.
Qed.

(** *** A removal that fails *)

Lemma eliminar_antiguos_con_fallo
        (w : mundo) (carpeta ultimo_fichero : string) (loc : list string)
        (pre post : list (string * node)) (k : string) (sz : Z) :
  wf (fs w) = true ->
  locate (fs w) carpeta = Some loc ->
  lookup (root (fs w)) loc = Some (Dir (pre ++ (k, File sz false) :: post)) ->
  k <> ultimo_fichero ->
  (forall k0 sz0 r, In (k0, File sz0 r) pre -> k0 <> ultimo_fichero -> r = true) ->
  Files.eliminar_antiguos carpeta ultimo_fichero w =
  (Ok (List.length (filter (obsoleto ultimo_fichero) pre)),
   {| fs := con_entradas (fs w) loc
              (filter (conservado ultimo_fichero) pre ++ (k, File sz false) :: post);
      traza := traza w
               ++ avisos_eliminados carpeta (filter (obsoleto ultimo_fichero) pre)
               ++ [Log ERROR (ErrorEliminando carpeta OSError)] |}).
Proof.
  intros Hwf Hl Hd Hk Hrm.
  destruct (wf_folder _ _ _ Hwf Hd) as [Hnd Hpl].
  set (rest := (k, File sz false) :: post) in *.
  destruct (bucle_segmento carpeta ultimo_fichero loc pre [] rest
                           (map fst rest) w 0)
    as [Hfor Hloc]; try assumption.
  { apply Forall_app in Hpl. tauto. }
  pose proof (lookup_tras_segmento carpeta ultimo_fichero loc w [] pre rest _ Hd)
    as Hd'.
  cbn [app] in Hd', Hfor, Hloc.
  set (w' := tras_segmento carpeta ultimo_fichero loc w [] pre rest) in *.
  assert (Hk' : plain_name k = true).
  { apply Forall_app in Hpl as [_ Hpl]. now inversion Hpl. }
  assert (Ha : assoc k (filter (conservado ultimo_fichero) pre ++ rest)
               = Some (File sz false)).
  { rewrite assoc_app_notin.
    - unfold rest. cbn [assoc]. now rewrite String.eqb_refl.
    - rewrite map_app in Hnd. unfold rest in Hnd. rewrite map_cons in Hnd.
      apply NoDup_remove_2 in Hnd. intros Hx. apply Hnd, in_or_app. left.
      apply in_map_iff in Hx as (e & Hfst & He).
      apply filter_In in He as [He _]. cbn [fst]. rewrite <- Hfst.
      now apply in_map. }
  unfold Files.eliminar_antiguos, with_locals, bind, try_except.
  unfold on_world at 1. unfold llamar. cbn [fst snd].
  rewrite (os_listdir_folder _ _ _ _ Hl Hd).
  rewrite map_app. fold rest. rewrite Hfor.
  cbn [map fst for_each rest]. unfold bind at 1.
  rewrite (paso_falla carpeta ultimo_fichero k w').
  - unfold on_world, log, emitir, modify, get_locals. cbn [fst snd].
    unfold w', tras_segmento. cbn [fs traza app].
    rewrite Nat.add_0_l, <- app_assoc. reflexivity.
  - unfold os_path_isfile.
    rewrite (stat_in_folder _ _ _ _ _ Hloc Hd' Hk'), Ha. cbn [is_file andb].
    now apply negb_true_iff, String.eqb_neq.
  - now rewrite (os_remove_in_folder _ _ _ _ _ sz false Hloc Hd' Hk' Ha).
Qed.

(** *** The call on any folder *)

Lemma primer_fallo (ultimo : string) (es : list (string * node)) :
  (forall k sz r, In (k, File sz r) es -> k <> ultimo -> r = true)
  \/ exists pre k sz post,
      es = pre ++ (k, File sz false) :: post
      /\ k <> ultimo
      /\ (forall k0 sz0 r, In (k0, File sz0 r) pre -> k0 <> ultimo -> r = true).
Proof.
  induction es as [|[k nd] es IH]; [left; intros k sz r []|].
  assert (Hcons : (forall sz r, nd = File sz r -> k <> ultimo -> r = true) ->
                  (forall k0 sz0 r0,
                      In (k0, File sz0 r0) ((k, nd) :: es) ->
                      k0 <> ultimo -> r0 = true)
                  \/ exists pre k1 sz1 post,
                      (k, nd) :: es = pre ++ (k1, File sz1 false) :: post
                      /\ k1 <> ultimo
                      /\ (forall k0 sz0 r, In (k0, File sz0 r) pre ->
                                           k0 <> ultimo -> r = true)).
  { intros Hh. destruct IH as [IH|(pre & k1 & sz1 & post & -> & Hk1 & Hpre)].
    - left. intros k0 sz0 r0 [H|H] Hk0.
      + injection H as <- ->. now apply (Hh sz0 r0).
      + now apply (IH k0 sz0).
    - right. exists ((k, nd) :: pre), k1, sz1, post.
      split; [reflexivity|]. split; [exact Hk1|].
      intros k0 sz0 r0 [H|H] Hk0.
      + injection H as <- ->. now apply (Hh sz0 r0).
      + now apply (Hpre k0 sz0). }
  destruct nd as [sz [|]| d |].
  - apply Hcons. now intros sz0 r0 [= _ <-] _.
  - destruct (string_dec k ultimo) as [->|Hne].
    + apply Hcons. intros sz0 r0 _ H. now destruct H.
    + right. exists [], k, sz, es. split; [reflexivity|]. split; [exact Hne|].
      intros k0 sz0 r0 [].
  - apply Hcons. intros sz0 r0 H. discriminate H.
  - apply Hcons. intros sz0 r0 H. discriminate H.
Qed.

Lemma find_obsoleto_conservados (u : string) (pre rest : list (string * node)) :
  find (obsoleto u) (filter (conservado u) pre ++ rest) = find (obsoleto u) rest.
Proof.
  induction pre as [|e pre IH]; [reflexivity|]. cbn [filter].
  unfold conservado at 1. destruct (obsoleto u e) eqn:E; cbn [negb]; [exact IH|].
  cbn [app find]. now rewrite E.
Qed.

Lemma estable_tras_poda (u : string) (es : list (string * node)) :
  estable u (filter (conservado u) es).
Proof.
  pose proof (find_obsoleto_conservados u es []) as H.
  rewrite app_nil_r in H. unfold estable. now rewrite H.
Qed.

Lemma estable_tras_fallo (u : string) (pre post : list (string * node))
      (k : string) (sz : Z) :
  k <> u -> estable u (filter (conservado u) pre ++ (k, File sz false) :: post).
Proof.
  intros Hk. unfold estable. rewrite find_obsoleto_conservados. cbn [find].
  unfold obsoleto. cbn [fst snd is_file andb].
  apply String.eqb_neq in Hk. now rewrite Hk.
Qed.

Lemma estable_sin_obsoletos (u : string) (l t : list (string * node)) :
  (forall k sz r, In (k, File sz r) l -> k <> u -> r = true) ->
  estable u (l ++ t) ->
  filter (obsoleto u) l = [] /\ filter (conservado u) l = l.
Proof.
  unfold estable. induction l as [|[k nd] l IH]; intros Hrm He; [now split|].
  cbn [app find filter] in *. unfold conservado at 1.
  destruct (obsoleto u (k, nd)) eqn:E.
  - exfalso. unfold obsoleto in E. cbn [fst snd] in E.
    destruct nd as [sz r| |]; try discriminate E.
    apply andb_true_iff in E as [_ E]. apply negb_true_iff, String.eqb_neq in E.
    rewrite (Hrm k sz r (or_introl eq_refl) E) in He. discriminate He.
  - cbn [negb]. destruct IH as [-> ->]; [| |now split].
    + intros k0 sz0 r0 H. apply (Hrm k0 sz0 r0). now right.
    + exact He.
Qed.

Lemma NoDup_app_disjuntos (l l' : list string) (x : string) :
  NoDup (l ++ l') -> In x l -> In x l' -> False.
Proof.
  induction l as [|y l IH]; intros Hnd Hl Hl'; [destruct Hl|].
  cbn [app] in Hnd. inversion Hnd as [|? ? Hy Hnd']; subst.
  destruct Hl as [->|Hl].
  - apply Hy. apply in_or_app. now right.
  - now apply IH.
Qed.

(** Filtering a prefix of a folder is filtering the folder. *)
Lemma filter_prefijo (p : string * node -> bool)
      (pre rest : list (string * node)) :
  NoDup (map fst (pre ++ rest)) ->
  filter (fun e => p e || negb (mem (fst e) (map fst pre))) (pre ++ rest)
  = filter p pre ++ rest.
Proof.
  intros Hnd. rewrite filter_app. f_equal.
  - apply filter_ext_in. intros e He.
    assert (H : mem (fst e) (map fst pre) = true)
      by (apply mem_In; now apply in_map).
    rewrite H. apply orb_false_r.
  - apply forallb_filter_id. apply forallb_forall. intros e He.
    destruct (mem (fst e) (map fst pre)) eqn:E; [|apply orb_true_r].
    exfalso. apply mem_In in E. rewrite map_app in Hnd.
    apply (NoDup_app_disjuntos _ _ (fst e) Hnd E). now apply in_map.
Qed.

Lemma avisos_eliminados_log (carpeta : string) (es : list (string * node)) :
  Forall es_log (avisos_eliminados carpeta es).
Proof.
  unfold avisos_eliminados. apply Forall_forall. intros e He.
  apply in_map_iff in He as (x & <- & _). exact I.
Qed.

(** Whatever the folder holds, the pruner returns, rewrites only that
    folder, keeps every entry that is not a stale file, and leaves a
    folder where another call would delete nothing; on such a folder it
    deletes nothing. *)
Lemma eliminar_antiguos_en_carpeta
      (w : mundo) (carpeta ultimo_fichero : string)
      (loc : list string) (es : list (string * node)) :
  wf (fs w) = true ->
  locate (fs w) carpeta = Some loc ->
  lookup (root (fs w)) loc = Some (Dir es) ->
  exists n p evs,
    Files.eliminar_antiguos carpeta ultimo_fichero w
    = (Ok n, {| fs := con_entradas (fs w) loc (filter p es);
                traza := traza w ++ evs |})
    /\ (forall e, conservado ultimo_fichero e = true -> p e = true)
    /\ estable ultimo_fichero (filter p es)
    /\ Forall es_log evs
    /\ (estable ultimo_fichero es -> n = 0 /\ filter p es = es).
Proof.
  intros Hwf Hl Hd. destruct (wf_folder _ _ _ Hwf Hd) as [Hnd _].
  destruct (primer_fallo ultimo_fichero es)
    as [Hrm|(pre & k & sz & post & -> & Hk & Hrm)].
  - exists (List.length (filter (obsoleto ultimo_fichero) es)),
      (conservado ultimo_fichero),
      (avisos_eliminados carpeta (filter (obsoleto ultimo_fichero) es)).
    split; [now apply eliminar_antiguos_sin_fallo|].
    split; [now intros e He|]. split; [apply estable_tras_poda|].
    split; [apply avisos_eliminados_log|].
    intros He.
    destruct (estable_sin_obsoletos ultimo_fichero es [] Hrm) as [H1 H2];
      [now rewrite app_nil_r|].
    rewrite H1, H2. now split.
  - exists (List.length (filter (obsoleto ultimo_fichero) pre)),
      (fun e => conservado ultimo_fichero e || negb (mem (fst e) (map fst pre))),
      (avisos_eliminados carpeta (filter (obsoleto ultimo_fichero) pre)
       ++ [Log ERROR (ErrorEliminando carpeta OSError)]).
    rewrite (filter_prefijo _ pre _ Hnd).
    split; [now apply eliminar_antiguos_con_fallo|].
    split; [now intros e ->|]. split; [now apply estable_tras_fallo|].
    split.
    + apply Forall_app. split; [apply avisos_eliminados_log|].
      now repeat constructor.
    + intros He.
      destruct (estable_sin_obsoletos ultimo_fichero pre _ Hrm He) as [H1 H2].
      rewrite H1, H2. now split.
Qed.

(** C1.  In a folder where no removal fails, [eliminar_antiguos] deletes
    exactly the regular files whose name differs from [ultimo_fichero] and
    returns their number: the entries of the folder become those that are
    not such files, in their order and with their contents, so directories
    and the entry named [ultimo_fichero] stay as they were, and nothing
    outside the folder changes.  When the folder has no regular file named
    [ultimo_fichero], no regular file is left in it. *)
Theorem eliminar_antiguos_exacto
        (w : mundo) (carpeta ultimo_fichero : string)
        (loc : list string) (es : list (string * node)) :
  wf (fs w) = true ->
  locate (fs w) carpeta = Some loc ->
  lookup (root (fs w)) loc = Some (Dir es) ->
  (forall k sz r, In (k, File sz r) es -> k <> ultimo_fichero -> r = true) ->
  Files.eliminar_antiguos carpeta ultimo_fichero w =
  (Ok (List.length (filter (obsoleto ultimo_fichero) es)),
   {| fs := con_entradas (fs w) loc (filter (conservado ultimo_fichero) es);
      traza := traza w
               ++ avisos_eliminados carpeta
                    (filter (obsoleto ultimo_fichero) es) |})
  /\ ((forall sz r, ~ In (ultimo_fichero, File sz r) es) ->
      forall e, In e (filter (conservado ultimo_fichero) es) ->
                is_file (Some (snd e)) = false).
Proof.
  intros Hwf Hl Hd Hrm. split.
  - now apply eliminar_antiguos_sin_fallo.
  - intros Hno [k nd] HIn. apply filter_In in HIn as [HIn Hc].
    unfold conservado, obsoleto in Hc. cbn [fst snd] in *.
    destruct nd as [sz r| |]; try reflexivity. exfalso.
    destruct (k =? ultimo_fichero) eqn:E; [|discriminate].
    apply String.eqb_eq in E. subst k. apply (Hno sz r HIn).
Qed.

(** The pruner always returns: it catches what its loop raises.  All it
    adds to the trace are log lines. *)
Lemma paso_traza (carpeta ultimo fichero : string) (w : mundo) (n : nat) :
  exists r w' n' evs,
    Files.eliminar_antiguos_paso carpeta ultimo fichero (w, n) = (r, (w', n'))
    /\ traza w' = traza w ++ evs /\ Forall es_log evs.
Proof.
  destruct (os_path_isfile (fs w) (PosixPath.join carpeta fichero)
            && negb (fichero =? ultimo)) eqn:E.
  - destruct (FS.os_remove (fs w) (PosixPath.join carpeta fichero)) as [f'|] eqn:R.
    + rewrite (paso_elimina _ _ _ _ _ f' E R).
      eexists _, _, _, [_]. split; [reflexivity|]. split; [reflexivity|].
      repeat constructor.
    + rewrite (paso_falla _ _ _ _ _ E R).
      exists (Raise OSError), w, n, []. rewrite app_nil_r. now repeat split.
  - rewrite (paso_conserva _ _ _ _ _ E).
    exists (Ok tt), w, n, []. rewrite app_nil_r. now repeat split.
Qed.

Lemma bucle_traza (carpeta ultimo : string) (ns : list string) :
  forall (w : mundo) (n : nat),
  exists r w' n' evs,
    for_each ns (Files.eliminar_antiguos_paso carpeta ultimo) (w, n)
    = (r, (w', n'))
    /\ traza w' = traza w ++ evs /\ Forall es_log evs.
Proof.
  induction ns as [|k ns IH]; intros w n.
  - exists (Ok tt), w, n, []. rewrite app_nil_r. now repeat split.
  - cbn [for_each]. unfold bind.
    destruct (paso_traza carpeta ultimo k w n) as (r & w1 & n1 & evs1 & -> & Ht1 & Hl1).
    destruct r as [[]|e].
    + destruct (IH w1 n1) as (r & w2 & n2 & evs2 & -> & Ht2 & Hl2).
      exists r, w2, n2, (evs1 ++ evs2). split; [reflexivity|]. split.
      * now rewrite Ht2, Ht1, app_assoc.
      * now apply Forall_app.
    + now exists (Raise e), w1, n1, evs1.
Qed.

Lemma eliminar_antiguos_total (carpeta ultimo : string) (w : mundo) :
  exists n w' evs,
    Files.eliminar_antiguos carpeta ultimo w = (Ok n, w')
    /\ traza w' = traza w ++ evs /\ Forall es_log evs.
Proof.
  unfold Files.eliminar_antiguos, with_locals, bind, try_except.
  unfold on_world at 1. unfold llamar. cbn [fst snd].
  destruct (os_listdir (fs w) carpeta) as [ns|].
  - destruct (bucle_traza carpeta ultimo ns w 0) as (r & w1 & n1 & evs & -> & Ht & Hl).
    destruct r as [[]|e].
    + now exists n1, w1, evs.
    + cbn. eexists n1, _, (evs ++ [_]). split; [reflexivity|]. cbn. split.
      * now rewrite Ht, app_assoc.
      * apply Forall_app. split; [assumption|]. repeat constructor.
  - cbn. eexists 0, _, [_]. split; [reflexivity|]. cbn. split; [reflexivity|].
    repeat constructor.
Qed.

Lemma eliminar_antiguos_exacto_witness :
  fst (Files.eliminar_antiguos "/local/c3" "b.csv" Ejemplos.mundo_ejemplo) = Ok 1
  /\ os_listdir (fs (snd (Files.eliminar_antiguos "/local/c3" "b.csv"
                                                  Ejemplos.mundo_ejemplo)))
                "/local/c3" = Some ["b.csv"; "sub"].
Proof.
  destruct (eliminar_antiguos_exacto
              Ejemplos.mundo_ejemplo "/local/c3" "b.csv" ["local"; "c3"]
              [("a.csv", Ejemplos.fichero); ("b.csv", Ejemplos.fichero);
               ("sub", Dir [])]) as [H _].
  - reflexivity.
  - reflexivity.
  - reflexivity.
  - intros k sz r [H|[H|[H|[]]]] _; now inversion H.
  - rewrite H. split; reflexivity.
Defined.

(** C2 fails on the code: in [/local/c4] the removal of [x] fails, and [y],
    a stale file that comes after it, is still there when the call ends. *)
Lemma poda_no_continua_tras_fallo : ~ poda_continua_tras_fallo.
Proof.
  intros H.
  specialize (H Ejemplos.mundo_ejemplo "/local/c4" "z" ["local"; "c4"]
                [] [("y", Ejemplos.fichero)] "x" 1%Z "y" 10%Z).
  cbv in H. 
  assert (E : true = false); [|discriminate E].
  apply H; try reflexivity; try discriminate.
  now left.
Qed.

(** C2, amended.  A removal that fails ends the pruning of the folder: the
    exception is caught and logged, the files deleted before it stay deleted
    and are the count returned, and the entry that failed and every entry
    after it are left as they were. *)
Theorem eliminar_antiguos_fallo
        (w : mundo) (carpeta ultimo_fichero : string) (loc : list string)
        (pre post : list (string * node)) (k : string) (sz : Z) :
  wf (fs w) = true ->
  locate (fs w) carpeta = Some loc ->
  lookup (root (fs w)) loc = Some (Dir (pre ++ (k, File sz false) :: post)) ->
  k <> ultimo_fichero ->
  (forall k0 sz0 r, In (k0, File sz0 r) pre -> k0 <> ultimo_fichero -> r = true) ->
  Files.eliminar_antiguos carpeta ultimo_fichero w =
  (Ok (List.length (filter (obsoleto ultimo_fichero) pre)),
   {| fs := con_entradas (fs w) loc
              (filter (conservado ultimo_fichero) pre ++ (k, File sz false) :: post);
      traza := traza w
               ++ avisos_eliminados carpeta (filter (obsoleto ultimo_fichero) pre)
               ++ [Log ERROR (ErrorEliminando carpeta OSError)] |}).
Proof.
  intros Hwf Hl Hd Hk Hrm.
  now apply eliminar_antiguos_con_fallo.
Qed.

Lemma eliminar_antiguos_fallo_witness :
  Files.eliminar_antiguos "/local/c4" "z" Ejemplos.mundo_ejemplo =
  (Ok 0, {| fs := Ejemplos.fs_ejemplo;
            traza := [Log ERROR (ErrorEliminando "/local/c4" OSError)] |}).
Proof.
  rewrite (eliminar_antiguos_fallo
             Ejemplos.mundo_ejemplo "/local/c4" "z" ["local"; "c4"]
             [] [("y", Ejemplos.fichero)] "x" 1%Z).
  - reflexivity.
  - reflexivity.
  - reflexivity.
  - reflexivity.
  - discriminate.
  - intros k0 sz0 r [].
Defined.

End PruneFacts.

(* ================================================================= *)
(** ** Folders that change, trees that stay *)

Module TreeFacts.
Import FS FSFacts Efectos Propiedades DiscoveryFacts PruneFacts.

Lemma update_entry_names (c : string) (g : node -> node)
      (es : list (string * node)) :
  map fst (update_entry c g es) = map fst es.
Proof.
  induction es as [|[k m] es IH]; [reflexivity|]. simpl.
  destruct (k =? c); simpl; [reflexivity|now rewrite IH].
Qed.

Lemma update_at_Dir (es : list (string * node)) (loc : list string)
      (f : list (string * node) -> list (string * node)) :
  exists es', update_at (Dir es) loc f = Dir es'.
Proof. destruct loc; simpl; eauto. Qed.

(** Rewriting a child directory neither adds nor removes a regular file
    of the folder. *)
Lemma update_entry_files (c : string) (g : node -> node)
      (es : list (string * node)) (d : list (string * node)) :
  assoc c es = Some (Dir d) ->
  (exists d', g (Dir d) = Dir d') ->
  forall k sz r,
    In (k, File sz r) (update_entry c g es) <-> In (k, File sz r) es.
Proof.
  intros Ha [d' Hg] k sz r.
  induction es as [|[k' m] es IH]; [reflexivity|]. simpl in Ha |- *.
  destruct (k' =? c) eqn:E.
  - injection Ha as ->. rewrite Hg. simpl. split.
    + intros [H|H]; [discriminate H|now right].
    + intros [H|H]; [discriminate H|now right].
  - simpl. rewrite (IH Ha). reflexivity.
Qed.

Lemma lookup_Dir_prefix (n : node) (c : string) (l : list string)
      (x : list (string * node)) :
  lookup n (c :: l) = Some (Dir x) ->
  exists es m, n = Dir es /\ assoc c es = Some m /\ lookup m l = Some (Dir x)
               /\ is_dir (Some m) = true.
Proof.
  simpl. destruct n as [| es |]; try discriminate.
  destruct (assoc c es) as [m|] eqn:E; [|discriminate].
  intros H. exists es, m. repeat split; try assumption.
  destruct l; simpl in H.
  - now injection H as ->.
  - now destruct m.
Qed.

Section Cambio.

Variables (es es' : list (string * node)).
Hypothesis Hcarpetas : mismas_carpetas es es'.

(** Replacing the entries of a folder by entries with the same directories
    changes no directory of the tree. *)
Lemma is_dir_update (loc : list string) :
  forall r l,
    lookup r loc = Some (Dir es) ->
    is_dir (lookup (update_at r loc (fun _ => es')) l) = is_dir (lookup r l).
Proof.
  induction loc as [|c0 loc IH]; intros r l Hd.
  - simpl in Hd. injection Hd as ->. simpl.
    destruct l as [|c l]; [reflexivity|]. simpl.
    destruct (Hcarpetas c) as [H1 H2].
    destruct (assoc c es) as [[| d |]|] eqn:E.
    + destruct (assoc c es') as [[| |]|]; try discriminate; now destruct l.
    + now rewrite (H2 eq_refl).
    + destruct (assoc c es') as [[| |]|]; try discriminate; now destruct l.
    + destruct (assoc c es') as [[| |]|]; try discriminate; now destruct l.
  - destruct (lookup_Dir_prefix r c0 loc es Hd) as (es0 & m0 & -> & Ha & Hm & _).
    rewrite update_at_cons. destruct l as [|c l]; [reflexivity|]. simpl.
    rewrite assoc_update_entry. destruct (c =? c0) eqn:E; [|reflexivity].
    apply String.eqb_eq in E. subst c. rewrite Ha. simpl. now apply IH.
Qed.

(** ... and, away from that folder, leaves every folder its names and its
    regular files. *)
Lemma lookup_update_otro (loc : list string) :
  forall r l x',
    lookup r loc = Some (Dir es) ->
    lookup (update_at r loc (fun _ => es')) l = Some (Dir x') ->
    exists x,
      lookup r l = Some (Dir x) /\ (l <> loc -> mismas_entradas x x').
Proof.
  induction loc as [|c0 loc IH]; intros r l x' Hd Hl.
  - simpl in Hd. injection Hd as ->. simpl in Hl.
    destruct l as [|c l].
    + exists es. split; [reflexivity|]. congruence.
    + destruct (lookup_Dir_prefix _ _ _ _ Hl) as (? & m & [= <-] & Ha & Hm & Hdir).
      destruct (Hcarpetas c) as [H1 H2].
      rewrite Ha in H1. rewrite Hdir in H1. symmetry in H1.
      specialize (H2 H1). rewrite Ha in H2.
      exists x'. split.
      * simpl. now rewrite <- H2.
      * intros _. split; [reflexivity|tauto].
  - destruct (lookup_Dir_prefix r c0 loc es Hd) as (es0 & m0 & -> & Ha & Hm & Hdir).
    rewrite update_at_cons in Hl. destruct l as [|c l].
    + simpl in Hl. injection Hl as <-. exists es0. split; [reflexivity|].
      intros _. split; [apply update_entry_names|].
      destruct m0 as [| d |]; try discriminate.
      apply (update_entry_files c0 _ es0 d Ha). apply update_at_Dir.
    + simpl in Hl |- *. rewrite assoc_update_entry in Hl.
      destruct (c =? c0) eqn:E.
      * apply String.eqb_eq in E. subst c. rewrite Ha in Hl |- *. simpl in Hl.
        destruct (IH m0 l x' Hm Hl) as (x & Hx & Hne).
        exists x. split; [exact Hx|]. intros H. apply Hne. congruence.
      * exists x'. split; [exact Hl|]. intros _. split; [reflexivity|tauto].
Qed.

End Cambio.

(** *** Well-formedness under a rewrite *)

Lemma Forall_update_entry (P : node -> Prop) (c : string) (g : node -> node)
      (es : list (string * node)) :
  Forall (fun e => P (snd e)) es ->
  (forall m, assoc c es = Some m -> P (g m)) ->
  Forall (fun e => P (snd e)) (update_entry c g es).
Proof.
  induction es as [|[k m] es IH]; intros H Hg; [constructor|].
  inversion H as [|? ? Hm Hes]; subst. simpl in Hg |- *.
  destruct (k =? c) eqn:E.
  - constructor; [|exact Hes]. simpl. now apply Hg.
  - constructor; [exact Hm|]. now apply IH.
Qed.

Lemma wf_update (loc : list string) (es es' : list (string * node)) :
  forall r,
    wf_node r = true ->
    lookup r loc = Some (Dir es) ->
    wf_node (Dir es') = true ->
    wf_node (update_at r loc (fun _ => es')) = true.
Proof.
  induction loc as [|c0 loc IH]; intros r Hwf Hd Hes'.
  - simpl in Hd. injection Hd as ->. exact Hes'.
  - destruct (lookup_Dir_prefix r c0 loc es Hd) as (es0 & m0 & -> & Ha & Hm & _).
    rewrite update_at_cons. apply wf_node_Dir.
    apply wf_node_Dir in Hwf as (Hp & Hn & Hc).
    rewrite update_entry_names. repeat split; try assumption.
    apply (Forall_update_entry (fun m => wf_node m = true)); [exact Hc|].
    intros m Hm'. rewrite Ha in Hm'. injection Hm' as <-.
    apply IH; try assumption.
    rewrite Forall_forall in Hc. apply (Hc (c0, m0)). now apply assoc_In.
Qed.

Lemma assoc_filter (p : string * node -> bool) (c : string)
      (es : list (string * node)) :
  NoDup (map fst es) ->
  assoc c (filter p es) =
  match assoc c es with
  | Some m => if p (c, m) then Some m else None
  | None => None
  end.
Proof.
  induction es as [|[k m] es IH]; intros Hnd; [reflexivity|].
  inversion Hnd as [|? ? Hk Hnd']; subst. simpl.
  destruct (k =? c) eqn:E.
  - apply String.eqb_eq in E. subst k.
    destruct (p (c, m)); simpl.
    + now rewrite String.eqb_refl.
    + rewrite (IH Hnd').
      destruct (assoc c es) as [m'|] eqn:E'; [|reflexivity].
      exfalso. apply Hk. apply assoc_In in E'. now apply (in_map fst) in E'.
  - destruct (p (k, m)); simpl; [rewrite E|]; now apply IH.
Qed.

Lemma mismas_carpetas_filter (p : string * node -> bool) (u : string)
      (es : list (string * node)) :
  NoDup (map fst es) ->
  (forall e, conservado u e = true -> p e = true) ->
  mismas_carpetas es (filter p es).
Proof.
  intros Hnd Hp c. rewrite (assoc_filter _ c es Hnd).
  destruct (assoc c es) as [[sz r| d |]|]; try (now split).
  - destruct (p (c, File sz r)); now split.
  - now rewrite (Hp (c, Dir d) eq_refl).
  - destruct (p (c, Other)); now split.
Qed.

(** Two folders with the same names and the same regular files are stable
    together. *)
Lemma find_mismas_entradas (u : string) (x : list (string * node)) :
  forall x',
    NoDup (map fst x) -> mismas_entradas x x' ->
    find (obsoleto u) x' = find (obsoleto u) x.
Proof.
  induction x as [|[k n] x IH]; intros [|[k' n'] x'] Hnd [Hn Hf];
    try discriminate Hn; [reflexivity|].
  cbn [map fst] in Hn. injection Hn as -> Hn.
  inversion Hnd as [|? ? Hk Hnd']; subst.
  assert (Hk' : ~ In k (map fst x')) by now rewrite Hn.
  assert (Hcola : mismas_entradas x x').
  { split; [exact Hn|]. intros k0 sz r. split; intros HIn.
    - destruct (proj1 (Hf k0 sz r) (or_intror HIn)) as [H|H]; [|exact H].
      injection H as -> _. destruct Hk'.
      now apply (in_map fst) in HIn.
    - destruct (proj2 (Hf k0 sz r) (or_intror HIn)) as [H|H]; [|exact H].
      injection H as -> _. destruct Hk.
      now apply (in_map fst) in HIn. }
  assert (Hcabeza : obsoleto u (k, n') = obsoleto u (k, n)
                    /\ (obsoleto u (k, n) = true -> n' = n)).
  { destruct n as [sz r| d |].
    - destruct (proj2 (Hf k sz r) (or_introl eq_refl)) as [H|H].
      + injection H as ->. now split.
      + destruct Hk'. now apply (in_map fst) in H.
    - unfold obsoleto. cbn [fst snd]. destruct n' as [sz r| d' |].
      + destruct (proj1 (Hf k sz r) (or_introl eq_refl)) as [H|H];
          [discriminate H|].
        destruct Hk. now apply (in_map fst) in H.
      + now split.
      + now split.
    - unfold obsoleto. cbn [fst snd]. destruct n' as [sz r| d' |].
      + destruct (proj1 (Hf k sz r) (or_introl eq_refl)) as [H|H];
          [discriminate H|].
        destruct Hk. now apply (in_map fst) in H.
      + now split.
      + now split. }
  destruct Hcabeza as [Ho Hig]. cbn [find]. rewrite Ho.
  destruct (obsoleto u (k, n)) eqn:E.
  - now rewrite (Hig eq_refl).
  - now apply IH.
Qed.

Lemma estable_mismas_entradas (u : string) (x x' : list (string * node)) :
  NoDup (map fst x) -> mismas_entradas x x' -> estable u x -> estable u x'.
Proof.
  intros Hnd Hm. unfold estable. now rewrite (find_mismas_entradas u x x' Hnd Hm).
Qed.

Lemma NoDup_map_filter (p : string * node -> bool) (es : list (string * node)) :
  NoDup (map fst es) -> NoDup (map fst (filter p es)).
Proof.
  induction es as [|e es IH]; intros H; [constructor|].
  inversion H as [|? ? Hk Hnd]; subst. simpl.
  destruct (p e); [|now apply IH]. simpl. constructor; [|now apply IH].
  intros HIn. apply Hk. apply in_map_iff in HIn as (e' & He' & HIn).
  apply filter_In in HIn as [HIn _]. rewrite <- He'. now apply in_map.
Qed.

Lemma wf_filter (p : string * node -> bool) (es : list (string * node)) :
  wf_node (Dir es) = true -> wf_node (Dir (filter p es)) = true.
Proof.
  intros H. apply wf_node_Dir in H as (Hp & Hn & Hc). apply wf_node_Dir.
  repeat split.
  - rewrite Forall_forall in *. intros k Hk. apply Hp.
    apply in_map_iff in Hk as (e & <- & He). apply filter_In in He as [He _].
    now apply in_map.
  - now apply NoDup_map_filter.
  - rewrite Forall_forall in *. intros e He. apply Hc.
    now apply filter_In in He as [He _].
Qed.

Lemma assoc_snoc (c k : string) (m : node) (es : list (string * node)) :
  assoc c (es ++ [(k, m)]) =
  match assoc c es with
  | Some n => Some n
  | None => if k =? c then Some m else None
  end.
Proof.
  induction es as [|[k' m'] es IH]; simpl; [reflexivity|].
  destruct (k' =? c); [reflexivity|exact IH].
Qed.

Lemma assoc_None_not_In (c : string) (es : list (string * node)) :
  assoc c es = None <-> ~ In c (map fst es).
Proof.
  split.
  - intros H HIn. apply In_fst_assoc in HIn as [nd E]. congruence.
  - intros H. destruct (assoc c es) as [m|] eqn:E; [|reflexivity].
    exfalso. apply H. apply assoc_In in E. now apply (in_map fst) in E.
Qed.

Lemma NoDup_snoc (k : string) (l : list string) :
  NoDup l -> ~ In k l -> NoDup (l ++ [k]).
Proof.
  induction l as [|x l IH]; intros Hn Hk; simpl.
  - repeat constructor. intros [].
  - inversion Hn as [|? ? Hx Hn']; subst. constructor.
    + intros HIn. apply in_app_or in HIn as [HIn|[->|[]]]; [tauto|].
      apply Hk. now left.
    + apply IH; [exact Hn'|]. intros HIn. apply Hk. now right.
Qed.

Lemma mismas_carpetas_snoc (k : string) (sz : Z) (r : bool)
      (es : list (string * node)) :
  assoc k es = None ->
  mismas_carpetas es (es ++ [(k, File sz r)]).
Proof.
  intros Hk c. rewrite assoc_snoc.
  destruct (assoc c es) as [m|] eqn:E; [now split|].
  destruct (k =? c); now split.
Qed.

Lemma wf_snoc (k : string) (sz : Z) (r : bool) (es : list (string * node)) :
  wf_node (Dir es) = true -> plain_name k = true -> assoc k es = None ->
  wf_node (Dir (es ++ [(k, File sz r)])) = true.
Proof.
  intros H Hk Ha. apply wf_node_Dir in H as (Hp & Hn & Hc). apply wf_node_Dir.
  rewrite map_app. cbn [map fst]. repeat split.
  - apply Forall_app. split; [exact Hp|now repeat constructor].
  - apply NoDup_snoc; [exact Hn|now apply assoc_None_not_In].
  - apply Forall_app. split; [exact Hc|now repeat constructor].
Qed.

Lemma mismas_carpetas_refl (es : list (string * node)) : mismas_carpetas es es.
Proof. intros c. now split. Qed.

Lemma mismas_carpetas_trans (es es1 es2 : list (string * node)) :
  mismas_carpetas es es1 -> mismas_carpetas es1 es2 -> mismas_carpetas es es2.
Proof.
  intros H1 H2 c. destruct (H1 c) as [A1 B1], (H2 c) as [A2 B2]. split.
  - congruence.
  - intros H. rewrite <- (B1 H). apply B2. congruence.
Qed.

Lemma con_entradas_misma (f : filesystem) (loc : list string)
      (es : list (string * node)) :
  lookup (root f) loc = Some (Dir es) -> con_entradas f loc es = f.
Proof.
  intros Hd. unfold con_entradas. rewrite (update_at_same _ _ _ Hd).
  now destruct f.
Qed.

Lemma con_entradas_dos (f : filesystem) (loc : list string)
      (es1 es2 : list (string * node)) :
  con_entradas (con_entradas f loc es1) loc es2 = con_entradas f loc es2.
Proof. unfold con_entradas. cbn [root cwd]. now rewrite update_at_update_at. Qed.

Lemma lookup_con_entradas (f : filesystem) (loc : list string)
      (es es' : list (string * node)) :
  lookup (root f) loc = Some (Dir es) ->
  lookup (root (con_entradas f loc es')) loc = Some (Dir es').
Proof.
  intros Hd. unfold con_entradas. cbn [root].
  now rewrite (lookup_update_at _ _ _ _ Hd).
Qed.

(** *** Where the terminal folders are *)

Lemma locate_join_many (f : filesystem) (cs : list string) :
  forall base bl n m,
    locate f base = Some bl ->
    lookup (root f) bl = Some n ->
    lookup n cs = Some m ->
    Forall (fun c => plain_name c = true) cs ->
    locate f (PosixPath.join_many base cs) = Some (bl ++ cs)
    /\ lookup (root f) (bl ++ cs) = Some m.
Proof.
  induction cs as [|c cs IH]; intros base bl n m Hb Hn Hm Hcs.
  - simpl in Hm. injection Hm as <-. rewrite app_nil_r. now split.
  - inversion Hcs as [|? ? Hc Hcs']; subst.
    simpl in Hm. destruct n as [| es |]; try discriminate.
    destruct (assoc c es) as [n'|] eqn:E; [|discriminate].
    cbn [PosixPath.join_many fold_left].
    fold (PosixPath.join_many (PosixPath.join base c) cs).
    destruct (IH (PosixPath.join base c) (bl ++ [c]) n' m) as [H1 H2];
      try assumption.
    + now apply (locate_in_folder f base c bl es).
    + now rewrite lookup_snoc, Hn.
    + rewrite <- app_assoc in H1, H2. now split.
Qed.

Lemma carpeta_terminal (f : filesystem) (base carpeta : string) :
  wf f = true ->
  In carpeta (Files.listar_subcarpetas f base) ->
  exists bl cs es,
    locate f base = Some bl
    /\ carpeta = PosixPath.join_many base cs
    /\ locate f carpeta = Some (bl ++ cs)
    /\ lookup (root f) (bl ++ cs) = Some (Dir es)
    /\ sin_subcarpetas es.
Proof.
  intros Hwf HIn.
  apply (In_listar_subcarpetas f base carpeta Hwf) in HIn
    as (n & cs & es & Hst & Hl & Hs & ->).
  unfold stat in Hst. destruct (locate f base) as [bl|] eqn:Hb; [|discriminate].
  assert (Hn : wf_node n = true).
  { unfold wf in Hwf. apply andb_true_iff in Hwf as [Hwf _].
    now apply (wf_node_lookup _ _ _ Hwf Hst). }
  destruct (locate_join_many f cs base bl n (Dir es) Hb Hst Hl
              (lookup_plain n _ cs Hn Hl)) as [H1 H2].
  exists bl, cs, es. now repeat split.
Qed.

(** Two terminal folders at the same place are the same path. *)
Lemma carpeta_terminal_inj (f : filesystem) (base c1 c2 : string)
      (loc : list string) :
  wf f = true ->
  In c1 (Files.listar_subcarpetas f base) ->
  In c2 (Files.listar_subcarpetas f base) ->
  locate f c1 = Some loc -> locate f c2 = Some loc -> c1 = c2.
Proof.
  intros Hwf H1 H2 L1 L2.
  destruct (carpeta_terminal f base c1 Hwf H1) as (bl & cs1 & _ & Hb & -> & E1 & _).
  destruct (carpeta_terminal f base c2 Hwf H2) as (bl' & cs2 & _ & Hb' & -> & E2 & _).
  rewrite Hb in Hb'. injection Hb' as <-.
  rewrite L1 in E1. rewrite L2 in E2. injection E1 as ->.
  injection E2 as E2. apply app_inv_head in E2. now subst.
Qed.

Lemma locate_estructura (f f' : filesystem) (path : string) :
  misma_estructura f f' -> locate f' path = locate f path.
Proof.
  intros [Hc Hd]. unfold locate. rewrite Hc.
  destruct (path =? ""); [reflexivity|]. now apply fold_step_loc_ext.
Qed.

(** The terminal folders depend on the directories alone. *)
Lemma listar_misma_estructura (f f' : filesystem) (base p : string) :
  wf f = true -> wf f' = true -> misma_estructura f f' ->
  In p (Files.listar_subcarpetas f' base) ->
  In p (Files.listar_subcarpetas f base).
Proof.
  intros Hwf Hwf' He HIn.
  destruct (carpeta_terminal f' base p Hwf' HIn)
    as (bl & cs & es' & Hb & -> & _ & Hd' & Hs').
  rewrite (locate_estructura f f' base He) in Hb.
  destruct He as [_ He].
  pose proof (He (bl ++ cs)) as Hdir. rewrite Hd' in Hdir.
  destruct (lookup (root f) (bl ++ cs)) as [[| es |]|] eqn:Hd; try discriminate.
  rewrite lookup_app in Hd.
  destruct (lookup (root f) bl) as [n|] eqn:Hn; [|discriminate].
  apply (In_listar_subcarpetas f base _ Hwf).
  exists n, cs, es. unfold stat. rewrite Hb. repeat split; try assumption.
  intros name child HIn'.
  assert (Hwfes : wf_node (Dir es) = true).
  { unfold wf in Hwf. apply andb_true_iff in Hwf as [Hwf _].
    apply (wf_node_lookup _ _ _ Hwf) in Hn.
    now apply (wf_node_lookup _ _ _ Hn) in Hd. }
  apply wf_node_Dir in Hwfes as (_ & Hnd & _).
  pose proof (In_assoc name es child Hnd HIn') as Ha.
  pose proof (He ((bl ++ cs) ++ [name])) as Hx.
  rewrite !lookup_snoc, Hd' in Hx.
  rewrite lookup_app, Hn, Hd, Ha in Hx. rewrite <- Hx.
  destruct (assoc name es') as [child'|] eqn:Ha'; [|reflexivity].
  apply (Hs' name child'). now apply assoc_In.
Qed.

End TreeFacts.

(* ================================================================= *)
(** ** The loop of [main] *)

Module MainFacts.
Import FS FSFacts Efectos Main Propiedades.

Section Pasada.

Variable Credenciales : Type.
Variable Listar : Credenciales -> string -> resultado (bool * list descriptor).
Variable Descargar :
  Credenciales -> string -> string -> string ->
  filesystem -> resultado (bool * string) * filesystem.
Variable credenciales : Credenciales.
Variable cfg : config.

Let procesar := procesar_carpeta Credenciales Listar Descargar credenciales cfg.

Variables (base_dir carpeta_local : string).

Ltac desplegar :=
  unfold procesar, procesar_carpeta, construir_ruta_remota;
  unfold registrar, listar, descargar, eliminar;
  unfold try_except, bind, on_world, leer, log, emitir, modify,
         modify_locals, raise, ret;
  cbn [fst snd fs traza].

Lemma pasada_sin_ruta (w : mundo) (c : contadores) :
  ruta_remota_de (getcwd (fs w)) cfg base_dir carpeta_local = None ->
  procesar base_dir carpeta_local (w, c) =
  (Ok tt,
   (anotado w [Log ERROR (ErrorProcesando carpeta_local ValueError)],
    sumar_error c)).
Proof. intros Hr. desplegar. rewrite Hr. reflexivity. Qed.

Section ConRuta.

Variable ruta_remota : string.
Variables (w : mundo) (c : contadores).
Hypothesis Hruta :
  ruta_remota_de (getcwd (fs w)) cfg base_dir carpeta_local = Some ruta_remota.

Lemma pasada_listado_excepcion (e : excepcion) :
  Listar credenciales ruta_remota = Raise e ->
  procesar base_dir carpeta_local (w, c) =
  (Ok tt,
   (anotado w [Log INFO (ProcesandoCarpeta carpeta_local ruta_remota);
               LlamadaListar ruta_remota;
               Log ERROR (ErrorProcesando carpeta_local e)],
    sumar_error c)).
Proof.
  intros Hl. desplegar. rewrite Hruta. cbn. rewrite Hl. cbn.
  unfold anotado. now rewrite <- !app_assoc.
Qed.

Lemma pasada_listado_fallido (archivos : list descriptor) :
  Listar credenciales ruta_remota = Ok (false, archivos) ->
  procesar base_dir carpeta_local (w, c) =
  (Ok tt,
   (anotado w [Log INFO (ProcesandoCarpeta carpeta_local ruta_remota);
               LlamadaListar ruta_remota;
               Log WARNING (NoSePudoListar ruta_remota)],
    sumar_error c)).
Proof.
  intros Hl. desplegar. rewrite Hruta. cbn. rewrite Hl. cbn.
  unfold anotado. now rewrite <- !app_assoc.
Qed.

Lemma pasada_listado_vacio :
  Listar credenciales ruta_remota = Ok (true, []) ->
  procesar base_dir carpeta_local (w, c) =
  (Ok tt,
   (anotado w [Log INFO (ProcesandoCarpeta carpeta_local ruta_remota);
               LlamadaListar ruta_remota;
               Log INFO (NoHayArchivosRemotos ruta_remota)],
    c)).
Proof.
  intros Hl. desplegar. rewrite Hruta. cbn. rewrite Hl. cbn.
  unfold anotado. now rewrite <- !app_assoc.
Qed.

Section ConArchivo.

Variables (archivo_reciente : descriptor) (resto : list descriptor).
Hypothesis Hlistado :
  Listar credenciales ruta_remota = Ok (true, archivo_reciente :: resto).

Let nombre_fichero := nombre archivo_reciente.
Let destino_local := PosixPath.join carpeta_local nombre_fichero.

Lemma pasada_ya_existe (n : nat) (w2 : mundo) :
  os_path_exists (fs w) destino_local = true ->
  Files.eliminar_antiguos carpeta_local nombre_fichero
    (anotado w ((cabecera carpeta_local ruta_remota archivo_reciente)
                ++ [Log INFO (YaExisteLocalmente nombre_fichero);
                    LlamadaEliminarAntiguos carpeta_local nombre_fichero]))
  = (Ok n, w2) ->
  procesar base_dir carpeta_local (w, c) =
  (Ok tt, (anotado w2 [aviso_eliminados n carpeta_local], sumar_eliminados n c)).
Proof.
  intros He Hp. desplegar. rewrite Hruta. cbn [fst snd fs traza].
  rewrite Hlistado. cbn [negb archivo_mas_reciente fst snd fs traza].
  fold nombre_fichero. fold destino_local. rewrite He. cbn [fst snd fs traza].
  unfold anotado, cabecera in Hp. fold nombre_fichero in Hp. cbn [fs traza app] in Hp.
  rewrite <- !app_assoc. cbn [app]. rewrite Hp. cbn [fst snd].
  unfold anotado, aviso_eliminados. now destruct (0 <? n)%nat.
Qed.

Lemma pasada_descargado (ruta_descargada : string) (fs1 : filesystem)
      (n : nat) (w2 : mundo) :
  os_path_exists (fs w) destino_local = false ->
  Descargar credenciales nombre_fichero ruta_remota destino_local (fs w)
  = (Ok (true, ruta_descargada), fs1) ->
  Files.eliminar_antiguos carpeta_local nombre_fichero
    {| fs := fs1;
       traza := traza w ++ (cabecera carpeta_local ruta_remota archivo_reciente)
                ++ [LlamadaDescargar nombre_fichero ruta_remota destino_local;
                    Log INFO (DescargadoCorrectamente nombre_fichero ruta_descargada);
                    LlamadaEliminarAntiguos carpeta_local nombre_fichero] |}
  = (Ok n, w2) ->
  procesar base_dir carpeta_local (w, c) =
  (Ok tt,
   (anotado w2 [aviso_eliminados n carpeta_local],
    sumar_eliminados n (sumar_descarga (size archivo_reciente) c))).
Proof.
  intros He Hd Hp. desplegar. rewrite Hruta. cbn [fst snd fs traza].
  rewrite Hlistado. cbn [negb archivo_mas_reciente fst snd fs traza].
  fold nombre_fichero. fold destino_local. rewrite He. cbn [fst snd fs traza].
  rewrite Hd. cbn [fst snd fs traza].
  unfold cabecera in Hp. fold nombre_fichero in Hp. cbn [app] in Hp.
  rewrite <- !app_assoc. cbn [app]. rewrite Hp. cbn [fst snd].
  unfold anotado, aviso_eliminados. now destruct (0 <? n)%nat.
Qed.

Lemma pasada_descarga_fallida (ruta_descargada : string) (fs1 : filesystem)
      (n : nat) (w2 : mundo) :
  os_path_exists (fs w) destino_local = false ->
  Descargar credenciales nombre_fichero ruta_remota destino_local (fs w)
  = (Ok (false, ruta_descargada), fs1) ->
  Files.eliminar_antiguos carpeta_local nombre_fichero
    {| fs := fs1;
       traza := traza w ++ (cabecera carpeta_local ruta_remota archivo_reciente)
                ++ [LlamadaDescargar nombre_fichero ruta_remota destino_local;
                    Log WARNING (NoSePudoDescargar nombre_fichero);
                    LlamadaEliminarAntiguos carpeta_local nombre_fichero] |}
  = (Ok n, w2) ->
  procesar base_dir carpeta_local (w, c) =
  (Ok tt, (anotado w2 [aviso_eliminados n carpeta_local], sumar_eliminados n c)).
Proof.
  intros He Hd Hp. desplegar. rewrite Hruta. cbn [fst snd fs traza].
  rewrite Hlistado. cbn [negb archivo_mas_reciente fst snd fs traza].
  fold nombre_fichero. fold destino_local. rewrite He. cbn [fst snd fs traza].
  rewrite Hd. cbn [fst snd fs traza].
  unfold cabecera in Hp. fold nombre_fichero in Hp. cbn [app] in Hp.
  rewrite <- !app_assoc. cbn [app]. rewrite Hp. cbn [fst snd].
  unfold anotado, aviso_eliminados. now destruct (0 <? n)%nat.
Qed.

Lemma pasada_descarga_excepcion (e : excepcion) (fs1 : filesystem) :
  os_path_exists (fs w) destino_local = false ->
  Descargar credenciales nombre_fichero ruta_remota destino_local (fs w)
  = (Raise e, fs1) ->
  procesar base_dir carpeta_local (w, c) =
  (Ok tt,
   ({| fs := fs1;
       traza := traza w ++ (cabecera carpeta_local ruta_remota archivo_reciente)
                ++ [LlamadaDescargar nombre_fichero ruta_remota destino_local;
                    Log ERROR (ErrorProcesando carpeta_local e)] |},
    sumar_error c)).
Proof.
  intros He Hd. desplegar. rewrite Hruta. cbn [fst snd fs traza].
  rewrite Hlistado. cbn [negb archivo_mas_reciente fst snd fs traza].
  fold nombre_fichero. fold destino_local. rewrite He. cbn [fst snd fs traza].
  rewrite Hd. cbn [fst snd fs traza].
  unfold cabecera. fold nombre_fichero. now rewrite <- !app_assoc.
Qed.

End ConArchivo.
End ConRuta.


(** C3.  When the download adapter is called and answers [ok = false], the
    pass logs the warning of line 148 and goes on to call the pruner on the
    same folder with the name of the newest remote file, on the disk as the
    download left it; the pass ends normally, the deletions are added to
    their counter, and the counter of folders with errors, like the two
    download counters, keeps its value. *)
Theorem descarga_fallida_no_impide_poda
        (ruta_remota : string) (w : mundo) (c : contadores)
        (archivo_reciente : descriptor) (resto : list descriptor)
        (ruta_descargada : string) (fs1 : filesystem) :
  ruta_remota_de (getcwd (fs w)) cfg base_dir carpeta_local = Some ruta_remota ->
  Listar credenciales ruta_remota = Ok (true, archivo_reciente :: resto) ->
  os_path_exists (fs w) (PosixPath.join carpeta_local (nombre archivo_reciente))
  = false ->
  Descargar credenciales (nombre archivo_reciente) ruta_remota
            (PosixPath.join carpeta_local (nombre archivo_reciente)) (fs w)
  = (Ok (false, ruta_descargada), fs1) ->
  exists (eliminados : nat) (w2 : mundo),
    Files.eliminar_antiguos carpeta_local (nombre archivo_reciente)
      {| fs := fs1;
         traza := traza w
           ++ [Log INFO (ProcesandoCarpeta carpeta_local ruta_remota);
               LlamadaListar ruta_remota;
               Log INFO (ArchivoMasReciente (nombre archivo_reciente)
                                            (size archivo_reciente));
               LlamadaDescargar (nombre archivo_reciente) ruta_remota
                 (PosixPath.join carpeta_local (nombre archivo_reciente));
               Log WARNING (NoSePudoDescargar (nombre archivo_reciente));
               LlamadaEliminarAntiguos carpeta_local (nombre archivo_reciente)] |}
    = (Ok eliminados, w2)
    /\ procesar base_dir carpeta_local (w, c) =
       (Ok tt,
        (anotado w2 [aviso_eliminados eliminados carpeta_local],
         {| total_descargados := total_descargados c;
            total_bytes_descargados := total_bytes_descargados c;
            total_eliminados := total_eliminados c + eliminados;
            carpetas_con_error := carpetas_con_error c |})).
Proof.
  intros Hr Hl He Hd.
  edestruct (PruneFacts.eliminar_antiguos_total
               carpeta_local (nombre archivo_reciente))
    as (n & w2 & _ & Hp & _).
  exists n, w2. split; [exact Hp|].
  exact (pasada_descarga_fallida ruta_remota w c Hr archivo_reciente resto Hl
           ruta_descargada fs1 n w2 He Hd Hp).
Qed.


(** C5.  When the listing of a folder answers [ok = false], the pass logs
    the warning, adds exactly one to the counter of folders with errors and
    nothing to the others, leaves the disk as it was, calls neither the
    download nor the pruner, and the loop goes on with the next folder. *)
Theorem listado_fallido_cuenta_error
        (ruta_remota : string) (w : mundo) (c : contadores)
        (archivos : list descriptor)
        (siguientes : list string) :
  ruta_remota_de (getcwd (fs w)) cfg base_dir carpeta_local = Some ruta_remota ->
  Listar credenciales ruta_remota = Ok (false, archivos) ->
  procesar_carpetas Credenciales Listar Descargar credenciales cfg
                    base_dir (carpeta_local :: siguientes) (w, c) =
  procesar_carpetas Credenciales Listar Descargar credenciales cfg
                    base_dir siguientes
    ({| fs := fs w;
        traza := traza w
          ++ [Log INFO (ProcesandoCarpeta carpeta_local ruta_remota);
              LlamadaListar ruta_remota;
              Log WARNING (NoSePudoListar ruta_remota)] |},
     {| total_descargados := total_descargados c;
        total_bytes_descargados := total_bytes_descargados c;
        total_eliminados := total_eliminados c;
        carpetas_con_error := carpetas_con_error c + 1 |}).
Proof.
  intros Hr Hl. unfold procesar_carpetas. cbn [for_each]. unfold bind at 1.
  fold procesar.
  now rewrite (pasada_listado_fallido ruta_remota w c Hr archivos Hl).
Qed.

(** C6.  The newest file is element 0 of the listing, and there is none in
    an empty listing.  Over a listing that succeeds with no file the pass
    logs that and ends: no download, no pruning, the disk and every counter
    as they were.  Over one that is not empty, the file the pass goes on
    with is element 0. *)
Theorem seleccion_del_mas_reciente
        (ruta_remota : string) (w : mundo) (c : contadores) :
  (forall archivos, archivo_mas_reciente archivos = nth_error archivos 0)
  /\ (ruta_remota_de (getcwd (fs w)) cfg base_dir carpeta_local = Some ruta_remota ->
      Listar credenciales ruta_remota = Ok (true, []) ->
      procesar base_dir carpeta_local (w, c) =
      (Ok tt,
       ({| fs := fs w;
           traza := traza w
             ++ [Log INFO (ProcesandoCarpeta carpeta_local ruta_remota);
                 LlamadaListar ruta_remota;
                 Log INFO (NoHayArchivosRemotos ruta_remota)] |},
        c)))
  /\ (forall archivo_reciente resto,
      ruta_remota_de (getcwd (fs w)) cfg base_dir carpeta_local = Some ruta_remota ->
      Listar credenciales ruta_remota = Ok (true, archivo_reciente :: resto) ->
      exists (w2 : mundo) (c2 : contadores) (evs : list evento),
        procesar base_dir carpeta_local (w, c) = (Ok tt, (w2, c2))
        /\ traza w2 = traza w
             ++ [Log INFO (ProcesandoCarpeta carpeta_local ruta_remota);
                 LlamadaListar ruta_remota;
                 Log INFO (ArchivoMasReciente (nombre archivo_reciente)
                                              (size archivo_reciente))]
             ++ evs).
Proof.
  split; [|split].
  - now intros [|a l].
  - intros Hr Hl. now rewrite (pasada_listado_vacio ruta_remota w c Hr Hl).
  - intros a resto Hr Hl.
    destruct (os_path_exists (fs w) (PosixPath.join carpeta_local (nombre a)))
      eqn:He.
    + destruct (PruneFacts.eliminar_antiguos_total
                  carpeta_local (nombre a)
                  (anotado w (cabecera carpeta_local ruta_remota a
                              ++ [Log INFO (YaExisteLocalmente (nombre a));
                                  LlamadaEliminarAntiguos carpeta_local (nombre a)])))
        as (n & w2 & evs & Hp & Ht & _).
      rewrite (pasada_ya_existe ruta_remota w c Hr a resto Hl n w2 He Hp).
      eexists _, _, _. split; [reflexivity|].
      unfold anotado at 1. cbn [traza]. rewrite Ht. unfold anotado, cabecera.
      cbn [traza]. rewrite <- !app_assoc. cbn [app]. reflexivity.
    + destruct (Descargar credenciales (nombre a) ruta_remota
                          (PosixPath.join carpeta_local (nombre a)) (fs w))
        as [[[[|] p]|e] fs1] eqn:Hd.
      * destruct (PruneFacts.eliminar_antiguos_total
                    carpeta_local (nombre a)
                    {| fs := fs1;
                       traza := traza w ++ cabecera carpeta_local ruta_remota a
                         ++ [LlamadaDescargar (nombre a) ruta_remota
                               (PosixPath.join carpeta_local (nombre a));
                             Log INFO (DescargadoCorrectamente (nombre a) p);
                             LlamadaEliminarAntiguos carpeta_local (nombre a)] |})
          as (n & w2 & evs & Hp & Ht & _).
        rewrite (pasada_descargado ruta_remota w c Hr a resto Hl p fs1 n w2 He Hd Hp).
        eexists _, _, _. split; [reflexivity|].
        unfold anotado at 1. cbn [traza]. rewrite Ht. unfold cabecera.
        cbn [traza]. rewrite <- !app_assoc. cbn [app]. reflexivity.
      * destruct (PruneFacts.eliminar_antiguos_total
                    carpeta_local (nombre a)
                    {| fs := fs1;
                       traza := traza w ++ cabecera carpeta_local ruta_remota a
                         ++ [LlamadaDescargar (nombre a) ruta_remota
                               (PosixPath.join carpeta_local (nombre a));
                             Log WARNING (NoSePudoDescargar (nombre a));
                             LlamadaEliminarAntiguos carpeta_local (nombre a)] |})
          as (n & w2 & evs & Hp & Ht & _).
        rewrite (pasada_descarga_fallida ruta_remota w c Hr a resto Hl p fs1 n w2 He Hd Hp).
        eexists _, _, _. split; [reflexivity|].
        unfold anotado at 1. cbn [traza]. rewrite Ht. unfold cabecera.
        cbn [traza]. rewrite <- !app_assoc. cbn [app]. reflexivity.
      * rewrite (pasada_descarga_excepcion ruta_remota w c Hr a resto Hl e fs1 He Hd).
        eexists _, _, _. split; [reflexivity|].
        unfold cabecera. cbn [traza app]. reflexivity.
Qed.

(** *** A pass over a folder that is up to date *)

Lemma eliminar_antiguos_al_dia (w : mundo) (carpeta ultimo : string)
      (loc : list string) (es : list (string * node)) :
  wf (fs w) = true ->
  locate (fs w) carpeta = Some loc ->
  lookup (root (fs w)) loc = Some (Dir es) ->
  estable ultimo es ->
  exists evs,
    Files.eliminar_antiguos carpeta ultimo w = (Ok 0, anotado w evs)
    /\ Forall es_log evs.
Proof.
  intros Hwf Hl Hd Hes.
  destruct (PruneFacts.eliminar_antiguos_en_carpeta w carpeta ultimo loc es
                                                    Hwf Hl Hd)
    as (n & p & evs & Hp & _ & _ & Hlog & Hid).
  destruct (Hid Hes) as [-> Hf]. rewrite Hf in Hp.
  exists evs. split; [|exact Hlog].
  rewrite Hp. unfold anotado. now rewrite (TreeFacts.con_entradas_misma _ _ _ Hd).
Qed.


End Pasada.

Section Carrera.

Variable Credenciales : Type.
Variable Listar : Credenciales -> string -> resultado (bool * list descriptor).
Variable Descargar :
  Credenciales -> string -> string -> string ->
  filesystem -> resultado (bool * string) * filesystem.
Variable credenciales : Credenciales.
Variable cfg : config.



End Carrera.

(** *** The theorems on the example world *)

Import Ejemplos.

Lemma descarga_fallida_no_impide_poda_witness :
  exists (eliminados : nat) (w2 : mundo),
    Files.eliminar_antiguos "/local/c1" "b.csv"
      {| fs := fs_ejemplo;
         traza := [Log INFO (ProcesandoCarpeta "/local/c1" "/remote/c1");
                   LlamadaListar "/remote/c1";
                   Log INFO (ArchivoMasReciente "b.csv" 100);
                   LlamadaDescargar "b.csv" "/remote/c1" "/local/c1/b.csv";
                   Log WARNING (NoSePudoDescargar "b.csv");
                   LlamadaEliminarAntiguos "/local/c1" "b.csv"] |}
    = (Ok eliminados, w2)
    /\ procesar_carpeta unit listar_ejemplo descarga_fallida tt cfg_ejemplo
                        "/local" "/local/c1" (mundo_ejemplo, contadores_iniciales)
       = (Ok tt,
          (anotado w2 [aviso_eliminados eliminados "/local/c1"],
           {| total_descargados := 0; total_bytes_descargados := 0;
              total_eliminados := 0 + eliminados; carpetas_con_error := 0 |})).
Proof.
  exact (descarga_fallida_no_impide_poda
           unit listar_ejemplo descarga_fallida tt cfg_ejemplo
           "/local" "/local/c1" "/remote/c1" mundo_ejemplo contadores_iniciales
           (remoto "b.csv" 100 100) [remoto "a.csv" 5 50]
           "/local/c1/b.csv" fs_ejemplo
           eq_refl eq_refl eq_refl eq_refl).
Defined.


Lemma listado_fallido_cuenta_error_witness :
  procesar_carpetas unit listar_ejemplo descarga_fallida tt cfg_ejemplo
                    "/local" ["/local/c4"] (mundo_ejemplo, contadores_iniciales)
  = (Ok tt,
     ({| fs := fs_ejemplo;
         traza := [Log INFO (ProcesandoCarpeta "/local/c4" "/remote/c4");
                   LlamadaListar "/remote/c4";
                   Log WARNING (NoSePudoListar "/remote/c4")] |},
      {| total_descargados := 0; total_bytes_descargados := 0;
         total_eliminados := 0; carpetas_con_error := 1 |})).
Proof.
  exact (listado_fallido_cuenta_error
           unit listar_ejemplo descarga_fallida tt cfg_ejemplo
           "/local" "/local/c4" "/remote/c4" mundo_ejemplo contadores_iniciales
           [] [] eq_refl eq_refl).
Defined.

Lemma seleccion_del_mas_reciente_witness :
  procesar_carpeta unit listar_ejemplo descarga_fallida tt cfg_ejemplo
                   "/local" "/local/c3/sub" (mundo_ejemplo, contadores_iniciales)
  = (Ok tt,
     ({| fs := fs_ejemplo;
         traza := [Log INFO (ProcesandoCarpeta "/local/c3/sub" "/remote/c3/sub");
                   LlamadaListar "/remote/c3/sub";
                   Log INFO (NoHayArchivosRemotos "/remote/c3/sub")] |},
      contadores_iniciales)).
Proof.
  exact (proj1 (proj2 (seleccion_del_mas_reciente
                         unit listar_ejemplo descarga_fallida tt cfg_ejemplo
                         "/local" "/local/c3/sub" "/remote/c3/sub"
                         mundo_ejemplo contadores_iniciales))
               eq_refl eq_refl).
Defined.

End MainFacts.


(* ================================================================= *)
(** ** Two runs in a row *)

Module IdempotenceFacts.
Import FS FSFacts Efectos Main Propiedades DiscoveryFacts PruneFacts TreeFacts.

Lemma estructura_reescritura (f : filesystem) (loc : list string)
      (es es' : list (string * node)) :
  lookup (root f) loc = Some (Dir es) ->
  mismas_carpetas es es' ->
  misma_estructura f (con_entradas f loc es').
Proof.
  intros Hd Hc. split; [reflexivity|]. intros l.
  now apply (is_dir_update es es' Hc).
Qed.

Lemma conserva_reescritura (f0 f : filesystem) (loc : list string)
      (es es' : list (string * node)) :
  conserva f0 f ->
  lookup (root f) loc = Some (Dir es) ->
  mismas_carpetas es es' ->
  wf_node (Dir es') = true ->
  conserva f0 (con_entradas f loc es').
Proof.
  intros (Hwf & Hc0 & Hd0) Hd Hc Hwf'.
  unfold wf in Hwf. apply andb_true_iff in Hwf as [Hwf Hcwd].
  repeat split.
  - unfold wf, con_entradas. cbn [root cwd]. apply andb_true_iff. split.
    + now apply (wf_update loc es es').
    + exact Hcwd.
  - exact Hc0.
  - intros l. unfold con_entradas. cbn [root].
    rewrite (is_dir_update es es' Hc loc _ l Hd). apply Hd0.
Qed.

Lemma conserva_refl (f : filesystem) : wf f = true -> conserva f f.
Proof. intros H. repeat split; assumption. Qed.

Lemma wf_carpeta (f : filesystem) (loc : list string)
      (es : list (string * node)) :
  wf f = true -> lookup (root f) loc = Some (Dir es) ->
  wf_node (Dir es) = true.
Proof.
  intros Hwf Hd. unfold wf in Hwf. apply andb_true_iff in Hwf as [Hwf _].
  now apply (wf_node_lookup _ _ _ Hwf Hd).
Qed.

Section DosEjecuciones.

Variable Credenciales : Type.
Variable Listar : Credenciales -> string -> resultado (bool * list descriptor).
Variable Descargar :
  Credenciales -> string -> string -> string ->
  filesystem -> resultado (bool * string) * filesystem.
Variable credenciales : Credenciales.
Variable cfg : config.
Variable base_dir : string.

Let casi := casi_al_dia Credenciales Listar credenciales cfg base_dir.

(** A rewrite of one folder keeps what is known of the folders elsewhere. *)
Lemma casi_al_dia_reescritura (f : filesystem) (loc : list string)
      (es es' : list (string * node)) (y : string) :
  wf f = true ->
  lookup (root f) loc = Some (Dir es) ->
  mismas_carpetas es es' ->
  (forall loc_y, locate f y = Some loc_y -> loc_y <> loc) ->
  casi y f -> casi y (con_entradas f loc es').
Proof.
  intros Hwf Hd Hc Hy Hcasi ruta a resto Hr Hl.
  destruct (Hcasi ruta a resto Hr Hl) as (loc_y & es_y & Hly & Hdy & Himp).
  pose proof (estructura_reescritura f loc es es' Hd Hc) as He.
  pose proof (proj2 He loc_y) as Hdir. rewrite Hdy in Hdir.
  destruct (lookup (root (con_entradas f loc es')) loc_y)
    as [[| x' |]|] eqn:Hx'; try discriminate.
  destruct (lookup_update_otro es es' Hc loc (root f) loc_y x' Hd Hx')
    as (x & Hx & Hne).
  rewrite Hdy in Hx. injection Hx as <-.
  destruct (Hne (Hy loc_y Hly)) as [Hnames Hfiles].
  exists loc_y, x'. split; [|split].
  - now rewrite (locate_estructura f _ y He).
  - exact Hx'.
  - intros HIn. rewrite Hnames in HIn.
    apply (estable_mismas_entradas (nombre a) es_y x').
    + exact (proj1 (wf_folder f loc_y es_y Hwf Hdy)).
    + now split.
    + exact (Himp HIn).
Qed.

(** The pruner on the folder of a pass. *)
Lemma poda_conserva (f0 : filesystem) (w : mundo) (carpeta u : string)
      (loc : list string) (es : list (string * node)) :
  conserva f0 (fs w) ->
  locate (fs w) carpeta = Some loc ->
  lookup (root (fs w)) loc = Some (Dir es) ->
  exists n w2 es',
    Files.eliminar_antiguos carpeta u w = (Ok n, w2)
    /\ fs w2 = con_entradas (fs w) loc es'
    /\ conserva f0 (fs w2)
    /\ mismas_carpetas es es'
    /\ estable u es'.
Proof.
  intros Hc Hl Hd. pose proof Hc as (Hwf & _).
  destruct (eliminar_antiguos_en_carpeta w carpeta u loc es Hwf Hl Hd)
    as (n & p & evs & Hp & Hcons & Hest & _ & _).
  pose proof (wf_carpeta _ _ _ Hwf Hd) as Hwfes.
  pose proof (proj1 (proj2 (proj1 (wf_node_Dir es) Hwfes))) as Hnd.
  pose proof (mismas_carpetas_filter p u es Hnd Hcons) as Hm.
  eexists n, _, (filter p es). split; [exact Hp|]. cbn [fs].
  split; [reflexivity|]. split; [|split; [exact Hm|exact Hest]].
  apply (conserva_reescritura f0 (fs w) loc es); try assumption.
  now apply wf_filter.
Qed.

Hypothesis Hdescarga : descarga_bien_portada Credenciales Descargar.
Hypothesis Hnombres : nombres_simples Credenciales Listar.

Variable f0 : filesystem.
Hypothesis Hwf0 : wf f0 = true.

Let carpetas0 := Files.listar_subcarpetas f0 base_dir.
Let procesar := procesar_carpeta Credenciales Listar Descargar credenciales cfg.

(** A folder of the run, on a disk with the directories of [f0]. *)
Lemma carpeta_en (f : filesystem) (carpeta : string) :
  misma_estructura f0 f -> In carpeta carpetas0 ->
  exists loc es,
    locate f0 carpeta = Some loc
    /\ locate f carpeta = Some loc
    /\ lookup (root f) loc = Some (Dir es).
Proof.
  intros He HIn.
  destruct (carpeta_terminal f0 base_dir carpeta Hwf0 HIn)
    as (bl & cs & es0 & _ & _ & Hloc0 & Hd0 & _).
  pose proof (proj2 He (bl ++ cs)) as Hdir. rewrite Hd0 in Hdir.
  destruct (lookup (root f) (bl ++ cs)) as [[| es |]|] eqn:Hd; try discriminate.
  exists (bl ++ cs), es. repeat split; try assumption.
  now rewrite (locate_estructura f0 f carpeta He).
Qed.

Lemma otra_carpeta (f : filesystem) (carpeta y : string) (loc : list string) :
  misma_estructura f0 f -> In carpeta carpetas0 -> In y carpetas0 ->
  locate f carpeta = Some loc -> y <> carpeta ->
  forall loc_y, locate f y = Some loc_y -> loc_y <> loc.
Proof.
  intros He HIn Hy Hl Hne loc_y Hly ->. apply Hne.
  rewrite (locate_estructura f0 f carpeta He) in Hl.
  rewrite (locate_estructura f0 f y He) in Hly.
  exact (carpeta_terminal_inj f0 base_dir y carpeta loc Hwf0 Hy HIn Hly Hl).
Qed.

(** Nothing is asked of a folder whose listing names no file. *)
Lemma casi_sin_listado (f : filesystem) (carpeta : string) :
  (forall ruta a resto,
      ruta_remota_de (getcwd f) cfg base_dir carpeta = Some ruta ->
      Listar credenciales ruta = Ok (true, a :: resto) -> False) ->
  casi carpeta f.
Proof. intros H ruta a resto Hr Hl. destruct (H ruta a resto Hr Hl). Qed.

(** The folder of a pass once the pruner has run on it. *)
Lemma casi_tras_poda (f : filesystem) (carpeta ruta : string)
      (a : descriptor) (resto : list descriptor)
      (loc : list string) (es' : list (string * node)) :
  ruta_remota_de (getcwd f) cfg base_dir carpeta = Some ruta ->
  Listar credenciales ruta = Ok (true, a :: resto) ->
  locate f carpeta = Some loc ->
  lookup (root f) loc = Some (Dir es') ->
  (In (nombre a) (map fst es') -> estable (nombre a) es') ->
  casi carpeta f.
Proof.
  intros Hr Hl Hloc Hd Hsolo ruta' a' resto' Hr' Hl'.
  rewrite Hr in Hr'. injection Hr' as <-.
  rewrite Hl in Hl'. injection Hl' as <- <-.
  now exists loc, es'.
Qed.

(** What the download leaves in the folder of the pass. *)
Lemma descarga_en_carpeta (f f1 : filesystem) (carpeta : string)
      (a : descriptor) (loc : list string) (es : list (string * node)) :
  wf f = true ->
  locate f carpeta = Some loc ->
  lookup (root f) loc = Some (Dir es) ->
  plain_name (nombre a) = true ->
  os_path_exists f (PosixPath.join carpeta (nombre a)) = false ->
  f1 = f \/ (exists tamano, f1 = escribir f (PosixPath.join carpeta (nombre a)) tamano) ->
  ~ In (nombre a) (map fst es)
  /\ exists es1,
      f1 = con_entradas f loc es1
      /\ mismas_carpetas es es1
      /\ wf_node (Dir es1) = true.
Proof.
  intros Hwf Hloc Hd Hplain He Hf1.
  assert (Ha : assoc (nombre a) es = None).
  { unfold os_path_exists in He.
    rewrite (stat_in_folder _ _ _ _ _ Hloc Hd Hplain) in He.
    now destruct (assoc (nombre a) es). }
  split; [now apply assoc_None_not_In|].
  pose proof (wf_carpeta _ _ _ Hwf Hd) as Hwfes.
  destruct Hf1 as [-> | [tamano ->]].
  - exists es. split; [now rewrite con_entradas_misma|].
    split; [apply mismas_carpetas_refl|exact Hwfes].
  - exists (es ++ [(nombre a, File tamano true)]). split; [|split].
    + unfold escribir.
      rewrite (locate_in_folder _ _ _ _ _ Hloc Hd Hplain).
      now rewrite removelast_last, last_last, Hd.
    + now apply mismas_carpetas_snoc.
    + now apply wf_snoc.
Qed.

(** A pass over a listing that names a file rewrites the folder of the
    pass, and nothing else. *)
Lemma pasada_primera_con_archivo
      (w : mundo) (c : contadores) (carpeta ruta : string)
      (a : descriptor) (resto : list descriptor)
      (loc : list string) (es : list (string * node)) :
  conserva f0 (fs w) ->
  ruta_remota_de (getcwd (fs w)) cfg base_dir carpeta = Some ruta ->
  Listar credenciales ruta = Ok (true, a :: resto) ->
  locate (fs w) carpeta = Some loc ->
  lookup (root (fs w)) loc = Some (Dir es) ->
  exists w' c' es',
    procesar base_dir carpeta (w, c) = (Ok tt, (w', c'))
    /\ fs w' = con_entradas (fs w) loc es'
    /\ mismas_carpetas es es'
    /\ conserva f0 (fs w')
    /\ (In (nombre a) (map fst es') -> estable (nombre a) es').
Proof.
  intros Hc Hr Hl Hloc Hd. pose proof Hc as (Hwf & Hest).
  assert (Hplain : plain_name (nombre a) = true).
  { pose proof (Hnombres _ _ _ _ Hl) as H. now inversion H. }
  destruct (os_path_exists (fs w) (PosixPath.join carpeta (nombre a))) eqn:He.
  - (* the file is there: the pruner runs on the disk as it is *)
    destruct (poda_conserva f0
                (anotado w (cabecera carpeta ruta a
                            ++ [Log INFO (YaExisteLocalmente (nombre a));
                                LlamadaEliminarAntiguos carpeta (nombre a)]))
                carpeta (nombre a) loc es Hc Hloc Hd)
      as (n & w2 & es' & Hp & Hfs & Hc2 & Hm & Hes).
    unfold procesar.
    rewrite (MainFacts.pasada_ya_existe _ _ _ _ _ _ _ _ w c Hr a resto Hl n w2 He Hp).
    eexists _, _, es'.
    split; [reflexivity|]. split; [exact Hfs|].
    split; [exact Hm|]. split; [exact Hc2|].
    intros _. exact Hes.
  - (* the download is called *)
    destruct (Descargar credenciales (nombre a) ruta
                        (PosixPath.join carpeta (nombre a)) (fs w))
      as [r f1] eqn:Hdl.
    destruct (Hdescarga _ _ _ _ _ _ _ Hdl He) as [Hf1 Hraise].
    destruct (descarga_en_carpeta (fs w) f1 carpeta a loc es
                                  Hwf Hloc Hd Hplain He Hf1)
      as (Hno & es1 & Ef1 & Hm1 & Hwf1).
    assert (Hc1 : conserva f0 f1)
      by (rewrite Ef1; now apply (conserva_reescritura f0 (fs w) loc es)).
    assert (Hloc1 : locate f1 carpeta = Some loc).
    { rewrite Ef1.
      now rewrite (locate_estructura (fs w) _ carpeta
                     (estructura_reescritura (fs w) loc es es1 Hd Hm1)). }
    assert (Hd1 : lookup (root f1) loc = Some (Dir es1))
      by (rewrite Ef1; now apply (lookup_con_entradas (fs w) loc es)).
    destruct r as [[descargado ruta_descargada]|e].
    + destruct (poda_conserva f0
                  {| fs := f1;
                     traza := traza w ++ cabecera carpeta ruta a
                       ++ [LlamadaDescargar (nombre a) ruta
                             (PosixPath.join carpeta (nombre a));
                           (if descargado
                            then Log INFO (DescargadoCorrectamente (nombre a)
                                                                   ruta_descargada)
                            else Log WARNING (NoSePudoDescargar (nombre a)));
                           LlamadaEliminarAntiguos carpeta (nombre a)] |}
                  carpeta (nombre a) loc es1 Hc1 Hloc1 Hd1)
        as (n & w2 & es' & Hp & Hfs & Hc2 & Hm & Hes).
      cbn [fs] in Hfs. rewrite Ef1, con_entradas_dos in Hfs.
      unfold procesar. destruct descargado.
      * rewrite (MainFacts.pasada_descargado _ _ _ _ _ _ _ _ w c Hr a resto Hl
                   ruta_descargada f1 n w2 He Hdl Hp).
        eexists _, _, es'.
        split; [reflexivity|]. split; [exact Hfs|].
        split; [|split; [exact Hc2|intros _; exact Hes]].
        exact (mismas_carpetas_trans es es1 es' Hm1 Hm).
      * rewrite (MainFacts.pasada_descarga_fallida _ _ _ _ _ _ _ _ w c Hr a resto Hl
                   ruta_descargada f1 n w2 He Hdl Hp).
        eexists _, _, es'.
        split; [reflexivity|]. split; [exact Hfs|].
        split; [|split; [exact Hc2|intros _; exact Hes]].
        exact (mismas_carpetas_trans es es1 es' Hm1 Hm).
    + (* the download raises: the disk is as it was *)
      pose proof (Hraise e eq_refl) as ->.
      unfold procesar.
      rewrite (MainFacts.pasada_descarga_excepcion _ _ _ _ _ _ _ _ w c Hr a resto Hl
                 e (fs w) He Hdl).
      eexists _, _, es. split; [reflexivity|]. cbn [fs].
      split; [now rewrite con_entradas_misma|].
      split; [apply mismas_carpetas_refl|]. split; [exact Hc|].
      intros HIn. now destruct (Hno HIn).
Qed.

(** One pass of the first run. *)
Lemma pasada_primera (w : mundo) (c : contadores) (carpeta : string) :
  conserva f0 (fs w) ->
  In carpeta carpetas0 ->
  exists w' c',
    procesar base_dir carpeta (w, c) = (Ok tt, (w', c'))
    /\ conserva f0 (fs w')
    /\ casi carpeta (fs w')
    /\ (forall y, In y carpetas0 -> casi y (fs w) -> casi y (fs w')).
Proof.
  intros Hc HIn. pose proof Hc as (Hwf & Hest).
  destruct (carpeta_en (fs w) carpeta Hest HIn) as (loc & es & Hloc0 & Hloc & Hd).
  assert (Hnada : forall evs,
             (forall ruta a resto,
                 ruta_remota_de (getcwd (fs w)) cfg base_dir carpeta = Some ruta ->
                 Listar credenciales ruta = Ok (true, a :: resto) -> False) ->
             conserva f0 (fs (anotado w evs))
             /\ casi carpeta (fs (anotado w evs))
             /\ (forall y, In y carpetas0 -> casi y (fs w) ->
                           casi y (fs (anotado w evs)))).
  { intros evs H. split; [exact Hc|]. split.
    - apply casi_sin_listado. exact H.
    - intros y _ Hy. exact Hy. }
  destruct (ruta_remota_de (getcwd (fs w)) cfg base_dir carpeta) as [ruta|] eqn:Hr.
  2:{ unfold procesar. rewrite (MainFacts.pasada_sin_ruta _ _ _ _ _ _ _ w c Hr).
      eexists _, _. split; [reflexivity|]. apply Hnada.
      intros ruta a resto Hr' _. discriminate Hr'. }
  destruct (Listar credenciales ruta) as [[[|] [|a resto]]|e] eqn:Hl.
  - unfold procesar.
    rewrite (MainFacts.pasada_listado_vacio _ _ _ _ _ _ _ _ w c Hr Hl).
    eexists _, _. split; [reflexivity|]. apply Hnada.
    intros ruta' a' resto' [= <-] Hl'. rewrite Hl in Hl'. discriminate Hl'.
  - destruct (pasada_primera_con_archivo w c carpeta ruta a resto loc es
                                         Hc Hr Hl Hloc Hd)
      as (w' & c' & es' & Hp & Hfs & Hm & Hc' & Hsolo).
    assert (Hcasi : casi carpeta (fs w')).
    { apply (casi_tras_poda (fs w') carpeta ruta a resto loc es').
      - rewrite Hfs. exact Hr.
      - exact Hl.
      - destruct Hc' as (_ & Hest').
        now rewrite (locate_estructura f0 (fs w') carpeta Hest').
      - rewrite Hfs. now apply (lookup_con_entradas (fs w) loc es).
      - exact Hsolo. }
    exists w', c'. split; [exact Hp|]. split; [exact Hc'|].
    split; [exact Hcasi|].
    intros y Hy Hcy. destruct (string_dec y carpeta) as [->|Hne]; [exact Hcasi|].
    rewrite Hfs. apply (casi_al_dia_reescritura (fs w) loc es es' y Hwf Hd Hm).
    + exact (otra_carpeta (fs w) carpeta y loc Hest HIn Hy Hloc Hne).
    + exact Hcy.
  - unfold procesar.
    rewrite (MainFacts.pasada_listado_fallido _ _ _ _ _ _ _ _ w c Hr [] Hl).
    eexists _, _. split; [reflexivity|]. apply Hnada.
    intros ruta' a' resto' [= <-] Hl'. rewrite Hl in Hl'. discriminate Hl'.
  - unfold procesar.
    rewrite (MainFacts.pasada_listado_fallido _ _ _ _ _ _ _ _ w c Hr (a :: resto) Hl).
    eexists _, _. split; [reflexivity|]. apply Hnada.
    intros ruta' a' resto' [= <-] Hl'. rewrite Hl in Hl'. discriminate Hl'.
  - unfold procesar.
    rewrite (MainFacts.pasada_listado_excepcion _ _ _ _ _ _ _ _ w c Hr e Hl).
    eexists _, _. split; [reflexivity|]. apply Hnada.
    intros ruta' a' resto' [= <-] Hl'. rewrite Hl in Hl'. discriminate Hl'.
Qed.

(** The loop of the first run. *)
Lemma bucle_primera (carpetas : list string) :
  forall (w : mundo) (c : contadores),
    conserva f0 (fs w) ->
    (forall x, In x carpetas -> In x carpetas0) ->
    exists w' c',
      procesar_carpetas Credenciales Listar Descargar credenciales cfg
                        base_dir carpetas (w, c)
      = (Ok tt, (w', c'))
      /\ conserva f0 (fs w')
      /\ (forall x, In x carpetas -> casi x (fs w'))
      /\ (forall y, In y carpetas0 -> casi y (fs w) -> casi y (fs w')).
Proof.
  unfold procesar_carpetas.
  induction carpetas as [|x carpetas IH]; intros w c Hc Hsub.
  - exists w, c. split; [reflexivity|]. split; [exact Hc|].
    split; [intros x []|intros y _ H; exact H].
  - cbn [for_each]. unfold bind at 1. fold procesar.
    destruct (pasada_primera w c x Hc (Hsub x (or_introl eq_refl)))
      as (w1 & c1 & -> & Hc1 & Hx & Hf1).
    destruct (IH w1 c1 Hc1 (fun y Hy => Hsub y (or_intror Hy)))
      as (w2 & c2 & Hbucle & Hc2 & Hresto & Hf2).
    fold procesar in Hbucle. rewrite Hbucle.
    exists w2, c2. split; [reflexivity|]. split; [exact Hc2|]. split.
    + intros y [<-|Hy].
      * apply Hf2; [apply Hsub; now left|exact Hx].
      * now apply Hresto.
    + intros y Hy Hcy. apply Hf2; [exact Hy|]. now apply Hf1.
Qed.

End DosEjecuciones.

Section Sucesivas.

Variable Credenciales : Type.
Variable ListarArchivosSFTPconAtributos :
  Credenciales -> string -> resultado (bool * list descriptor).
Variable DescargarArchivoSFTP :
  Credenciales -> string -> string -> string ->
  filesystem -> resultado (bool * string) * filesystem.
Variable credenciales : Credenciales.
Variable cfg : config.

Let ejecutar :=
  main Credenciales ListarArchivosSFTPconAtributos DescargarArchivoSFTP
       credenciales cfg.

(** A run that finds no valid base directory (line 97). *)
Lemma main_sin_base (w : mundo) :
  match directorio_local cfg with
  | None => True
  | Some base => (base =? "") || negb (os_path_isdir (fs w) base) = true
  end ->
  ejecutar w
  = (Ok None,
     {| fs := fs w;
        traza := traza w
                 ++ [Log ERROR (DirectorioBaseInvalido (directorio_local cfg))] |}).
Proof.
  unfold ejecutar, main. destruct (directorio_local cfg) as [base|].
  - intros Hv. unfold bind at 1. unfold leer at 1. rewrite Hv. reflexivity.
  - intros _. reflexivity.
Qed.

(** What the first run leaves: the directories it found, and in every
    terminal folder whose newest remote file is there, no other file. *)
Lemma primera_ejecucion (w0 w1 : mundo) (r1 : resultado (option contadores))
      (base : string) :
  descarga_bien_portada Credenciales DescargarArchivoSFTP ->
  nombres_simples Credenciales ListarArchivosSFTPconAtributos ->
  wf (fs w0) = true ->
  directorio_local cfg = Some base ->
  (base =? "") || negb (os_path_isdir (fs w0) base) = false ->
  ejecutar w0 = (r1, w1) ->
  conserva (fs w0) (fs w1)
  /\ forall carpeta,
      In carpeta (Files.listar_subcarpetas (fs w0) base) ->
      casi_al_dia Credenciales ListarArchivosSFTPconAtributos credenciales cfg
                  base carpeta (fs w1).
Proof.
  intros Hdes Hnom Hwf Hb Hv. unfold ejecutar, main. rewrite Hb.
  unfold bind at 1. unfold leer at 1. rewrite Hv.
  unfold bind at 1. unfold leer at 1. unfold bind at 1.
  unfold log at 1, emitir, modify. unfold with_locals.
  unfold bind at 1.
  destruct (bucle_primera Credenciales ListarArchivosSFTPconAtributos
              DescargarArchivoSFTP credenciales cfg base Hdes Hnom
              (fs w0) Hwf (Files.listar_subcarpetas (fs w0) base)
              {| fs := fs w0;
                 traza := traza w0
                   ++ [Log INFO (CarpetasEncontradas
                         (List.length (Files.listar_subcarpetas (fs w0) base)))] |}
              contadores_iniciales
              (conserva_refl (fs w0) Hwf)
              (fun x Hx => Hx))
    as (w' & c' & Hrun & Hc & Hcasi & _).
  rewrite Hrun. cbn. intros [= _ <-]. cbn [fs]. split; [exact Hc|exact Hcasi].
Qed.


End Sucesivas.

(** *** Two runs on the example world *)

Import Ejemplos.

Lemma descarga_correcta_bien_portada :
  descarga_bien_portada unit descarga_correcta.
Proof.
  intros cred n ruta destino f r f' H _. unfold descarga_correcta in H.
  injection H as <- <-. split.
  - right. now exists 100%Z.
  - intros e He. discriminate He.
Qed.

Lemma listar_ejemplo_nombres_simples : nombres_simples unit listar_ejemplo.
Proof.
  intros cred ruta ok archivos H. unfold listar_ejemplo in H.
  destruct (ruta =? "/remote/c1");
    [|destruct (ruta =? "/remote/c2");
      [|destruct (ruta =? "/remote/c3/sub")]];
    injection H as <- <-; repeat constructor.
Qed.

Lemma primera_ejecucion_ejemplo :
  main unit listar_ejemplo descarga_correcta tt cfg_ejemplo mundo_inicial
  = (Ok (Some {| total_descargados := 1; total_bytes_descargados := 100;
                 total_eliminados := 2; carpetas_con_error := 0 |}),
     mundo_tras_primera).
Proof. vm_compute. reflexivity. Qed.



End IdempotenceFacts.

(* ================================================================= *)
(** ** The remote path of a folder *)

Module MapperFacts.
Import PosixPath PathFacts Propiedades.

Lemma plain_propio (c : string) : FS.plain_name c = true -> propio c.
Proof. intros H. apply plain_name_inv in H. unfold propio. tauto. Qed.

Lemma norm_step_skip (i : nat) (s : list string) (c : string) :
  c = "" \/ c = curdir -> norm_step i s c = s.
Proof. intros [-> | ->]; reflexivity. Qed.

Lemma norm_step_propio (i : nat) (s : list string) (c : string) :
  propio c -> norm_step i s c = s ++ [c].
Proof.
  intros (H1 & H2 & H3). unfold norm_step.
  apply String.eqb_neq in H1, H2, H3. now rewrite H1, H2, H3.
Qed.

Lemma last_is_pardir_snoc (s : list string) (a : string) :
  last_is_pardir (s ++ [a]) = (a =? pardir).
Proof.
  unfold last_is_pardir. destruct (s ++ [a]) as [|x l] eqn:E.
  - now destruct s.
  - now rewrite <- E, last_last.
Qed.

Lemma norm_step_pardir_abs (i : nat) (s : list string) :
  i <> 0 -> Forall propio s -> norm_step i s pardir = removelast s.
Proof.
  intros Hi Hs. unfold norm_step.
  change (pardir =? "") with false. change (pardir =? curdir) with false.
  rewrite String.eqb_refl. apply Nat.eqb_neq in Hi. rewrite Hi.
  cbn [orb negb andb].
  destruct s as [|a s' _] using rev_ind; [reflexivity|].
  rewrite last_is_pardir_snoc. apply Forall_app in Hs as [_ Ha].
  inversion Ha as [|? ? (_ & _ & Hp) _]; subst.
  apply String.eqb_neq in Hp. now rewrite Hp.
Qed.

Lemma fold_norm_propios (i : nat) (cs s : list string) :
  Forall propio cs -> fold_left (norm_step i) cs s = s ++ cs.
Proof.
  revert s. induction cs as [|c cs IH]; intros s H; simpl.
  - now rewrite app_nil_r.
  - inversion H; subst. rewrite norm_step_propio by assumption.
    rewrite IH by assumption. now rewrite <- app_assoc.
Qed.

(** With leading slashes, [normpath] never keeps a [..]. *)
Lemma norm_step_abs_propio (i : nat) (s : list string) (c : string) :
  i <> 0 -> Forall propio s -> Forall propio (norm_step i s c).
Proof.
  intros Hi Hs.
  destruct (String.eqb_spec c "") as [->|H1]; [exact Hs|].
  destruct (String.eqb_spec c curdir) as [->|H2]; [exact Hs|].
  destruct (String.eqb_spec c pardir) as [->|H3].
  - rewrite norm_step_pardir_abs by assumption.
    destruct s as [|x s] using rev_ind; [constructor|].
    rewrite removelast_last. apply Forall_app in Hs. tauto.
  - rewrite norm_step_propio by (unfold propio; tauto).
    apply Forall_app. split; [assumption|]. repeat constructor; assumption.
Qed.

Lemma fold_norm_abs_propio (i : nat) (cs s : list string) :
  i <> 0 -> Forall propio s -> Forall propio (fold_left (norm_step i) cs s).
Proof.
  intros Hi. revert s. induction cs as [|c cs IH]; intros s Hs; simpl.
  - exact Hs.
  - apply IH. now apply norm_step_abs_propio.
Qed.

Lemma norm_step_abs_eq (i j : nat) (s : list string) (c : string) :
  i <> 0 -> j <> 0 -> norm_step i s c = norm_step j s c.
Proof.
  intros Hi Hj. unfold norm_step.
  apply Nat.eqb_neq in Hi, Hj. now rewrite Hi, Hj.
Qed.

Lemma fold_norm_abs_eq (i j : nat) (cs s : list string) :
  i <> 0 -> j <> 0 ->
  fold_left (norm_step i) cs s = fold_left (norm_step j) cs s.
Proof.
  intros Hi Hj. revert s. induction cs as [|c cs IH]; intros s; simpl.
  - reflexivity.
  - rewrite (norm_step_abs_eq i j) by assumption. apply IH.
Qed.

(** *** Splitting what [normpath] renders *)

Lemma split_no_sep (s : string) :
  Forall (fun c => FS.has_sep c = false) (split s).
Proof.
  induction s as [|c s IH]; simpl.
  - repeat constructor.
  - destruct (is_sep c) eqn:E; [now constructor|].
    destruct (split s) as [|x xs]; [repeat constructor; simpl; now rewrite E|].
    inversion IH; subst. constructor; [|assumption].
    simpl. now rewrite E.
Qed.

Lemma split_slashes (i : nat) (x : string) :
  split (slashes i ++ x)%string = repeat "" i ++ split x.
Proof.
  induction i as [|i IH]; [reflexivity|].
  cbn [slashes String.append repeat app split].
  change (is_sep sep) with true. cbn. now rewrite IH.
Qed.

Lemma filter_nonempty_propios (cs : list string) :
  Forall propio cs -> filter nonempty cs = cs.
Proof.
  induction 1 as [|c cs (Hc & _) _ IH]; [reflexivity|].
  simpl. unfold nonempty at 1. apply String.eqb_neq in Hc. rewrite Hc. simpl.
  now rewrite IH.
Qed.

Lemma filter_nonempty_repeat (i : nat) (l : list string) :
  filter nonempty (repeat "" i ++ l) = filter nonempty l.
Proof. induction i as [|i IH]; [reflexivity|]. simpl. exact IH. Qed.

Lemma Forall_removelast {A} (P : A -> Prop) (l : list A) :
  Forall P l -> Forall P (removelast l).
Proof.
  destruct l as [|a l _] using rev_ind; [trivial|].
  rewrite removelast_last. intros H. apply Forall_app in H. tauto.
Qed.

Lemma norm_step_Forall (P : string -> Prop) (i : nat) (s : list string) (c : string) :
  P c -> Forall P s -> Forall P (norm_step i s c).
Proof.
  intros Hc Hs. unfold norm_step.
  destruct ((c =? "") || (c =? curdir)); [assumption|].
  destruct (negb (c =? pardir) || (i =? 0)%nat && is_nil s || last_is_pardir s).
  - apply Forall_app. split; [assumption|now repeat constructor].
  - now apply Forall_removelast.
Qed.

Lemma fold_norm_Forall (P : string -> Prop) (i : nat) (cs s : list string) :
  Forall P cs -> Forall P s -> Forall P (fold_left (norm_step i) cs s).
Proof.
  revert s. induction cs as [|c cs IH]; intros s Hcs Hs; simpl; [assumption|].
  inversion Hcs; subst. apply IH; [assumption|].
  now apply norm_step_Forall.
Qed.

Lemma initial_slashes_abs (q : string) :
  startswith_sep q = true -> initial_slashes q <> 0.
Proof.
  destruct q as [|c1 [|c2 [|c3 q]]]; simpl; try discriminate;
    intros ->; try destruct (is_sep c2); try destruct (is_sep c3); discriminate.
Qed.

(** The names of a normalised absolute path, as [relpath] reads them. *)
Lemma comps_normpath_abs (q : string) :
  startswith_sep q = true ->
  filter nonempty (split (normpath q)) = norm_comps 1 (split q).
Proof.
  intros Hq. pose proof (initial_slashes_abs q Hq) as Hi.
  unfold normpath. destruct q as [|c q]; [discriminate|].
  change (String c q =? "") with false. cbv iota zeta.
  set (p := String c q) in *.
  set (i := initial_slashes p) in *.
  assert (Hn : norm_comps i (split p) = norm_comps 1 (split p))
    by (apply fold_norm_abs_eq; [assumption|discriminate]).
  assert (Hp : Forall propio (norm_comps i (split p)))
    by (apply fold_norm_abs_propio; [assumption|constructor]).
  assert (Hs : Forall (fun c => FS.has_sep c = false) (norm_comps i (split p)))
    by (apply fold_norm_Forall; [apply split_no_sep|constructor]).
  rewrite <- Hn.
  destruct i as [|i]; [congruence|].
  unfold or_dot. cbn [slashes String.append].
  change (String sep (slashes i ++ concat "/" (norm_comps (S i) (split p))) =? "")
    with false. cbv iota.
  change (String sep (slashes i ++ concat "/" (norm_comps (S i) (split p))))
    with (slashes (S i) ++ concat "/" (norm_comps (S i) (split p)))%string.
  rewrite split_slashes, filter_nonempty_repeat.
  destruct (norm_comps (S i) (split p)) as [|x xs] eqn:E; [reflexivity|].
  rewrite split_concat by (assumption || discriminate).
  now apply filter_nonempty_propios.
Qed.

(** *** The names of [abspath] *)

Lemma fold_norm_filter (i : nat) (cs s : list string) :
  fold_left (norm_step i) (filter nonempty cs) s = fold_left (norm_step i) cs s.
Proof.
  revert s. induction cs as [|c cs IH]; intros s; simpl; [reflexivity|].
  unfold nonempty at 1. destruct (String.eqb_spec c "") as [->|H]; simpl.
  - apply IH.
  - apply IH.
Qed.

(** The split of [join cwd x] for a relative [x]: a prefix that depends on
    [cwd] alone, then the split of [x]. *)
Lemma split_join_rel (cwd : string) :
  cwd <> "" ->
  exists pre, forall x,
      startswith_sep x = false -> split (join cwd x) = pre ++ split x.
Proof.
  intros Hc. apply String.eqb_neq in Hc.
  destruct (endswith_sep cwd) eqn:E.
  - destruct (endswith_sep_inv cwd E) as [c0 Hc0].
    exists (split c0). intros x Hx. unfold join. rewrite Hx, Hc, E. simpl.
    rewrite Hc0, append_assoc. simpl. apply split_app_sep.
  - exists (split cwd). intros x Hx. unfold join. rewrite Hx, Hc, E. simpl.
    apply (split_app_sep cwd x).
Qed.

Lemma startswith_sep_join_rel (cwd x : string) :
  startswith_sep cwd = true -> startswith_sep x = false ->
  startswith_sep (join cwd x) = true.
Proof.
  intros Hc Hx. unfold join. rewrite Hx.
  assert (cwd <> "") by (intros ->; discriminate).
  destruct ((cwd =? "") || endswith_sep cwd);
    now rewrite startswith_sep_app.
Qed.

(** [abs_comps] is one run of the loop of [normpath] over the split of the
    path, from a stack that depends only on [cwd] and on whether the path
    is absolute. *)
Lemma abs_comps_fold (cwd : string) (b : bool) :
  startswith_sep cwd = true ->
  exists acc,
    Forall propio acc
    /\ forall path,
        startswith_sep path = b ->
        abs_comps cwd path = fold_left (norm_step 1) (split path) acc.
Proof.
  intros Hc. destruct b.
  - exists []. split; [constructor|]. intros path Hp.
    unfold abs_comps, abspath. rewrite Hp. now apply comps_normpath_abs.
  - assert (Hne : cwd <> "") by (intros ->; discriminate).
    destruct (split_join_rel cwd Hne) as [pre Hpre].
    exists (fold_left (norm_step 1) pre []). split.
    + apply fold_norm_abs_propio; [discriminate|constructor].
    + intros path Hp. unfold abs_comps, abspath. rewrite Hp.
      rewrite comps_normpath_abs by now apply startswith_sep_join_rel.
      unfold norm_comps. now rewrite (Hpre path Hp), fold_left_app.
Qed.

Lemma fold_norm_join (i : nat) (a c : string) (acc : list string) :
  a <> "" -> FS.plain_name c = true ->
  fold_left (norm_step i) (split (join a c)) acc
  = fold_left (norm_step i) (split a) acc ++ [c].
Proof.
  intros Ha Hc.
  destruct (split_join a c Ha Hc) as (pre & -> & [-> | ->]);
    rewrite !fold_left_app; simpl;
    rewrite (norm_step_propio i _ c (plain_propio c Hc)); reflexivity.
Qed.

(** The names of a folder reached from [a] by the names [cs]. *)
Lemma abs_comps_join_many (cwd a : string) (cs : list string) :
  startswith_sep cwd = true -> a <> "" ->
  Forall (fun c => FS.plain_name c = true) cs ->
  abs_comps cwd (join_many a cs) = abs_comps cwd a ++ cs.
Proof.
  intros Hc Ha Hcs.
  destruct (abs_comps_fold cwd (startswith_sep a) Hc) as (acc & _ & Hacc).
  rewrite (Hacc a eq_refl).
  rewrite (Hacc (join_many a cs))
    by (now apply join_many_not_empty).
  clear Hacc. revert a Ha. induction Hcs as [|c cs Hc' Hcs IH]; intros a Ha.
  - now rewrite app_nil_r.
  - cbn [join_many fold_left]. fold (join_many (join a c) cs).
    destruct (join_not_empty a c Ha) as [Hj|Hj];
      [|now rewrite (plain_not_abs c Hc') in Hj].
    rewrite (IH (join a c) Hj), (fold_norm_join 1 a c acc Ha Hc').
    now rewrite <- app_assoc.
Qed.

(** *** [abspath] after [normpath] *)

Lemma norm_step_no_skip (i : nat) (s : list string) (c : string) :
  Forall no_skip s -> Forall no_skip (norm_step i s c).
Proof.
  intros Hs. unfold norm_step.
  destruct (String.eqb_spec c "") as [->|H1]; [exact Hs|].
  destruct (String.eqb_spec c curdir) as [->|H2]; [exact Hs|].
  cbn [orb].
  destruct (negb (c =? pardir) || (i =? 0)%nat && is_nil s || last_is_pardir s).
  - apply Forall_app. split; [assumption|]. repeat constructor; assumption.
  - now apply Forall_removelast.
Qed.

Lemma fold_norm_no_skip (i : nat) (cs s : list string) :
  Forall no_skip s -> Forall no_skip (fold_left (norm_step i) cs s).
Proof.
  revert s. induction cs as [|c cs IH]; intros s Hs; simpl; [assumption|].
  apply IH. now apply norm_step_no_skip.
Qed.

(** Running the absolute loop over what the relative loop has kept is
    running it over what the relative loop has read. *)
Lemma norm_step_rel_abs (s acc : list string) (x : string) :
  Forall no_skip s ->
  fold_left (norm_step 1) (norm_step 0 s x) acc
  = norm_step 1 (fold_left (norm_step 1) s acc) x.
Proof.
  intros Hs.
  destruct (String.eqb_spec x "") as [->|H1]; [reflexivity|].
  destruct (String.eqb_spec x curdir) as [->|H2]; [reflexivity|].
  destruct (String.eqb_spec x pardir) as [->|H3].
  - unfold norm_step at 2.
    change (pardir =? "") with false. change (pardir =? curdir) with false.
    rewrite String.eqb_refl. cbn [orb negb andb Nat.eqb].
    destruct s as [|l s' _] using rev_ind.
    + reflexivity.
    + rewrite last_is_pardir_snoc.
      assert (is_nil (s' ++ [l]) = false) as -> by now destruct s'.
      destruct (String.eqb_spec l pardir) as [->|Hl].
      * cbn [orb]. now rewrite (fold_left_app _ (s' ++ [pardir]) [pardir]).
      * cbn [orb]. rewrite removelast_last, fold_left_app. cbn [fold_left].
        apply Forall_app in Hs as [_ Hl'].
        inversion Hl' as [|? ? (Ha & Hb) _]; subst.
        rewrite (norm_step_propio 1 _ l) by (unfold propio; tauto).
        unfold norm_step.
        change (pardir =? "") with false. change (pardir =? curdir) with false.
        rewrite String.eqb_refl. cbn [orb negb andb Nat.eqb].
        rewrite last_is_pardir_snoc.
        apply String.eqb_neq in Hl. rewrite Hl.
        now rewrite removelast_last.
  - rewrite !norm_step_propio by (unfold propio; tauto).
    rewrite fold_left_app. cbn [fold_left].
    now rewrite norm_step_propio by (unfold propio; tauto).
Qed.

Lemma fold_norm_rel_abs (xs s acc : list string) :
  Forall no_skip s ->
  fold_left (norm_step 1) (fold_left (norm_step 0) xs s) acc
  = fold_left (norm_step 1) xs (fold_left (norm_step 1) s acc).
Proof.
  revert s. induction xs as [|x xs IH]; intros s Hs; [reflexivity|].
  cbn [fold_left]. rewrite IH by now apply norm_step_no_skip.
  now rewrite norm_step_rel_abs.
Qed.

Lemma initial_slashes_rel (q : string) :
  startswith_sep q = false -> initial_slashes q = 0.
Proof. destruct q as [|c q]; [reflexivity|]. simpl. now intros ->. Qed.

Lemma startswith_sep_concat (cs : list string) :
  Forall no_skip cs -> Forall (fun c => FS.has_sep c = false) cs ->
  startswith_sep (concat "/" cs) = false.
Proof.
  intros Hn Hs. destruct cs as [|c cs]; [reflexivity|].
  inversion Hn as [|? ? (Hc & _) _]; inversion Hs as [|? ? Hsc _]; subst.
  destruct c as [|a c]; [congruence|].
  simpl in Hsc. apply orb_false_iff in Hsc as [Ha _].
  destruct cs; simpl; exact Ha.
Qed.

Lemma normpath_abs (q : string) :
  startswith_sep q = true -> startswith_sep (normpath q) = true.
Proof.
  intros Hq. pose proof (initial_slashes_abs q Hq) as Hi.
  unfold normpath. destruct q as [|c q]; [discriminate|].
  change (String c q =? "") with false. cbv iota zeta.
  destruct (initial_slashes (String c q)) as [|i]; [congruence|].
  reflexivity.
Qed.

(** [abspath(normpath(p))] has the names of [abspath(p)]. *)
Lemma abs_comps_normpath (cwd path : string) :
  startswith_sep cwd = true -> path <> "" ->
  abs_comps cwd (normpath path) = abs_comps cwd path.
Proof.
  intros Hc Hp.
  destruct (startswith_sep path) eqn:Hpath.
  - (* absolute *)
    unfold abs_comps at 2. unfold abspath. rewrite Hpath.
    rewrite (comps_normpath_abs path Hpath).
    unfold abs_comps, abspath. rewrite (normpath_abs path Hpath).
    rewrite comps_normpath_abs by now apply normpath_abs.
    unfold norm_comps at 1.
    rewrite <- fold_norm_filter, (comps_normpath_abs path Hpath).
    apply (fold_norm_propios 1 _ []).
    apply fold_norm_abs_propio; [discriminate|constructor].
  - (* relative *)
    destruct (abs_comps_fold cwd false Hc) as (acc & _ & Hacc).
    rewrite (Hacc path Hpath).
    pose proof (fold_norm_rel_abs (split path) [] acc (Forall_nil _)) as Hra.
    cbn [fold_left] in Hra. rewrite <- Hra.
    assert (Hn : Forall no_skip (norm_comps 0 (split path)))
      by (apply fold_norm_no_skip; constructor).
    assert (Hs : Forall (fun c => FS.has_sep c = false) (norm_comps 0 (split path)))
      by (apply fold_norm_Forall; [apply split_no_sep|constructor]).
    assert (Hnp : normpath path
                  = or_dot (concat "/" (norm_comps 0 (split path)))).
    { unfold normpath. apply String.eqb_neq in Hp. rewrite Hp.
      now rewrite (initial_slashes_rel path Hpath). }
    fold (norm_comps 0 (split path)).
    destruct (norm_comps 0 (split path)) as [|x xs] eqn:E.
    + rewrite Hnp. change (or_dot (concat "/" [])) with ".".
      now rewrite (Hacc "." eq_refl).
    + assert (Hne : concat "/" (x :: xs) <> "").
      { inversion Hn as [|? ? (Hx & _) _]; subst.
        destruct x; [congruence|]. destruct xs; discriminate. }
      assert (Hod : or_dot (concat "/" (x :: xs)) = concat "/" (x :: xs)).
      { unfold or_dot. apply String.eqb_neq in Hne. now rewrite Hne. }
      rewrite Hnp, Hod.
      rewrite (Hacc (concat "/" (x :: xs)))
        by now apply startswith_sep_concat.
      now rewrite split_concat by (assumption || discriminate).
Qed.

(** *** [relpath] from the root to a folder under it *)

Lemma commonprefix_len_app (l cs : list string) :
  commonprefix_len l (l ++ cs) = List.length l.
Proof.
  induction l as [|x l IH]; simpl; [now destruct cs|].
  now rewrite String.eqb_refl, IH.
Qed.

Lemma skipn_length_app (l cs : list string) :
  skipn (List.length l) (l ++ cs) = cs.
Proof. induction l as [|x l IH]; [reflexivity|exact IH]. Qed.

Lemma relpath_descendiente (cwd base_dir : string) (cs : list string) :
  startswith_sep cwd = true -> base_dir <> "" ->
  Forall (fun c => FS.plain_name c = true) cs -> cs <> [] ->
  relpath cwd (join_many base_dir cs) (normpath base_dir)
  = Some (concat "/" cs).
Proof.
  intros Hc Hb Hcs Hne. unfold relpath.
  destruct (join_many_not_empty base_dir cs Hb Hcs) as [Hj _].
  apply String.eqb_neq in Hj. rewrite Hj.
  fold (abs_comps cwd (normpath base_dir)).
  fold (abs_comps cwd (join_many base_dir cs)).
  rewrite (abs_comps_normpath cwd base_dir Hc Hb).
  rewrite (abs_comps_join_many cwd base_dir cs Hc Hb Hcs).
  rewrite commonprefix_len_app, Nat.sub_diag, skipn_length_app. cbn [repeat app].
  destruct cs as [|c cs]; [congruence|].
  inversion Hcs as [|? ? Hc' Hcs']; subst.
  pose proof (plain_name_inv c Hc') as (Hc1 & _ & _ & Hc4).
  rewrite (join_many_concat cs c Hc1 (endswith_sep_no_sep c Hc4) Hcs').
  reflexivity.
Qed.

(** *** Backslashes *)


Lemma replace_backslash_id (s : string) :
  has_backslash s = false -> replace_backslash s = s.
Proof.
  induction s as [|c s IH]; [reflexivity|]. simpl.
  intros H. apply orb_false_iff in H as [Hc Hs]. now rewrite Hc, IH.
Qed.

Lemma has_backslash_app (a b : string) :
  has_backslash (a ++ b)%string = has_backslash a || has_backslash b.
Proof.
  induction a as [|c a IH]; [reflexivity|]. simpl.
  now rewrite IH, orb_assoc.
Qed.


Lemma has_backslash_concat (cs : list string) :
  Forall (fun c => has_backslash c = false) cs ->
  has_backslash (concat "/" cs) = false.
Proof.
  induction 1 as [|c cs Hc Hcs IH]; [reflexivity|].
  destruct cs as [|c' cs]; [exact Hc|].
  change (concat "/" (c :: c' :: cs))
    with (c ++ "/" ++ concat "/" (c' :: cs))%string.
  rewrite !has_backslash_app, Hc, IH. reflexivity.
Qed.

Lemma replace_backslash_app (a b : string) :
  replace_backslash (a ++ b)%string
  = (replace_backslash a ++ replace_backslash b)%string.
Proof. induction a as [|c a IH]; [reflexivity|]. simpl. now rewrite IH. Qed.




End MapperFacts.

(* ================================================================= *)
(** ** The newest file of a remote directory *)

Module NewestFacts.
Import Efectos Files.

Section ClienteSFTP.

Variable SFTPClient : Type.
Variable listdir_attr :
  SFTPClient -> string -> resultado (list SFTPAttributes).

Let buscar := fichero_mas_reciente SFTPClient listdir_attr.




(** X3.  On a listing whose first entry is at least as recent as every
    other one, as a listing sorted newest first is, [fichero_mas_reciente]
    answers that first entry: the element 0 that [main] takes. *)
Theorem fichero_mas_reciente_listado_ordenado
        (sftp : SFTPClient) (remote_dir : string)
        (f : SFTPAttributes) (resto : list SFTPAttributes)
        (registro : list aviso_busqueda) :
  listdir_attr sftp remote_dir = Ok (f :: resto) ->
  Forall (fun g => (st_mtime g <= st_mtime f)%Z) resto ->
  fichero_mas_reciente SFTPClient listdir_attr sftp remote_dir registro
  = (Ok (nth_error (f :: resto) 0), registro).
Proof.
  intros Hl Hs. unfold fichero_mas_reciente, try_except, bind, ret.
  rewrite Hl. cbn [nth_error]. do 2 f_equal.
  clear Hl. induction resto as [|x resto IH]; [reflexivity|].
  inversion Hs as [|? ? Hx Hs']; subst. cbn [max_st_mtime].
  apply Z.ltb_ge in Hx. rewrite Hx. now apply IH.
Qed.

End ClienteSFTP.

Import Ejemplos.


Lemma fichero_mas_reciente_listado_ordenado_witness :
  fichero_mas_reciente unit listdir_attr_ejemplo tt "/remote/c2" []
  = (Ok (Some {| filename := "old.csv"; st_size := 7; st_mtime := 9 |}), []).
Proof.
  apply (fichero_mas_reciente_listado_ordenado
           unit listdir_attr_ejemplo tt "/remote/c2" _ _ [] eq_refl).
  repeat constructor. cbn. lia.
Defined.

End NewestFacts.

(* ================================================================= *)
(** ** The pruner on any folder *)

Module PruneEdgeFacts.
Import FS FSFacts Efectos Propiedades PruneFacts TreeFacts.

Lemma os_listdir_no_directorio (f : filesystem) (carpeta : string) :
  os_path_isdir f carpeta = false -> os_listdir f carpeta = None.
Proof.
  unfold os_path_isdir, os_listdir, is_dir.
  destruct (stat f carpeta) as [[| es |]|]; intros H; try reflexivity.
  discriminate H.
Qed.

Lemma eliminar_antiguos_sin_listado (w : mundo) (carpeta ultimo_fichero : string) :
  os_listdir (fs w) carpeta = None ->
  Files.eliminar_antiguos carpeta ultimo_fichero w
  = (Ok 0, anotado w [Log ERROR (ErrorEliminando carpeta OSError)]).
Proof.
  intros H. unfold Files.eliminar_antiguos, with_locals, bind, try_except.
  unfold on_world at 1. unfold llamar. cbn [fst snd]. now rewrite H.
Qed.

(** X4.  Called on a path that is not a directory (missing, or a file),
    [eliminar_antiguos] does not raise: [os.listdir] fails inside its
    [try], so it logs the error, returns 0 and leaves the disk as it is. *)
Theorem eliminar_antiguos_carpeta_ausente
        (w : mundo) (carpeta ultimo_fichero : string) :
  os_path_isdir (fs w) carpeta = false ->
  Files.eliminar_antiguos carpeta ultimo_fichero w
  = (Ok 0, {| fs := fs w;
              traza := traza w
                       ++ [Log ERROR (ErrorEliminando carpeta OSError)] |}).
Proof.
  intros H. apply eliminar_antiguos_sin_listado.
  now apply os_listdir_no_directorio.
Qed.

(** *** The lines of a call *)

Lemma paso_avisos (carpeta ultimo fichero : string) (w : mundo) (n : nat) :
  exists r w' avisos,
    Files.eliminar_antiguos_paso carpeta ultimo fichero (w, n)
    = (r, (w', List.length avisos + n))
    /\ traza w' = traza w ++ avisos
    /\ Forall es_aviso_eliminado avisos.
Proof.
  destruct (os_path_isfile (fs w) (PosixPath.join carpeta fichero)
            && negb (fichero =? ultimo)) eqn:E.
  - destruct (FS.os_remove (fs w) (PosixPath.join carpeta fichero)) as [f'|] eqn:R.
    + rewrite (paso_elimina _ _ _ _ _ f' E R).
      eexists _, _, [_]. split; [reflexivity|]. split; [reflexivity|].
      now repeat constructor.
    + rewrite (paso_falla _ _ _ _ _ E R).
      exists (Raise OSError), w, []. rewrite app_nil_r. now repeat split.
  - rewrite (paso_conserva _ _ _ _ _ E).
    exists (Ok tt), w, []. rewrite app_nil_r. now repeat split.
Qed.

Lemma bucle_avisos (carpeta ultimo : string) (ns : list string) :
  forall (w : mundo) (n : nat),
  exists r w' avisos,
    for_each ns (Files.eliminar_antiguos_paso carpeta ultimo) (w, n)
    = (r, (w', List.length avisos + n))
    /\ traza w' = traza w ++ avisos
    /\ Forall es_aviso_eliminado avisos.
Proof.
  induction ns as [|k ns IH]; intros w n.
  - exists (Ok tt), w, []. rewrite app_nil_r. now repeat split.
  - cbn [for_each]. unfold bind.
    destruct (paso_avisos carpeta ultimo k w n) as (r & w1 & a1 & -> & Ht1 & Hl1).
    destruct r as [[]|e].
    + destruct (IH w1 (List.length a1 + n)) as (r & w2 & a2 & -> & Ht2 & Hl2).
      exists r, w2, (a1 ++ a2). split; [|split].
      * rewrite length_app. do 2 f_equal. lia.
      * now rewrite Ht2, Ht1, app_assoc.
      * now apply Forall_app.
    + now exists (Raise e), w1, a1.
Qed.

(** X5.  [eliminar_antiguos] never raises, whatever the path and the disk.
    What it adds to the log is one line per file it has deleted, as many
    as the number it returns, followed by at most one error line: the one
    of the exception that ended its loop. *)
Theorem eliminar_antiguos_no_lanza
        (carpeta ultimo_fichero : string) (w : mundo) :
  exists (n : nat) (w' : mundo) (avisos cola : list evento),
    Files.eliminar_antiguos carpeta ultimo_fichero w = (Ok n, w')
    /\ traza w' = traza w ++ avisos ++ cola
    /\ Forall es_aviso_eliminado avisos
    /\ List.length avisos = n
    /\ (cola = []
        \/ exists e, cola = [Log ERROR (ErrorEliminando carpeta e)]).
Proof.
  destruct (os_listdir (fs w) carpeta) as [ns|] eqn:Hls.
  - unfold Files.eliminar_antiguos, with_locals, bind, try_except.
    unfold on_world at 1. unfold llamar. cbn [fst snd]. rewrite Hls.
    destruct (bucle_avisos carpeta ultimo_fichero ns w 0)
      as (r & w1 & avisos & -> & Ht & Hl).
    rewrite Nat.add_0_r. destruct r as [[]|e].
    + exists (List.length avisos), w1, avisos, []. cbn.
      rewrite app_nil_r. repeat split; try assumption. now left.
    + cbn. eexists (List.length avisos), _, avisos, [_]. cbn.
      split; [reflexivity|]. split; [now rewrite Ht, <- app_assoc|].
      split; [exact Hl|]. split; [reflexivity|]. right. now exists e.
  - rewrite (eliminar_antiguos_sin_listado w carpeta ultimo_fichero Hls).
    eexists 0, _, [], [_]. cbn. split; [reflexivity|]. split; [reflexivity|].
    split; [constructor|]. split; [reflexivity|]. right. now exists OSError.
Qed.

(** *** What a call keeps *)

Lemma length_conservados (u : string) (es : list (string * node)) :
  List.length es
  = List.length (filter (conservado u) es)
    + List.length (filter (obsoleto u) es).
Proof.
  induction es as [|e es IH]; [reflexivity|]. cbn [filter].
  unfold conservado at 1. destruct (obsoleto u e); cbn [negb List.length]; lia.
Qed.

Lemma conservado_directorio (u k : string) (d : list (string * node)) :
  conservado u (k, Dir d) = true.
Proof. reflexivity. Qed.

Lemma conservado_ultimo (u : string) (nd : node) : conservado u (u, nd) = true.
Proof.
  unfold conservado, obsoleto. cbn [fst snd]. rewrite String.eqb_refl.
  cbn [negb]. now rewrite andb_false_r.
Qed.

(** X6.  On a folder of a well-formed disk, whether a removal fails or not,
    [eliminar_antiguos] rewrites that folder only, and only by taking
    entries out: what is left was there, every subdirectory and every entry
    named [ultimo_fichero] is still there, and the number returned is the
    number of entries that are gone. *)
Theorem eliminar_antiguos_respeta
        (w : mundo) (carpeta ultimo_fichero : string)
        (loc : list string) (es : list (string * node)) :
  wf (fs w) = true ->
  locate (fs w) carpeta = Some loc ->
  lookup (root (fs w)) loc = Some (Dir es) ->
  exists (n : nat) (es' : list (string * node)) (evs : list evento),
    Files.eliminar_antiguos carpeta ultimo_fichero w
    = (Ok n, {| fs := con_entradas (fs w) loc es'; traza := traza w ++ evs |})
    /\ (forall e, In e es' -> In e es)
    /\ (forall k d, In (k, Dir d) es -> In (k, Dir d) es')
    /\ (forall nd, In (ultimo_fichero, nd) es -> In (ultimo_fichero, nd) es')
    /\ List.length es = List.length es' + n.
Proof.
  intros Hwf Hl Hd.
  destruct (primer_fallo ultimo_fichero es)
    as [Hrm|(pre & k & sz & post & -> & Hk & Hrm)].
  - exists (List.length (filter (obsoleto ultimo_fichero) es)),
      (filter (conservado ultimo_fichero) es),
      (avisos_eliminados carpeta (filter (obsoleto ultimo_fichero) es)).
    split; [now apply eliminar_antiguos_sin_fallo|].
    split; [intros e He; now apply filter_In in He|].
    split; [|split].
    + intros k d HIn. apply filter_In. split; [exact HIn|reflexivity].
    + intros nd HIn. apply filter_In. split; [exact HIn|].
      apply conservado_ultimo.
    + apply length_conservados.
  - exists (List.length (filter (obsoleto ultimo_fichero) pre)),
      (filter (conservado ultimo_fichero) pre ++ (k, File sz false) :: post),
      (avisos_eliminados carpeta (filter (obsoleto ultimo_fichero) pre)
       ++ [Log ERROR (ErrorEliminando carpeta OSError)]).
    split; [now apply eliminar_antiguos_con_fallo|].
    split; [|split; [|split]].
    + intros e He. apply in_or_app. apply in_app_or in He as [He|He].
      * left. now apply filter_In in He.
      * now right.
    + intros k0 d HIn. apply in_or_app. apply in_app_or in HIn as [HIn|HIn].
      * left. apply filter_In. split; [exact HIn|reflexivity].
      * now right.
    + intros nd HIn. apply in_or_app. apply in_app_or in HIn as [HIn|HIn].
      * left. apply filter_In. split; [exact HIn|]. apply conservado_ultimo.
      * now right.
    + rewrite !length_app. cbn [List.length].
      rewrite (length_conservados ultimo_fichero pre) at 1. lia.
Qed.

(** X7.  Pruning twice is pruning once: right after a call of
    [eliminar_antiguos], a second call with the same arguments returns 0
    and leaves the disk as the first call left it, be it that the first
    call deleted everything it had to, stopped at a file it could not
    remove, or found no directory to list. *)
Theorem eliminar_antiguos_idempotente
        (w w1 : mundo) (carpeta ultimo_fichero : string) (n : nat) :
  wf (fs w) = true ->
  Files.eliminar_antiguos carpeta ultimo_fichero w = (Ok n, w1) ->
  exists evs,
    Files.eliminar_antiguos carpeta ultimo_fichero w1
    = (Ok 0, {| fs := fs w1; traza := traza w1 ++ evs |})
    /\ Forall es_log evs.
Proof.
  intros Hwf Hrun.
  destruct (os_listdir (fs w) carpeta) as [ns|] eqn:Hls.
  - unfold os_listdir, stat in Hls.
    destruct (locate (fs w) carpeta) as [loc|] eqn:Hl; [|discriminate].
    destruct (lookup (root (fs w)) loc) as [[| es |]|] eqn:Hd; try discriminate.
    destruct (IdempotenceFacts.poda_conserva (fs w) w carpeta ultimo_fichero
                loc es (IdempotenceFacts.conserva_refl (fs w) Hwf) Hl Hd)
      as (n' & w2 & es' & Hp & Hfs & (Hwf2 & Hest) & Hm & Hes).
    rewrite Hrun in Hp. injection Hp as -> ->.
    destruct (MainFacts.eliminar_antiguos_al_dia w2 carpeta ultimo_fichero loc es')
      as (evs & Hp2 & Hlog); try assumption.
    + now rewrite (locate_estructura (fs w) (fs w2) carpeta Hest).
    + rewrite Hfs. now apply (lookup_con_entradas (fs w) loc es).
    + exists evs. now split.
  - rewrite (eliminar_antiguos_sin_listado w carpeta ultimo_fichero Hls) in Hrun.
    injection Hrun as _ <-.
    rewrite (eliminar_antiguos_sin_listado
               (anotado w [Log ERROR (ErrorEliminando carpeta OSError)])
               carpeta ultimo_fichero Hls).
    eexists [_]. split; [reflexivity|]. now repeat constructor.
Qed.

Import Ejemplos.

Lemma eliminar_antiguos_carpeta_ausente_witness :
  Files.eliminar_antiguos "/local/nada" "b.csv" mundo_ejemplo
  = (Ok 0, {| fs := fs_ejemplo;
              traza := [Log ERROR (ErrorEliminando "/local/nada" OSError)] |}).
Proof.
  exact (eliminar_antiguos_carpeta_ausente mundo_ejemplo "/local/nada" "b.csv"
                                           eq_refl).
Defined.

Lemma eliminar_antiguos_respeta_witness :
  exists (n : nat) (es' : list (string * node)) (evs : list evento),
    Files.eliminar_antiguos "/local/c3" "b.csv" mundo_ejemplo
    = (Ok n, {| fs := con_entradas fs_ejemplo ["local"; "c3"] es';
                traza := [] ++ evs |})
    /\ (forall e, In e es' ->
                  In e [("a.csv", fichero); ("b.csv", fichero); ("sub", Dir [])])
    /\ (forall k d,
           In (k, Dir d) [("a.csv", fichero); ("b.csv", fichero); ("sub", Dir [])] ->
           In (k, Dir d) es')
    /\ (forall nd,
           In ("b.csv", nd) [("a.csv", fichero); ("b.csv", fichero); ("sub", Dir [])] ->
           In ("b.csv", nd) es')
    /\ 3 = List.length es' + n.
Proof.
  exact (eliminar_antiguos_respeta mundo_ejemplo "/local/c3" "b.csv"
                                   ["local"; "c3"] _ eq_refl eq_refl eq_refl).
Defined.

Lemma eliminar_antiguos_idempotente_witness :
  exists evs,
    Files.eliminar_antiguos "/local/c4" "y"
      (snd (Files.eliminar_antiguos "/local/c4" "y" mundo_ejemplo))
    = (Ok 0,
       {| fs := fs (snd (Files.eliminar_antiguos "/local/c4" "y" mundo_ejemplo));
          traza := traza (snd (Files.eliminar_antiguos "/local/c4" "y"
                                                       mundo_ejemplo)) ++ evs |})
    /\ Forall es_log evs.
Proof.
  exact (eliminar_antiguos_idempotente mundo_ejemplo _ "/local/c4" "y" 0
                                       eq_refl eq_refl).
Defined.

End PruneEdgeFacts.

(* ================================================================= *)
(** ** Folder discovery at the edges *)

Module DiscoveryEdgeFacts.
Import FS FSFacts Efectos Propiedades DiscoveryFacts PruneFacts TreeFacts.

(** *** Directories and the walk *)

Lemma dirnames_no_nil (es : list (string * node)) :
  dirnames es <> [] ->
  exists k d, In (k, Dir d) es.
Proof.
  unfold dirnames. induction es as [|[k c] es IH]; [intros H; now destruct H|].
  cbn [filter snd]. destruct c as [sz r| d |]; cbn [is_dir].
  - intros H. destruct (IH H) as (k' & d' & HIn). exists k', d'. now right.
  - intros _. exists k, d. now left.
  - intros H. destruct (IH H) as (k' & d' & HIn). exists k', d'. now right.
Qed.

(** Every directory has a directory without subdirectories below it. *)
Lemma walk_tiene_terminal (n : node) :
  forall top,
    is_dir (Some n) = true ->
    exists t, In t (walk top n) /\ PosixPath.is_nil (snd (fst t)) = true.
Proof.
  induction n as [sz r | | es IH] using node_ind; intros top Hdir;
    try discriminate Hdir.
  rewrite walk_Dir. destruct (dirnames es) as [|d0 ds] eqn:E.
  - exists (top, [], filenames es). split; [now left|reflexivity].
  - destruct (dirnames_no_nil es) as (k & d & HIn); [now rewrite E|].
    rewrite Forall_forall in IH.
    destruct (IH (k, Dir d) HIn (PosixPath.join top k) eq_refl) as (t & Ht & Hnil).
    exists t. split; [|exact Hnil]. right. apply in_flat_map.
    now exists (k, Dir d).
Qed.

Lemma walk_terminal (top : string) (es : list (string * node)) :
  sin_subcarpetas es ->
  walk top (Dir es) = [(top, [], filenames es)].
Proof.
  intros Hs. rewrite walk_Dir.
  rewrite (proj2 (dirnames_nil es) Hs). f_equal.
  induction es as [|[k c] es IH]; [reflexivity|]. cbn [flat_map fst snd].
  assert (Hc : walk (PosixPath.join top k) c = []).
  { pose proof (Hs k c (or_introl eq_refl)) as H.
    destruct c as [| d |]; try reflexivity. discriminate H. }
  rewrite Hc. apply IH. intros name child HIn. apply (Hs name child). now right.
Qed.

(** X8.  [listar_subcarpetas] answers the empty list exactly when
    [base_path] is not a directory (it does not exist, or is a file):
    [os.walk] yields nothing there and no exception reaches the caller.
    Under any directory it finds at least one terminal folder. *)
Theorem listar_subcarpetas_vacio (f : filesystem) (base_path : string) :
  Files.listar_subcarpetas f base_path = []
  <-> os_path_isdir f base_path = false.
Proof.
  unfold Files.listar_subcarpetas, os_walk, os_path_isdir. split.
  - intros H. destruct (stat f base_path) as [n|] eqn:E; [|reflexivity].
    destruct (is_dir (Some n)) eqn:Hd; [|reflexivity]. exfalso.
    destruct (walk_tiene_terminal n base_path Hd) as (t & Ht & Hnil).
    assert (HIn : In (fst (fst t))
                     (map (fun t => fst (fst t))
                          (filter (fun t => PosixPath.is_nil (snd (fst t)))
                                  (walk base_path n)))).
    { apply (in_map (fun t => fst (fst t))). apply filter_In. now split. }
    rewrite H in HIn. destruct HIn.
  - intros H. destruct (stat f base_path) as [[sz r| d |]|]; try reflexivity.
    discriminate H.
Qed.

(** X9.  On a well-formed disk every path [listar_subcarpetas] answers is a
    directory that exists, none of whose entries is a directory, and
    discovery started from that path answers that path alone. *)
Theorem listar_subcarpetas_estable (f : filesystem) (base_path p : string) :
  wf f = true ->
  In p (Files.listar_subcarpetas f base_path) ->
  os_path_isdir f p = true
  /\ (exists nombres,
         os_listdir f p = Some nombres
         /\ Forall (fun k => os_path_isdir f (PosixPath.join p k) = false) nombres)
  /\ Files.listar_subcarpetas f p = [p].
Proof.
  intros Hwf HIn.
  destruct (carpeta_terminal f base_path p Hwf HIn)
    as (bl & cs & es & _ & _ & Hloc & Hd & Hs).
  assert (Hst : stat f p = Some (Dir es)) by (unfold stat; now rewrite Hloc).
  split; [|split].
  - unfold os_path_isdir. now rewrite Hst.
  - exists (map fst es). split; [unfold os_listdir; now rewrite Hst|].
    destruct (wf_folder f _ es Hwf Hd) as [_ Hpl].
    apply Forall_forall. intros k Hk.
    apply in_map_iff in Hk as ([k' c] & <- & He). cbn [fst].
    rewrite Forall_forall in Hpl.
    unfold os_path_isdir.
    rewrite (stat_in_folder f p k' _ es Hloc Hd (Hpl _ He)).
    destruct (assoc k' es) as [c'|] eqn:Ha; [|reflexivity].
    apply assoc_In in Ha. exact (Hs k' c' Ha).
  - unfold Files.listar_subcarpetas, os_walk. rewrite Hst.
    now rewrite (walk_terminal p es Hs).
Qed.

(** *** No folder twice *)

Lemma NoDup_map_filter_any {A B} (g : A -> B) (q : A -> bool) (l : list A) :
  NoDup (map g l) -> NoDup (map g (filter q l)).
Proof.
  induction l as [|x l IH]; intros H; [constructor|].
  cbn [map] in H. inversion H as [|? ? Hx Hnd]; subst. cbn [filter].
  destruct (q x); [|now apply IH]. cbn [map]. constructor; [|now apply IH].
  intros HIn. apply Hx. apply in_map_iff in HIn as (y & Hy & HIn).
  apply filter_In in HIn as [HIn _]. rewrite <- Hy. now apply in_map.
Qed.

Lemma In_walk_path (n : node) (top p : string) :
  wf_node n = true ->
  In p (map (fun t => fst (fst t)) (walk top n)) ->
  exists cs,
    Forall (fun c => plain_name c = true) cs
    /\ p = PosixPath.join_many top cs.
Proof.
  intros Hwf HIn. apply in_map_iff in HIn as (t & <- & HIn).
  apply (In_walk n top t Hwf) in HIn as (cs & es & Hl & ->).
  exists cs. split; [|reflexivity]. now apply (lookup_plain n (Dir es)).
Qed.

Lemma walk_NoDup (n : node) :
  forall top,
    top <> "" -> wf_node n = true ->
    NoDup (map (fun t => fst (fst t)) (walk top n)).
Proof.
  induction n as [sz r | | es IH] using node_ind; intros top Htop Hwf;
    [constructor|constructor|].
  rewrite walk_Dir. cbn [map fst].
  pose proof Hwf as Hwf'. apply wf_node_Dir in Hwf' as (Hpl & Hnd & Hch).
  assert (Hhijo : forall k c p,
             In (k, c) es ->
             In p (map (fun t => fst (fst t)) (walk (PosixPath.join top k) c)) ->
             exists cs,
               Forall (fun c => plain_name c = true) (k :: cs)
               /\ p = PosixPath.join_many top (k :: cs)).
  { intros k c p He Hp. rewrite Forall_forall in Hch, Hpl.
    destruct (In_walk_path c (PosixPath.join top k) p (Hch _ He) Hp)
      as (cs & Hcs & ->).
    exists cs. split; [|reflexivity]. constructor; [|exact Hcs].
    apply Hpl. now apply (in_map fst) in He. }
  constructor.
  - intros HIn. apply in_map_iff in HIn as (t & Ht & HIn).
    apply in_flat_map in HIn as ([k c] & He & HIn). cbn [fst snd] in HIn.
    destruct (Hhijo k c top He) as (cs & Hcs & E).
    { apply in_map_iff. now exists t. }
    apply (PathFacts.join_many_inj top [] (k :: cs) Htop) in E;
      [discriminate E|constructor|exact Hcs].
  - clear Hwf. revert Hhijo IH Hnd Hch Hpl.
    induction es as [|[k c] l IHl]; intros Hhijo IH Hnd Hch Hpl; [constructor|].
    cbn [flat_map fst snd]. rewrite map_app.
    inversion IH as [|? ? IHc IH']; subst.
    inversion Hch as [|? ? Hc Hch']; subst.
    cbn [map fst] in Hnd. inversion Hnd as [|? ? Hk Hnd']; subst.
    apply NoDup_app.
    + apply IHc; [|exact Hc].
      intros E. destruct (PathFacts.join_not_empty top k Htop) as [H|H];
        [now apply H|].
      inversion Hpl as [|? ? Hpk _]; subst.
      rewrite (PathFacts.plain_not_abs k Hpk) in H. discriminate H.
    + apply IHl; try assumption.
      * intros k' c' p He Hp. apply (Hhijo k' c' p); [now right|exact Hp].
      * now inversion Hpl.
    + intros p Hp1 Hp2.
      apply in_map_iff in Hp2 as (t & Ht & HIn).
      apply in_flat_map in HIn as ([k' c'] & He' & HIn). cbn [fst snd] in HIn.
      destruct (Hhijo k c p (or_introl eq_refl) Hp1) as (cs & Hcs & E).
      destruct (Hhijo k' c' p (or_intror He')) as (cs' & Hcs' & E').
      { apply in_map_iff. now exists t. }
      rewrite E in E'.
      apply (PathFacts.join_many_inj top _ _ Htop Hcs Hcs') in E'.
      injection E' as -> _. apply Hk. now apply (in_map fst) in He'.
Qed.

Lemma stat_no_vacio (f : filesystem) (path : string) (n : node) :
  stat f path = Some n -> path <> "".
Proof. intros H ->. unfold stat, locate in H. discriminate H. Qed.

(** X10.  On a well-formed disk [listar_subcarpetas] answers no path twice:
    the loop of [main] visits each terminal folder once. *)
Theorem listar_subcarpetas_sin_repetidos (f : filesystem) (base_path : string) :
  wf f = true ->
  NoDup (Files.listar_subcarpetas f base_path).
Proof.
  intros Hwf. unfold Files.listar_subcarpetas, os_walk.
  destruct (stat f base_path) as [n|] eqn:E; [|constructor].
  apply NoDup_map_filter_any. apply walk_NoDup.
  - exact (stat_no_vacio f base_path n E).
  - exact (wf_stat f base_path n Hwf E).
Qed.


Import Ejemplos.

Lemma listar_subcarpetas_estable_witness :
  os_path_isdir fs_ejemplo "/local/c3/sub" = true
  /\ (exists nombres,
         os_listdir fs_ejemplo "/local/c3/sub" = Some nombres
         /\ Forall (fun k => os_path_isdir fs_ejemplo
                               (PosixPath.join "/local/c3/sub" k) = false)
                   nombres)
  /\ Files.listar_subcarpetas fs_ejemplo "/local/c3/sub" = ["/local/c3/sub"].
Proof.
  exact (listar_subcarpetas_estable
           fs_ejemplo "/local" "/local/c3/sub" eq_refl
           (or_intror (or_intror (or_introl eq_refl)))).
Defined.

Lemma listar_subcarpetas_sin_repetidos_witness :
  NoDup (Files.listar_subcarpetas fs_ejemplo "/local").
Proof. exact (listar_subcarpetas_sin_repetidos fs_ejemplo "/local" eq_refl). Defined.


End DiscoveryEdgeFacts.

(* ================================================================= *)
(** ** A whole run, whatever the adapters do *)

Module RunFacts.
Import FS FSFacts Efectos Main Propiedades DiscoveryFacts PruneFacts TreeFacts.

(** *** Counting events *)

Lemma cuenta_app (p : evento -> bool) (a b : list evento) :
  cuenta p (a ++ b) = cuenta p a + cuenta p b.
Proof. unfold cuenta. now rewrite filter_app, length_app. Qed.

Lemma cuenta_logs (p : evento -> bool) (evs : list evento) :
  (forall n m, p (Log n m) = false) ->
  Forall es_log evs -> cuenta p evs = 0.
Proof.
  intros Hp H. unfold cuenta. induction H as [|e evs He _ IH]; [reflexivity|].
  cbn [filter]. destruct e as [n m| | |]; try destruct He.
  now rewrite Hp.
Qed.

Lemma cuenta_avisos (evs : list evento) :
  Forall es_aviso_eliminado evs ->
  cuenta es_eliminado evs = List.length evs /\ Forall es_log evs.
Proof.
  unfold cuenta. induction 1 as [|e evs He _ [IH1 IH2]]; [now split|].
  destruct e as [[] []| | |]; try destruct He.
  cbn [filter es_eliminado List.length]. rewrite IH1.
  split; [reflexivity|]. now constructor.
Qed.

Lemma cuenta_aviso_eliminados (p : evento -> bool) (n : nat) (carpeta : string) :
  (forall nv m, p (Log nv m) = false) ->
  cuenta p [aviso_eliminados n carpeta] = 0.
Proof.
  intros Hp. unfold aviso_eliminados, cuenta.
  destruct (0 <? n)%nat; cbn [filter]; now rewrite Hp.
Qed.

Lemma cuenta_aviso_no_eliminado (n : nat) (carpeta : string) :
  cuenta es_eliminado [aviso_eliminados n carpeta] = 0.
Proof. unfold aviso_eliminados. now destruct (0 <? n)%nat. Qed.

(** The pruner, with the count of the lines it logs. *)
Lemma eliminar_antiguos_cuenta (carpeta ultimo_fichero : string) (w : mundo) :
  exists (n : nat) (w' : mundo) (evs : list evento),
    Files.eliminar_antiguos carpeta ultimo_fichero w = (Ok n, w')
    /\ traza w' = traza w ++ evs
    /\ Forall es_log evs
    /\ cuenta es_eliminado evs = n.
Proof.
  destruct (os_listdir (fs w) carpeta) as [ns|] eqn:Hls.
  - unfold Files.eliminar_antiguos, with_locals, bind, try_except.
    unfold on_world at 1. unfold llamar. cbn [fst snd]. rewrite Hls.
    destruct (PruneEdgeFacts.bucle_avisos carpeta ultimo_fichero ns w 0)
      as (r & w1 & avisos & -> & Ht & Hav).
    destruct (cuenta_avisos avisos Hav) as [Hc Hlog].
    rewrite Nat.add_0_r. destruct r as [[]|e].
    + exists (List.length avisos), w1, avisos. cbn. now repeat split.
    + cbn. eexists (List.length avisos), _, (avisos ++ [_]). cbn.
      split; [reflexivity|]. split; [now rewrite Ht, <- app_assoc|]. split.
      * apply Forall_app. split; [exact Hlog|]. now repeat constructor.
      * rewrite cuenta_app, Hc. cbn. lia.
  - rewrite (PruneEdgeFacts.eliminar_antiguos_sin_listado
               w carpeta ultimo_fichero Hls).
    eexists 0, _, [_]. cbn. split; [reflexivity|]. split; [reflexivity|].
    split; [now repeat constructor|reflexivity].
Qed.

Lemma balance_refl (c : contadores) : balance 0 c c [].
Proof. unfold balance, cuenta. cbn. repeat split; lia. Qed.

Lemma balance_trans (k1 k2 : nat) (c c1 c2 : contadores)
      (evs1 evs2 : list evento) :
  balance k1 c c1 evs1 -> balance k2 c1 c2 evs2 ->
  balance (k1 + k2) c c2 (evs1 ++ evs2).
Proof.
  unfold balance. rewrite !cuenta_app.
  intros (A1 & A2 & A3 & A4 & A5 & A6 & A7) (B1 & B2 & B3 & B4 & B5 & B6 & B7).
  repeat split; lia.
Qed.

(** *** The paths of the walk are never empty *)

Lemma join_no_vacio (a b : string) : a <> "" -> PosixPath.join a b <> "".
Proof.
  intros Ha. unfold PosixPath.join.
  destruct (PosixPath.startswith_sep b) eqn:E.
  - intros ->. discriminate E.
  - destruct ((a =? "") || PosixPath.endswith_sep a); destruct a; simpl;
      congruence.
Qed.

Lemma walk_no_vacio (n : node) :
  forall top, top <> "" -> Forall (fun t => fst (fst t) <> "") (walk top n).
Proof.
  induction n as [sz r | | es IH] using node_ind; intros top Htop;
    [constructor|constructor|].
  rewrite walk_Dir. constructor; [exact Htop|].
  apply Forall_forall. intros t Ht.
  apply in_flat_map in Ht as ([k c] & He & Ht). cbn [fst snd] in Ht.
  rewrite Forall_forall in IH.
  pose proof (IH (k, c) He (PosixPath.join top k) (join_no_vacio top k Htop)) as H.
  rewrite Forall_forall in H. now apply H.
Qed.

Lemma listar_no_vacios (f : filesystem) (base_path : string) :
  Forall (fun p => p <> "") (Files.listar_subcarpetas f base_path).
Proof.
  unfold Files.listar_subcarpetas, os_walk.
  destruct (stat f base_path) as [n|] eqn:E; [|constructor].
  pose proof (walk_no_vacio n base_path
                (DiscoveryEdgeFacts.stat_no_vacio f base_path n E)) as H.
  apply Forall_forall. intros p Hp.
  apply in_map_iff in Hp as (t & <- & Ht). apply filter_In in Ht as [Ht _].
  rewrite Forall_forall in H. now apply H.
Qed.

Section Orquestador.

Variable Credenciales : Type.
Variable Listar : Credenciales -> string -> resultado (bool * list descriptor).
Variable Descargar :
  Credenciales -> string -> string -> string ->
  filesystem -> resultado (bool * string) * filesystem.
Variable credenciales : Credenciales.
Variable cfg : config.

Let procesar := procesar_carpeta Credenciales Listar Descargar credenciales cfg.
Let bucle := procesar_carpetas Credenciales Listar Descargar credenciales cfg.
Let ejecutar := main Credenciales Listar Descargar credenciales cfg.

(** [relpath] raises on the empty path only. *)
Lemma ruta_remota_de_definida (cwd base_dir carpeta_local : string) :
  carpeta_local <> "" ->
  exists ruta, ruta_remota_de cwd cfg base_dir carpeta_local = Some ruta.
Proof.
  intros H. unfold ruta_remota_de, PosixPath.relpath.
  apply String.eqb_neq in H. rewrite H. cbv zeta.
  destruct (_ ++ _)%list; eexists; reflexivity.
Qed.

Ltac saldo Hlog Hn :=
  unfold balance; rewrite ?cuenta_app;
  rewrite ?(cuenta_logs es_listado _ (fun _ _ => eq_refl) Hlog),
          ?(cuenta_logs es_llamada_descarga _ (fun _ _ => eq_refl) Hlog),
          ?(cuenta_aviso_eliminados es_listado _ _ (fun _ _ => eq_refl)),
          ?(cuenta_aviso_eliminados es_llamada_descarga _ _ (fun _ _ => eq_refl)),
          ?cuenta_aviso_no_eliminado, ?Hn;
  unfold cabecera, cuenta; cbn; repeat split; lia.

(** One turn of the loop: it returns, and moves the counters by one turn. *)
Lemma pasada_general (base_dir carpeta_local : string)
      (w : mundo) (c : contadores) :
  carpeta_local <> "" ->
  exists w' c' evs,
    procesar base_dir carpeta_local (w, c) = (Ok tt, (w', c'))
    /\ traza w' = traza w ++ evs
    /\ balance 1 c c' evs.
Proof.
  intros Hne. unfold procesar.
  destruct (ruta_remota_de_definida (getcwd (fs w)) base_dir carpeta_local Hne)
    as [ruta Hr].
  destruct (Listar credenciales ruta) as [[[|] [|a resto]]|e] eqn:Hl.
  - rewrite (MainFacts.pasada_listado_vacio _ _ _ _ _ _ _ _ w c Hr Hl).
    eexists _, _, _. split; [reflexivity|]. split; [reflexivity|].
    unfold balance, cuenta. cbn. repeat split; lia.
  - destruct (os_path_exists (fs w) (PosixPath.join carpeta_local (nombre a)))
      eqn:He.
    + destruct (eliminar_antiguos_cuenta
                  carpeta_local (nombre a)
                  (anotado w (cabecera carpeta_local ruta a
                              ++ [Log INFO (YaExisteLocalmente (nombre a));
                                  LlamadaEliminarAntiguos carpeta_local (nombre a)])))
        as (n & w2 & evp & Hp & Ht & Hlog & Hn).
      rewrite (MainFacts.pasada_ya_existe _ _ _ _ _ _ _ _ w c Hr a resto Hl
                 n w2 He Hp).
      exists (anotado w2 [aviso_eliminados n carpeta_local]),
        (sumar_eliminados n c),
        (cabecera carpeta_local ruta a
         ++ [Log INFO (YaExisteLocalmente (nombre a));
             LlamadaEliminarAntiguos carpeta_local (nombre a)]
         ++ evp ++ [aviso_eliminados n carpeta_local]).
      split; [reflexivity|]. split.
      * unfold anotado at 1. cbn [traza]. rewrite Ht. unfold anotado.
        cbn [traza]. now rewrite <- !app_assoc.
      * saldo Hlog Hn.
    + destruct (Descargar credenciales (nombre a) ruta
                          (PosixPath.join carpeta_local (nombre a)) (fs w))
        as [[[[|] rd]|e] fs1] eqn:Hd.
      * destruct (eliminar_antiguos_cuenta
                    carpeta_local (nombre a)
                    {| fs := fs1;
                       traza := traza w ++ cabecera carpeta_local ruta a
                         ++ [LlamadaDescargar (nombre a) ruta
                               (PosixPath.join carpeta_local (nombre a));
                             Log INFO (DescargadoCorrectamente (nombre a) rd);
                             LlamadaEliminarAntiguos carpeta_local (nombre a)] |})
          as (n & w2 & evp & Hp & Ht & Hlog & Hn).
        rewrite (MainFacts.pasada_descargado _ _ _ _ _ _ _ _ w c Hr a resto Hl
                   rd fs1 n w2 He Hd Hp).
        exists (anotado w2 [aviso_eliminados n carpeta_local]),
          (sumar_eliminados n (sumar_descarga (size a) c)),
          (cabecera carpeta_local ruta a
           ++ [LlamadaDescargar (nombre a) ruta
                 (PosixPath.join carpeta_local (nombre a));
               Log INFO (DescargadoCorrectamente (nombre a) rd);
               LlamadaEliminarAntiguos carpeta_local (nombre a)]
           ++ evp ++ [aviso_eliminados n carpeta_local]).
        split; [reflexivity|]. split.
        -- unfold anotado at 1. cbn [traza]. rewrite Ht.
           cbn [traza]. now rewrite <- !app_assoc.
        -- saldo Hlog Hn.
      * destruct (eliminar_antiguos_cuenta
                    carpeta_local (nombre a)
                    {| fs := fs1;
                       traza := traza w ++ cabecera carpeta_local ruta a
                         ++ [LlamadaDescargar (nombre a) ruta
                               (PosixPath.join carpeta_local (nombre a));
                             Log WARNING (NoSePudoDescargar (nombre a));
                             LlamadaEliminarAntiguos carpeta_local (nombre a)] |})
          as (n & w2 & evp & Hp & Ht & Hlog & Hn).
        rewrite (MainFacts.pasada_descarga_fallida _ _ _ _ _ _ _ _ w c Hr a resto Hl
                   rd fs1 n w2 He Hd Hp).
        exists (anotado w2 [aviso_eliminados n carpeta_local]),
          (sumar_eliminados n c),
          (cabecera carpeta_local ruta a
           ++ [LlamadaDescargar (nombre a) ruta
                 (PosixPath.join carpeta_local (nombre a));
               Log WARNING (NoSePudoDescargar (nombre a));
               LlamadaEliminarAntiguos carpeta_local (nombre a)]
           ++ evp ++ [aviso_eliminados n carpeta_local]).
        split; [reflexivity|]. split.
        -- unfold anotado at 1. cbn [traza]. rewrite Ht.
           cbn [traza]. now rewrite <- !app_assoc.
        -- saldo Hlog Hn.
      * rewrite (MainFacts.pasada_descarga_excepcion _ _ _ _ _ _ _ _ w c Hr a resto Hl
                   e fs1 He Hd).
        eexists _, _, _. split; [reflexivity|]. split; [reflexivity|].
        unfold balance, cabecera, cuenta. cbn. repeat split; lia.
  - rewrite (MainFacts.pasada_listado_fallido _ _ _ _ _ _ _ _ w c Hr [] Hl).
    eexists _, _, _. split; [reflexivity|]. split; [reflexivity|].
    unfold balance, cuenta. cbn. repeat split; lia.
  - rewrite (MainFacts.pasada_listado_fallido _ _ _ _ _ _ _ _ w c Hr (a :: resto) Hl).
    eexists _, _, _. split; [reflexivity|]. split; [reflexivity|].
    unfold balance, cuenta. cbn. repeat split; lia.
  - rewrite (MainFacts.pasada_listado_excepcion _ _ _ _ _ _ _ _ w c Hr e Hl).
    eexists _, _, _. split; [reflexivity|]. split; [reflexivity|].
    unfold balance, cuenta. cbn. repeat split; lia.
Qed.

Lemma bucle_general (base_dir : string) (carpetas : list string) :
  forall (w : mundo) (c : contadores),
    Forall (fun p => p <> "") carpetas ->
    exists w' c' evs,
      bucle base_dir carpetas (w, c) = (Ok tt, (w', c'))
      /\ traza w' = traza w ++ evs
      /\ balance (List.length carpetas) c c' evs.
Proof.
  unfold bucle, procesar_carpetas.
  induction carpetas as [|x carpetas IH]; intros w c Hne.
  - exists w, c, []. rewrite app_nil_r. split; [reflexivity|].
    split; [reflexivity|apply balance_refl].
  - inversion Hne as [|? ? Hx Hne']; subst.
    cbn [for_each]. unfold bind at 1. fold procesar.
    destruct (pasada_general base_dir x w c Hx) as (w1 & c1 & evs1 & -> & Ht1 & Hb1).
    destruct (IH w1 c1 Hne') as (w2 & c2 & evs2 & Hrun & Ht2 & Hb2).
    fold procesar in Hrun. rewrite Hrun.
    exists w2, c2, (evs1 ++ evs2). split; [reflexivity|]. split.
    + now rewrite Ht2, Ht1, app_assoc.
    + exact (balance_trans 1 _ c c1 c2 evs1 evs2 Hb1 Hb2).
Qed.

(** A run over a valid base directory. *)
Lemma main_valido (w : mundo) (base : string) :
  directorio_local cfg = Some base ->
  (base =? "") || negb (os_path_isdir (fs w) base) = false ->
  exists w' c evs,
    ejecutar w = (Ok (Some c), w')
    /\ traza w'
       = traza w
         ++ [Log INFO (CarpetasEncontradas
                         (List.length (Files.listar_subcarpetas (fs w) base)))]
         ++ evs
         ++ [Log INFO (Resumen
                         (List.length (Files.listar_subcarpetas (fs w) base))
                         (total_descargados c) (total_bytes_descargados c)
                         (total_eliminados c) (carpetas_con_error c))]
    /\ balance (List.length (Files.listar_subcarpetas (fs w) base))
               contadores_iniciales c evs.
Proof.
  intros Hb Hv. unfold ejecutar, main. rewrite Hb.
  unfold bind at 1. unfold leer at 1. rewrite Hv.
  unfold bind at 1. unfold leer at 1. unfold bind at 1.
  unfold log at 1, emitir, modify. unfold with_locals.
  unfold bind at 1.
  destruct (bucle_general base (Files.listar_subcarpetas (fs w) base)
              {| fs := fs w;
                 traza := traza w
                   ++ [Log INFO (CarpetasEncontradas
                         (List.length (Files.listar_subcarpetas (fs w) base)))] |}
              contadores_iniciales (listar_no_vacios (fs w) base))
    as (w1 & c1 & evs & Hrun & Ht & Hbal).
  unfold bucle in Hrun. rewrite Hrun. cbn.
  eexists _, c1, evs. split; [reflexivity|]. split; [|exact Hbal].
  cbn [traza]. rewrite Ht. cbn [traza]. now rewrite <- !app_assoc.
Qed.


(** X13.  The summary of a run adds up.  With [k] the number of terminal
    folders found, the run calls the listing adapter [k] times, once per
    folder, and the download adapter at most [k] times; it counts as
    downloaded no more files than it made download calls; a folder is
    counted at most once, as a download or as an error; and the deletions
    it reports are those the pruner logged, line by line. *)
Theorem main_recuento (w w' : mundo) (c : contadores) :
  main Credenciales Listar Descargar credenciales cfg w = (Ok (Some c), w') ->
  exists (base : string) (evs : list evento),
    directorio_local cfg = Some base
    /\ traza w'
       = traza w
         ++ [Log INFO (CarpetasEncontradas
                         (List.length (Files.listar_subcarpetas (fs w) base)))]
         ++ evs
         ++ [Log INFO (Resumen
                         (List.length (Files.listar_subcarpetas (fs w) base))
                         (total_descargados c) (total_bytes_descargados c)
                         (total_eliminados c) (carpetas_con_error c))]
    /\ cuenta es_listado evs
       = List.length (Files.listar_subcarpetas (fs w) base)
    /\ cuenta es_llamada_descarga evs
       <= List.length (Files.listar_subcarpetas (fs w) base)
    /\ total_descargados c <= cuenta es_llamada_descarga evs
    /\ total_descargados c + carpetas_con_error c
       <= List.length (Files.listar_subcarpetas (fs w) base)
    /\ total_eliminados c = cuenta es_eliminado evs.
Proof.
  intros Hrun. fold ejecutar in Hrun.
  destruct (directorio_local cfg) as [base|] eqn:Hb.
  - destruct ((base =? "") || negb (os_path_isdir (fs w) base)) eqn:Hv.
    + unfold ejecutar in Hrun.
      rewrite IdempotenceFacts.main_sin_base in Hrun by (now rewrite Hb).
      discriminate Hrun.
    + destruct (main_valido w base Hb Hv)
        as (w2 & c2 & evs & Hrun2 & Ht & (B1 & B2 & B3 & B4 & B5 & B6 & B7)).
      rewrite Hrun in Hrun2. injection Hrun2 as <- <-.
      exists base, evs. cbn in *. repeat split; try assumption; lia.
  - unfold ejecutar in Hrun.
    rewrite IdempotenceFacts.main_sin_base in Hrun by (now rewrite Hb).
    discriminate Hrun.
Qed.

(** X22.  The [relpath] of line 114 never raises in a run: for every
    folder that [listar_subcarpetas] answers, whatever the disk, the base
    directory and the working directory, the remote path is defined, so
    the turn of that folder reaches the listing call. *)
Theorem ruta_remota_siempre_definida
        (f : filesystem) (cwd base_dir : string) :
  Forall (fun carpeta_local =>
            exists ruta_remota,
              ruta_remota_de cwd cfg base_dir carpeta_local = Some ruta_remota)
         (Files.listar_subcarpetas f base_dir).
Proof.
  pose proof (listar_no_vacios f base_dir) as H.
  eapply Forall_impl; [|exact H]. cbn. intros carpeta_local Hne.
  now apply ruta_remota_de_definida.
Qed.



(** X16.  A run neither creates nor removes a directory.  With a download
    adapter that only writes the file it is asked for, and a listing that
    reports file names, [main] leaves a well-formed disk well-formed, the
    working directory where it was, every path a directory exactly when it
    was one, and so the terminal folders the same for the next run. *)
Theorem main_conserva_directorios
        (w0 w1 : mundo) (r1 : resultado (option contadores)) :
  descarga_bien_portada Credenciales Descargar ->
  nombres_simples Credenciales Listar ->
  wf (fs w0) = true ->
  main Credenciales Listar Descargar credenciales cfg w0 = (r1, w1) ->
  wf (fs w1) = true
  /\ getcwd (fs w1) = getcwd (fs w0)
  /\ (forall path, os_path_isdir (fs w1) path = os_path_isdir (fs w0) path)
  /\ (forall base_path p,
         In p (Files.listar_subcarpetas (fs w1) base_path)
         <-> In p (Files.listar_subcarpetas (fs w0) base_path)).
Proof.
  intros Hdes Hnom Hwf Hrun.
  assert (Hc : conserva (fs w0) (fs w1)).
  { destruct (directorio_local cfg) as [base|] eqn:Hb.
    - destruct ((base =? "") || negb (os_path_isdir (fs w0) base)) eqn:Hv.
      + rewrite IdempotenceFacts.main_sin_base in Hrun by (now rewrite Hb).
        injection Hrun as _ <-. now apply IdempotenceFacts.conserva_refl.
      + exact (proj1 (IdempotenceFacts.primera_ejecucion
                        Credenciales Listar Descargar credenciales cfg
                        w0 w1 r1 base Hdes Hnom Hwf Hb Hv Hrun)).
    - rewrite IdempotenceFacts.main_sin_base in Hrun by (now rewrite Hb).
      injection Hrun as _ <-. now apply IdempotenceFacts.conserva_refl. }
  destruct Hc as (Hwf1 & Hest).
  assert (Hest' : misma_estructura (fs w1) (fs w0)).
  { destruct Hest as [Hcwd Hd]. split; [now symmetry|].
    intros l. symmetry. apply Hd. }
  split; [exact Hwf1|]. split; [|split].
  - unfold getcwd. now rewrite (proj1 Hest).
  - intros path. unfold os_path_isdir, stat.
    rewrite (locate_estructura (fs w0) (fs w1) path Hest).
    destruct (locate (fs w0) path) as [l|]; [|reflexivity].
    apply (proj2 Hest).
  - intros base_path p. split.
    + now apply listar_misma_estructura.
    + now apply listar_misma_estructura.
Qed.

Lemma obsoletos_sin_ultimo (u : string) (es : list (string * node)) :
  ~ In u (map fst es) ->
  filter (obsoleto u) es = filter (fun e => is_file (Some (snd e))) es
  /\ Forall (fun e => is_file (Some (snd e)) = false)
            (filter (conservado u) es).
Proof.
  induction es as [|[k nd] es IH]; intros Hno; [now split|].
  cbn [map fst] in Hno.
  assert (Hk : (k =? u) = false).
  { apply String.eqb_neq. intros ->. apply Hno. now left. }
  destruct IH as [IH1 IH2]; [intros H; apply Hno; now right|].
  assert (Ho : obsoleto u (k, nd) = is_file (Some nd)).
  { unfold obsoleto. cbn [fst snd]. rewrite Hk. apply andb_true_r. }
  cbn [filter snd]. unfold conservado at 1. rewrite Ho.
  destruct (is_file (Some nd)) eqn:E; cbn [negb].
  - split; [now rewrite IH1|exact IH2].
  - split; [exact IH1|]. now constructor.
Qed.

(** X17.  A download that fails costs the folder its files.  When the
    newest remote file is not in the folder, the download adapter answers
    [ok = false] without touching the disk, and every file of the folder
    can be removed, the turn ends with no regular file left in the
    folder: the pruner, called with the name of a file that is not there,
    deletes them all, and they are all counted as deleted. *)
Theorem descarga_fallida_vacia_carpeta
        (base_dir carpeta_local ruta_remota : string)
        (w : mundo) (c : contadores)
        (archivo_reciente : descriptor) (resto : list descriptor)
        (ruta_descargada : string)
        (loc : list string) (es : list (string * node)) :
  wf (fs w) = true ->
  ruta_remota_de (getcwd (fs w)) cfg base_dir carpeta_local = Some ruta_remota ->
  Listar credenciales ruta_remota = Ok (true, archivo_reciente :: resto) ->
  plain_name (nombre archivo_reciente) = true ->
  locate (fs w) carpeta_local = Some loc ->
  lookup (root (fs w)) loc = Some (Dir es) ->
  os_path_exists (fs w) (PosixPath.join carpeta_local (nombre archivo_reciente))
  = false ->
  (forall k sz r, In (k, File sz r) es -> r = true) ->
  Descargar credenciales (nombre archivo_reciente) ruta_remota
            (PosixPath.join carpeta_local (nombre archivo_reciente)) (fs w)
  = (Ok (false, ruta_descargada), fs w) ->
  exists (w' : mundo) (c' : contadores) (es' : list (string * node)),
    procesar_carpeta Credenciales Listar Descargar credenciales cfg
                     base_dir carpeta_local (w, c)
    = (Ok tt, (w', c'))
    /\ fs w' = con_entradas (fs w) loc es'
    /\ Forall (fun e => is_file (Some (snd e)) = false) es'
    /\ (forall e, In e es' <-> In e es /\ is_file (Some (snd e)) = false)
    /\ total_eliminados c'
       = total_eliminados c
         + List.length (filter (fun e => is_file (Some (snd e))) es)
    /\ total_descargados c' = total_descargados c
    /\ carpetas_con_error c' = carpetas_con_error c.
Proof.
  intros Hwf Hr Hl Hplain Hloc Hd He Hrm Hdes.
  assert (Hno : ~ In (nombre archivo_reciente) (map fst es)).
  { apply assoc_None_not_In. unfold os_path_exists in He.
    rewrite (stat_in_folder _ _ _ _ _ Hloc Hd Hplain) in He.
    now destruct (assoc (nombre archivo_reciente) es). }
  destruct (obsoletos_sin_ultimo (nombre archivo_reciente) es Hno) as [Hob Hco].
  pose proof (eliminar_antiguos_sin_fallo
                {| fs := fs w;
                   traza := traza w ++ cabecera carpeta_local ruta_remota
                                                archivo_reciente
                     ++ [LlamadaDescargar (nombre archivo_reciente) ruta_remota
                           (PosixPath.join carpeta_local (nombre archivo_reciente));
                         Log WARNING (NoSePudoDescargar (nombre archivo_reciente));
                         LlamadaEliminarAntiguos carpeta_local
                                                 (nombre archivo_reciente)] |}
                carpeta_local (nombre archivo_reciente) loc es Hwf Hloc Hd
                (fun k sz r HIn _ => Hrm k sz r HIn)) as Hp.
  rewrite (MainFacts.pasada_descarga_fallida _ _ _ _ _ _ _ _ w c Hr
             archivo_reciente resto Hl ruta_descargada (fs w) _ _ He Hdes Hp).
  eexists _, _, (filter (conservado (nombre archivo_reciente)) es).
  split; [reflexivity|]. split; [reflexivity|]. split; [exact Hco|].
  split; [|split; [|split]].
  - intros e. rewrite filter_In. split.
    + intros [HIn Hc]. split; [exact HIn|].
      rewrite Forall_forall in Hco. apply Hco. now apply filter_In.
    + intros [HIn Hf]. split; [exact HIn|].
      unfold conservado, obsoleto. now rewrite Hf.
  - cbn. now rewrite Hob.
  - reflexivity.
  - reflexivity.
Qed.

End Orquestador.

(** *** The theorems on the example worlds *)

Import Ejemplos.

Lemma main_recuento_witness :
  exists (base : string) (evs : list evento),
    directorio_local cfg_ejemplo = Some base
    /\ traza mundo_tras_primera
       = traza mundo_inicial
         ++ [Log INFO (CarpetasEncontradas
                         (List.length (Files.listar_subcarpetas
                                         (fs mundo_inicial) base)))]
         ++ evs
         ++ [Log INFO (Resumen
                         (List.length (Files.listar_subcarpetas
                                         (fs mundo_inicial) base))
                         1 100 2 0)]
    /\ cuenta es_listado evs
       = List.length (Files.listar_subcarpetas (fs mundo_inicial) base)
    /\ cuenta es_llamada_descarga evs
       <= List.length (Files.listar_subcarpetas (fs mundo_inicial) base)
    /\ 1 <= cuenta es_llamada_descarga evs
    /\ 1 + 0 <= List.length (Files.listar_subcarpetas (fs mundo_inicial) base)
    /\ 2 = cuenta es_eliminado evs.
Proof.
  exact (main_recuento unit listar_ejemplo descarga_correcta tt cfg_ejemplo
                       mundo_inicial mundo_tras_primera _
                       IdempotenceFacts.primera_ejecucion_ejemplo).
Defined.



Lemma main_conserva_directorios_witness :
  wf (fs mundo_tras_primera) = true
  /\ getcwd (fs mundo_tras_primera) = getcwd (fs mundo_inicial)
  /\ (forall path, os_path_isdir (fs mundo_tras_primera) path
                   = os_path_isdir (fs mundo_inicial) path)
  /\ (forall base_path p,
         In p (Files.listar_subcarpetas (fs mundo_tras_primera) base_path)
         <-> In p (Files.listar_subcarpetas (fs mundo_inicial) base_path)).
Proof.
  exact (main_conserva_directorios
           unit listar_ejemplo descarga_correcta tt cfg_ejemplo
           mundo_inicial mundo_tras_primera _
           IdempotenceFacts.descarga_correcta_bien_portada
           IdempotenceFacts.listar_ejemplo_nombres_simples
           eq_refl IdempotenceFacts.primera_ejecucion_ejemplo).
Defined.

Lemma descarga_fallida_vacia_carpeta_witness :
  exists (w' : mundo) (c' : contadores) (es' : list (string * node)),
    procesar_carpeta unit listar_ejemplo descarga_fallida tt cfg_ejemplo
                     "/local" "/local/c1" (mundo_inicial, contadores_iniciales)
    = (Ok tt, (w', c'))
    /\ fs w' = con_entradas (fs mundo_inicial) ["local"; "c1"] es'
    /\ Forall (fun e => is_file (Some (snd e)) = false) es'
    /\ (forall e, In e es' <->
                  In e [("viejo.csv", fichero)] /\ is_file (Some (snd e)) = false)
    /\ total_eliminados c' = 0 + 1
    /\ total_descargados c' = 0
    /\ carpetas_con_error c' = 0.
Proof.
  apply (descarga_fallida_vacia_carpeta
           unit listar_ejemplo descarga_fallida tt cfg_ejemplo
           "/local" "/local/c1" "/remote/c1" mundo_inicial contadores_iniciales
           (remoto "b.csv" 100 100) [remoto "a.csv" 5 50] "/local/c1/b.csv"
           ["local"; "c1"] [("viejo.csv", fichero)]);
    try reflexivity.
  intros k sz r [H|[]]. now injection H as _ _ <-.
Defined.

End RunFacts.

(* ================================================================= *)
(** ** The remote path at the edges *)

Module MapperEdgeFacts.
Import PosixPath PathFacts Propiedades MapperFacts.

Lemma getcwd_absoluto (f : FS.filesystem) : startswith_sep (FS.getcwd f) = true.
Proof. reflexivity. Qed.

(** [relpath] of the base directory from itself. *)
Lemma relpath_de_la_base (cwd base_dir : string) :
  startswith_sep cwd = true -> base_dir <> "" ->
  relpath cwd base_dir (normpath base_dir) = Some curdir.
Proof.
  intros Hc Hb. unfold relpath.
  apply String.eqb_neq in Hb as Hb'. rewrite Hb'.
  fold (abs_comps cwd (normpath base_dir)). fold (abs_comps cwd base_dir).
  rewrite (abs_comps_normpath cwd base_dir Hc Hb).
  pose proof (commonprefix_len_app (abs_comps cwd base_dir) []) as H1.
  pose proof (skipn_length_app (abs_comps cwd base_dir) []) as H2.
  rewrite app_nil_r in H1, H2. rewrite H1, H2, Nat.sub_diag. reflexivity.
Qed.

Lemma join_relativa (a b : string) :
  startswith_sep b = false -> join a b = (prefijo a ++ b)%string.
Proof.
  intros H. unfold join, prefijo. rewrite H.
  destruct ((a =? "") || endswith_sep a); [reflexivity|].
  now rewrite append_assoc.
Qed.

(** X18.  A base directory without subdirectories is its own and only
    terminal folder, and the remote path [main] lists for it is the remote
    root followed by [.]: [relpath] answers [.] for the base itself, and
    the result of [join] is not normalised. *)
Theorem ruta_remota_de_la_base
        (f : FS.filesystem) (cfg : Main.config) (base_dir : string)
        (es : list (string * FS.node)) :
  FS.stat f base_dir = Some (FS.Dir es) ->
  sin_subcarpetas es ->
  Files.listar_subcarpetas f base_dir = [base_dir]
  /\ Main.ruta_remota_de (FS.getcwd f) cfg base_dir base_dir
     = Some (replace_backslash (join (Main.raiz_remota cfg) "."))
  /\ (has_backslash (Main.raiz_remota cfg) = false ->
      Main.raiz_remota cfg <> "" ->
      endswith_sep (Main.raiz_remota cfg) = false ->
      Main.ruta_remota_de (FS.getcwd f) cfg base_dir base_dir
      = Some (Main.raiz_remota cfg ++ "/.")%string).
Proof.
  intros Hst Hs.
  assert (Hb : base_dir <> "")
    by exact (DiscoveryEdgeFacts.stat_no_vacio f base_dir _ Hst).
  assert (E : Main.ruta_remota_de (FS.getcwd f) cfg base_dir base_dir
              = Some (replace_backslash (join (Main.raiz_remota cfg) "."))).
  { unfold Main.ruta_remota_de.
    now rewrite (relpath_de_la_base _ base_dir (getcwd_absoluto f) Hb). }
  split; [|split; [exact E|]].
  - unfold Files.listar_subcarpetas, FS.os_walk. rewrite Hst.
    now rewrite (DiscoveryEdgeFacts.walk_terminal base_dir es Hs).
  - intros Hr Hne He. rewrite E. f_equal.
    rewrite (join_relativa _ "." eq_refl). unfold prefijo.
    apply String.eqb_neq in Hne. rewrite Hne, He. cbn [orb].
    rewrite !replace_backslash_app, (replace_backslash_id _ Hr).
    now rewrite append_assoc.
Qed.

Lemma plain_sin_saltos (cs : list string) :
  Forall (fun c => FS.plain_name c = true) cs ->
  Forall no_skip cs /\ Forall (fun c => FS.has_sep c = false) cs.
Proof.
  intros H. split; (eapply Forall_impl; [|exact H]); cbn; intros c Hc;
    apply plain_name_inv in Hc as (H1 & H2 & _ & H4); [now split|exact H4].
Qed.

Lemma ruta_remota_de_descendiente
      (cwd : string) (cfg : Main.config) (base_dir : string) (cs : list string) :
  isabs cwd = true -> base_dir <> "" ->
  Forall (fun c => FS.plain_name c = true) cs -> cs <> [] ->
  Main.ruta_remota_de cwd cfg base_dir (join_many base_dir cs)
  = Some (replace_backslash (prefijo (Main.raiz_remota cfg))
          ++ replace_backslash (concat "/" cs))%string.
Proof.
  intros Hc Hb Hcs Hne. unfold Main.ruta_remota_de.
  rewrite (relpath_descendiente cwd base_dir cs Hc Hb Hcs Hne).
  destruct (plain_sin_saltos cs Hcs) as [H1 H2].
  rewrite (join_relativa _ _ (startswith_sep_concat cs H1 H2)).
  now rewrite replace_backslash_app.
Qed.

(** X19.  With no [directorio_remoto] in the configuration the remote root
    is [/]: the folder reached from the base directory by the names [cs]
    is listed at [/] followed by those names joined by [/]. *)
Theorem ruta_remota_sin_raiz_configurada
        (cwd : string) (cfg : Main.config) (base_dir : string) (cs : list string) :
  Main.directorio_remoto cfg = None ->
  isabs cwd = true -> base_dir <> "" ->
  Forall (fun c => FS.plain_name c = true) cs -> cs <> [] ->
  Main.ruta_remota_de cwd cfg base_dir (join_many base_dir cs)
  = Some ("/" ++ replace_backslash (concat "/" cs))%string.
Proof.
  intros Hcfg Hc Hb Hcs Hne.
  rewrite (ruta_remota_de_descendiente cwd cfg base_dir cs Hc Hb Hcs Hne).
  unfold Main.raiz_remota. now rewrite Hcfg.
Qed.

(** X20.  Two folders under the base directory whose names hold no
    backslash are never listed at the same remote path: the mapping from
    local folder to remote path is one to one on them. *)
Theorem ruta_remota_inyectiva
        (cwd : string) (cfg : Main.config) (base_dir : string)
        (cs cs' : list string) :
  isabs cwd = true -> base_dir <> "" ->
  Forall (fun c => FS.plain_name c = true) cs -> cs <> [] ->
  Forall (fun c => FS.plain_name c = true) cs' -> cs' <> [] ->
  Forall (fun c => has_backslash c = false) cs ->
  Forall (fun c => has_backslash c = false) cs' ->
  Main.ruta_remota_de cwd cfg base_dir (join_many base_dir cs)
  = Main.ruta_remota_de cwd cfg base_dir (join_many base_dir cs') ->
  cs = cs'.
Proof.
  intros Hc Hb Hcs Hne Hcs' Hne' Hn Hn' E.
  rewrite (ruta_remota_de_descendiente cwd cfg base_dir cs Hc Hb Hcs Hne) in E.
  rewrite (ruta_remota_de_descendiente cwd cfg base_dir cs' Hc Hb Hcs' Hne') in E.
  injection E as E. apply append_inj_l in E.
  rewrite (replace_backslash_id _ (has_backslash_concat cs Hn)) in E.
  rewrite (replace_backslash_id _ (has_backslash_concat cs' Hn')) in E.
  apply (f_equal split) in E.
  rewrite (split_concat cs Hne (proj2 (plain_sin_saltos cs Hcs))) in E.
  now rewrite (split_concat cs' Hne' (proj2 (plain_sin_saltos cs' Hcs'))) in E.
Qed.

Lemma has_sep_app (a b : string) :
  FS.has_sep (a ++ b)%string = FS.has_sep a || FS.has_sep b.
Proof.
  induction a as [|c a IH]; [reflexivity|]. simpl.
  now rewrite IH, orb_assoc.
Qed.

Lemma plain_con_barra (a b : string) :
  FS.plain_name a = true -> FS.plain_name b = true ->
  FS.plain_name (a ++ String backslash b)%string = true.
Proof.
  intros Ha Hb.
  apply plain_name_inv in Ha as (Ha1 & _ & _ & Ha4).
  apply plain_name_inv in Hb as (_ & _ & _ & Hb4).
  unfold FS.plain_name. rewrite has_sep_app. cbn [FS.has_sep].
  rewrite Ha4, Hb4. change (is_sep backslash) with false. cbn [orb negb].
  rewrite andb_true_r.
  destruct a as [|c a0]; [congruence|].
  repeat (apply andb_true_iff; split); apply negb_true_iff, String.eqb_neq.
  - discriminate.
  - intros H. injection H as _ H. destruct a0; discriminate H.
  - intros H. injection H as _ H. destruct a0 as [|c1 a1].
    + cbv in H. discriminate H.
    + injection H as _ H. destruct a1; discriminate H.
Qed.

(** X21.  The replacement of backslashes can send two folders to one
    remote path: a folder whose name is [a], a backslash, [b] (a legal
    file name on a POSIX host) and the folder [b] inside the folder [a] are
    different local folders listed at the same remote path. *)
Theorem ruta_remota_confunde_barras
        (cwd : string) (cfg : Main.config) (base_dir a b : string) :
  isabs cwd = true -> base_dir <> "" ->
  FS.plain_name a = true -> FS.plain_name b = true ->
  Main.ruta_remota_de cwd cfg base_dir
    (join_many base_dir [(a ++ String backslash b)%string])
  = Main.ruta_remota_de cwd cfg base_dir (join_many base_dir [a; b])
  /\ join_many base_dir [(a ++ String backslash b)%string]
     <> join_many base_dir [a; b].
Proof.
  intros Hc Hb Ha Hb'.
  pose proof (plain_con_barra a b Ha Hb') as Hab.
  split.
  - rewrite (ruta_remota_de_descendiente cwd cfg base_dir _ Hc Hb);
      [|now repeat constructor|discriminate].
    rewrite (ruta_remota_de_descendiente cwd cfg base_dir [a; b] Hc Hb);
      [|now repeat constructor|discriminate].
    do 2 f_equal.
    change (concat "/" [(a ++ String backslash b)%string])
      with (a ++ String backslash b)%string.
    change (concat "/" [a; b]) with (a ++ String sep b)%string.
    rewrite !replace_backslash_app. cbn [replace_backslash].
    now rewrite Ascii.eqb_refl.
  - intros E. apply (join_many_inj base_dir _ _ Hb) in E;
      [discriminate E|now repeat constructor|now repeat constructor].
Qed.

Import Ejemplos.

Lemma ruta_remota_de_la_base_witness :
  Files.listar_subcarpetas fs_ejemplo "/home/datos" = ["/home/datos"]
  /\ Main.ruta_remota_de (FS.getcwd fs_ejemplo) cfg_ejemplo
                         "/home/datos" "/home/datos"
     = Some (replace_backslash (join (Main.raiz_remota cfg_ejemplo) "."))
  /\ (has_backslash (Main.raiz_remota cfg_ejemplo) = false ->
      Main.raiz_remota cfg_ejemplo <> "" ->
      endswith_sep (Main.raiz_remota cfg_ejemplo) = false ->
      Main.ruta_remota_de (FS.getcwd fs_ejemplo) cfg_ejemplo
                          "/home/datos" "/home/datos"
      = Some (Main.raiz_remota cfg_ejemplo ++ "/.")%string).
Proof.
  apply (ruta_remota_de_la_base fs_ejemplo cfg_ejemplo "/home/datos" [] eq_refl).
  intros name child [].
Defined.

Lemma ruta_remota_sin_raiz_configurada_witness :
  Main.ruta_remota_de
    "/home" {| Main.directorio_local := Some "/local";
               Main.directorio_remoto := None |}
    "/local" (join_many "/local" ["c3"; "sub"])
  = Some ("/" ++ replace_backslash (concat "/" ["c3"; "sub"]))%string.
Proof.
  apply (ruta_remota_sin_raiz_configurada
           "/home" {| Main.directorio_local := Some "/local";
                      Main.directorio_remoto := None |}
           "/local" ["c3"; "sub"] eq_refl eq_refl).
  - discriminate.
  - now repeat constructor.
  - discriminate.
Defined.

Lemma ruta_remota_inyectiva_witness : ["c3"; "sub"] = ["c3"; "sub"].
Proof.
  apply (ruta_remota_inyectiva "/home" cfg_ejemplo "/local"
                               ["c3"; "sub"] ["c3"; "sub"] eq_refl);
    try discriminate; try (now repeat constructor).
Defined.

Lemma ruta_remota_confunde_barras_witness :
  Main.ruta_remota_de "/home" cfg_ejemplo "/local"
    (join_many "/local" [("a" ++ String backslash "b")%string])
  = Main.ruta_remota_de "/home" cfg_ejemplo "/local"
                        (join_many "/local" ["a"; "b"])
  /\ join_many "/local" [("a" ++ String backslash "b")%string]
     <> join_many "/local" ["a"; "b"].
Proof.
  apply (ruta_remota_confunde_barras "/home" cfg_ejemplo "/local" "a" "b"
                                     eq_refl);
    [discriminate|reflexivity|reflexivity].
Defined.

End MapperEdgeFacts.
